(** * A remote-monitoring server and its client

    The class [RemoteServer] of [server.py], the class [RemoteClient] of
    [client.py] and the script [build.py] as Rocq functions, with the
    properties of the command dispatch, of the directory guard, of the
    session loop, of the metric handlers, of the renderer and of the command
    loop of the client, and of the build script.

    Part I is the embedding: the operations of Python strings ([PyStr]), of
    [os.path] on POSIX ([PosixPath]) and of the [json] module ([Json]) that
    the code calls, then [server.py] ([Server]), [client.py] ([Client] for
    the renderer, [ClientLoop] for the other methods) and [build.py]
    ([Build]), the vocabulary of the statements and sample hosts. Part II
    holds the lemmas and the theorems on the dispatch, the guard, the
    handlers and the renderer; Part III those on whole runs of the server,
    of the client and of the build script.

    Conventions of the embedding.
    - A Python [str] is a [string] whose characters are the code points
      below 256; an [int] is a [Z].
    - A Python [float] is a member of the interface [PyFloat]: the code
      prints, parses, divides, formats and compares floats, and these are
      the operations of the interface. [Samples.decimal_float] is an
      instance, used where a statement is evaluated.
    - A call that can raise returns a value of [exn + A], [inl] for the
      exception. A method of the server is a function of its arguments and
      of the server object that returns its result, the object it leaves
      behind and the events it produced ([Server.M]).
    - The operating system, [psutil], [platform] and the clock are the
      record [Server.Env], read by the handlers.
    - [handle_client] is run against a list of turns, each with the
      environment of that moment, what [recv] gives and whether [send]
      fails; when the list is used up the loop is waiting in [recv].
      [start_client] is run in the same way against a list of steps, each
      with what [input] gives and what the connection does with the
      command; a [KeyboardInterrupt] is considered where the client waits,
      in [input] and during the exchange.
    - The working directory of [build.py] is the list of its entries, each
      with what [shutil.rmtree] does on it; a shell command is a function
      on that list.
    - The decoder and the encoder of [json] call themselves once for each
      container inside a container, and the interpreter raises
      [RecursionError] when its limit on nested calls is reached. Where
      that is depends on the interpreter and on the calls already on the
      stack: two levels, the depth of the responses of the server, are
      taken to be within reach, and the rest is left to the interfaces
      [Interpreter] and [Client.Host].
    - A text that names a character from U+0100 on, with a [\u] escape, is
      decoded by [json.loads] to a string the model has no value for:
      [loads] reports it as [Beyond], and what the client does with such a
      response is left open ([Client.beyond_alphabet]).
    - An [int] has no bound. The limit of the interpreter on the digits of
      an integer it converts from or to text, 4300 by default and never
      below 640, is not in the model; a statement on every text is made
      for the texts without a longer run of digits.
    - [print] and [tabulate] are taken not to fail. *)

From Stdlib Require Import Bool Arith ZArith NArith QArith Lia List Ascii String.
From Stdlib Require Import DecimalString DecimalZ DecimalN DecimalPos.
From Stdlib Require Import Sorting.Sorted Sorting.Permutation.
Import ListNotations.

Close Scope Q_scope.
Local Open Scope Z_scope.
Local Open Scope nat_scope.
Local Open Scope list_scope.
Local Open Scope string_scope.

(** ** Part I. The embedding *)

(** *** Python strings *)

Module PyStr.

(** [str.isspace] on one character, for the code points below 256:
    TAB..CR, FS..US, space, NEL and the no-break space. *)
Definition is_space (c : ascii) : bool :=
  let n := nat_of_ascii c in
  (((9 <=? n) && (n <=? 13)) || ((28 <=? n) && (n <=? 32))
   || (n =? 133) || (n =? 160))%nat.

(** [str.lower] on one character: A..Z, and the Latin-1 capitals
    U+00C0..U+00DE but the multiplication sign U+00D7. *)
Definition lower_char (c : ascii) : ascii :=
  let n := nat_of_ascii c in
  if (((65 <=? n) && (n <=? 90))
      || ((192 <=? n) && (n <=? 222) && negb (n =? 215)))%nat
  then ascii_of_nat (n + 32) else c.

Fixpoint lower (s : string) : string :=
  match s with
  | EmptyString => EmptyString
  | String c r => String (lower_char c) (lower r)
  end.

Fixpoint lstrip (s : string) : string :=
  match s with
  | EmptyString => EmptyString
  | String c r => if is_space c then lstrip r else s
  end.

Fixpoint rstrip (s : string) : string :=
  match s with
  | EmptyString => EmptyString
  | String c r =>
      match rstrip r with
      | EmptyString => if is_space c then EmptyString else String c EmptyString
      | r' => String c r'
      end
  end.

(** [s.strip()] *)
Definition strip (s : string) : string := rstrip (lstrip s).

(** [s.startswith(p)] *)
Fixpoint startswith (s p : string) {struct p} : bool :=
  match p with
  | EmptyString => true
  | String a p' =>
      match s with
      | EmptyString => false
      | String b s' => Ascii.eqb a b && startswith s' p'
      end
  end.

Fixpoint endswith_char (s : string) (c : ascii) : bool :=
  match s with
  | EmptyString => false
  | String d EmptyString => Ascii.eqb d c
  | String _ r => endswith_char r c
  end.

(** [s.partition(sep)] for a one-character separator: the text before the
    first [sep] and the text after it, when there is one. *)
Fixpoint cut_at (sep : ascii) (s : string) : option (string * string) :=
  match s with
  | EmptyString => None
  | String c r =>
      if Ascii.eqb c sep then Some (EmptyString, r)
      else match cut_at sep r with
           | Some (a, b) => Some (String c a, b)
           | None => None
           end
  end.

(** [s.split(' ', 1)]: at most one split, at the first space. *)
Definition split_once (s : string) : list string :=
  match cut_at " " s with
  | Some (a, b) => [a; b]
  | None => [s]
  end.

(** [s.split(sep)] for a one-character separator, no limit. *)
Fixpoint split (sep : ascii) (s : string) : list string :=
  match s with
  | EmptyString => [EmptyString]
  | String c r =>
      if Ascii.eqb c sep then EmptyString :: split sep r
      else match split sep r with
           | p :: ps => String c p :: ps
           | [] => [String c EmptyString]
           end
  end.

(** [sep.join(parts)] *)
Fixpoint join (sep : string) (parts : list string) : string :=
  match parts with
  | [] => EmptyString
  | [p] => p
  | p :: ps => p ++ sep ++ join sep ps
  end.

Fixpoint repeat_char (c : ascii) (n : nat) : string :=
  match n with
  | O => EmptyString
  | S k => String c (repeat_char c k)
  end.

(** [str(n)] for an [int]. *)
Definition str_of_Z (z : Z) : string := NilZero.string_of_int (Z.to_int z).

End PyStr.

(** *** [os.path] on POSIX *)

Module PosixPath.
Import PyStr.

(** [os.path.isabs] *)
Definition isabs (p : string) : bool := startswith p "/".

(** [os.path.join(a, b)] *)
Definition join2 (a b : string) : string :=
  if startswith b "/" then b
  else if (a =? "")%string || endswith_char a "/" then a ++ b
  else a ++ "/" ++ b.

(** The loop of [normpath] over the components, [new_comps] kept in reverse
    (its last element first). [rooted] is [initial_slashes] seen as a
    boolean. *)
Fixpoint norm_comps (rooted : bool) (comps : list string) (rev_new : list string)
  : list string :=
  match comps with
  | [] => rev_new
  | comp :: rest =>
      if (comp =? "")%string || (comp =? ".")%string then
        norm_comps rooted rest rev_new
      else if negb (comp =? "..")%string
              || (negb rooted && match rev_new with [] => true | _ => false end)
              || match rev_new with
                 | last :: _ => (last =? "..")%string
                 | [] => false
                 end
      then norm_comps rooted rest (comp :: rev_new)
      else match rev_new with
           | _ :: popped => norm_comps rooted rest popped
           | [] => norm_comps rooted rest rev_new
           end
  end.

(** [initial_slashes]: 0, 1, or 2 for a path that starts with exactly two
    slashes. *)
Definition initial_slashes (path : string) : nat :=
  if startswith path "/" then
    if startswith path "//" && negb (startswith path "///") then 2 else 1
  else 0.

(** [os.path.normpath] *)
Definition normpath (path : string) : string :=
  if (path =? "")%string then "."
  else
    let n := initial_slashes path in
    let comps := rev (norm_comps (0 <? n)%nat (split "/" path) []) in
    let p := repeat_char "/" n ++ join "/" comps in
    if (p =? "")%string then "." else p.

(** [os.path.abspath], [cwd] being what [os.getcwd()] returns. *)
Definition abspath (cwd path : string) : string :=
  normpath (if isabs path then path else join2 cwd path).

End PosixPath.

(** *** Exceptions and floats *)

(** The classes of exception the code distinguishes; all derive from
    [Exception]. *)
Inductive exn_kind : Set :=
| ConnectionResetError
| OSError
| NoSuchProcess
| AccessDenied
| KeyError
| TypeError
| ValueError
| RecursionError
| OverflowError
| OtherException.

(** An exception object; [exn_msg] is what [str(e)] returns. *)
Record exn : Set := Exn { exn_class : exn_kind; exn_msg : string }.

(** Python's [float], as far as the code uses it. [float_value] is the number
    a finite float stands for, used where the code compares floats or tests
    them for zero. *)
Class PyFloat : Type := {
  float : Type;
  float_repr : float -> string;          (* what json.dumps writes; repr(x) and str(x)
                                            for a finite float, as those of psutil are *)
  float_of_literal : string -> float;    (* float(s) *)
  float_of_Z : Z -> float;               (* float(n) *)
  float_div : Z -> Z -> float;           (* n / d on two ints *)
  float_format : nat -> float -> string; (* format(x, '.Nf') *)
  float_value : float -> Q
}.

(** Whether [float(n)] exists. The largest float is [2^1024 - 2^971]; an
    integer from [2^1024 - 2^970] on, half-way to [2^1024], rounds beyond it,
    and the conversion raises [OverflowError]. *)
Definition fits_float (n : Z) : bool := (Z.abs n <? 2 ^ 1024 - 2 ^ 970)%Z.

(** The interpreter, as far as decoding depends on it: how many containers
    deeper than two [json.loads] can go before the limit on nested calls is
    reached, and how the message of the [RecursionError] it then raises
    begins. *)
Class Interpreter : Type := {
  decoder_room : nat;
  recursion_message : string
}.

(** The number of containers, one inside the other, that [json.loads] can
    open. *)
Definition decoder_depth {PI : Interpreter} : nat := 2 + decoder_room.

(** *** The [json] module: [json.dumps(obj, indent=2)] and [json.loads] *)

Module Json.
Import PyStr.

Section WithFloat.
Context {PF : PyFloat} {PI : Interpreter}.

(** What [json.loads] returns and [json.dumps] accepts. A [dict] keeps its
    keys in insertion order; its keys are strings. *)
#[warnings="-register-all"]
Inductive json : Type :=
| JNull
| JBool (b : bool)
| JInt (z : Z)
| JFloat (x : float)
| JStr (s : string)
| JArr (l : list json)
| JObj (m : list (string * json)).

Definition dquote : ascii := "034"%char.
Definition backslash : ascii := "092"%char.
Definition newline : ascii := "010"%char.

(** **** Python dictionaries *)

(** [d[k]] as a lookup; [None] is [KeyError]. *)
Fixpoint dict_get (m : list (string * json)) (k : string) : option json :=
  match m with
  | [] => None
  | (k', v) :: r => if (k' =? k)%string then Some v else dict_get r k
  end.

(** [d[k] = v]: an existing key keeps its place, a new one goes last. *)
Fixpoint dict_set (m : list (string * json)) (k : string) (v : json)
  : list (string * json) :=
  match m with
  | [] => [(k, v)]
  | (k', v') :: r =>
      if (k' =? k)%string then (k', v) :: r else (k', v') :: dict_set r k v
  end.

(** [dict(pairs)] *)
Definition dict_of_pairs (pairs : list (string * json)) : list (string * json) :=
  fold_left (fun d kv => dict_set d (fst kv) (snd kv)) pairs [].

Definition dict_keys (m : list (string * json)) : list string := map fst m.

(** **** Encoding *)

Definition hex_digit (n : nat) : ascii :=
  if (n <? 10)%nat then ascii_of_nat (48 + n) else ascii_of_nat (87 + n).

(** One character of a string literal, [ensure_ascii] being on: the
    two-character escapes, a character from space to tilde as it is, the
    [\uXXXX] form for the others. *)
Definition escape_char (c : ascii) : string :=
  let n := nat_of_ascii c in
  if (n =? 34)%nat then String backslash (String dquote "")
  else if (n =? 92)%nat then String backslash (String backslash "")
  else if (n =? 10)%nat then String backslash "n"
  else if (n =? 13)%nat then String backslash "r"
  else if (n =? 9)%nat then String backslash "t"
  else if (n =? 12)%nat then String backslash "f"
  else if (n =? 8)%nat then String backslash "b"
  else if ((32 <=? n) && (n <=? 126))%nat then String c ""
  else String backslash
         (String "u" (String "0" (String "0"
            (String (hex_digit (n / 16)) (String (hex_digit (n mod 16)) ""))))).

Fixpoint escape (s : string) : string :=
  match s with
  | EmptyString => EmptyString
  | String c r => escape_char c ++ escape r
  end.

Definition encode_string (s : string) : string :=
  String dquote (escape s ++ String dquote "").

(** The line break and the indentation written before an item at nesting
    level [level]. *)
Definition newline_indent (level : nat) : string :=
  String newline (repeat_char " " (2 * level)).

(** The text of a container: its items one per line at [level + 1], the
    closing bracket on a line of its own at [level]. *)
Definition bracket (open close : string) (level : nat) (items : list string)
  : string :=
  match items with
  | [] => open ++ close
  | _ => open ++ newline_indent (S level)
         ++ join ("," ++ newline_indent (S level)) items
         ++ newline_indent level ++ close
  end.

Fixpoint dumps_at (level : nat) (j : json) : string :=
  match j with
  | JNull => "null"
  | JBool true => "true"
  | JBool false => "false"
  | JInt z => str_of_Z z
  | JFloat x => float_repr x
  | JStr s => encode_string s
  | JArr l => bracket "[" "]" level (map (dumps_at (S level)) l)
  | JObj m =>
      bracket "{" "}" level
        (map (fun kv => encode_string (fst kv) ++ ": " ++ dumps_at (S level) (snd kv)) m)
  end.

(** [json.dumps(obj, indent=2)] *)
Definition dumps (j : json) : string := dumps_at 0 j.

(** **** Decoding *)

Definition is_ws (c : ascii) : bool :=
  let n := nat_of_ascii c in
  ((n =? 32) || (n =? 9) || (n =? 10) || (n =? 13))%nat.

Fixpoint skip_ws (s : string) : string :=
  match s with
  | EmptyString => EmptyString
  | String c r => if is_ws c then skip_ws r else s
  end.

Definition is_digit (c : ascii) : bool :=
  let n := nat_of_ascii c in ((48 <=? n) && (n <=? 57))%nat.

(** The longest run of digits at the head of [s], and what follows it. *)
Fixpoint scan_digits (s : string) : string * string :=
  match s with
  | EmptyString => (EmptyString, EmptyString)
  | String c r =>
      if is_digit c then let (ds, r') := scan_digits r in (String c ds, r')
      else (EmptyString, s)
  end.

(** The integer part of a number: [0], or a digit from 1 to 9 and the digits
    after it. *)
Definition scan_int_part (s : string) : option (string * string) :=
  match s with
  | EmptyString => None
  | String c r =>
      if Ascii.eqb c "0" then Some ("0", r)
      else if is_digit c then
        let (ds, r') := scan_digits r in Some (String c ds, r')
      else None
  end.

(** The optional fraction: a point and at least one digit. *)
Definition scan_frac (s : string) : string * string :=
  match s with
  | String c r =>
      if Ascii.eqb c "." then
        match scan_digits r with
        | (EmptyString, _) => (EmptyString, s)
        | (ds, r') => (String c ds, r')
        end
      else (EmptyString, s)
  | EmptyString => (EmptyString, s)
  end.

(** The optional exponent: [e] or [E], an optional sign and at least one
    digit. *)
Definition scan_exp (s : string) : string * string :=
  match s with
  | String e r =>
      if Ascii.eqb e "e" || Ascii.eqb e "E" then
        let (sg, r1) :=
          match r with
          | String c r0 =>
              if Ascii.eqb c "+" || Ascii.eqb c "-" then (String c "", r0)
              else (EmptyString, r)
          | EmptyString => (EmptyString, r)
          end in
        match scan_digits r1 with
        | (EmptyString, _) => (EmptyString, s)
        | (ds, r') => (String e (sg ++ ds), r')
        end
      else (EmptyString, s)
  | EmptyString => (EmptyString, s)
  end.

(** The match of the number pattern at the head of [s]: the literal, whether
    it has a fraction or an exponent, and what follows. *)
Definition scan_number (s : string) : option (string * bool * string) :=
  let (sg, s1) :=
    match s with
    | String c r => if Ascii.eqb c "-" then (String c "", r) else (EmptyString, s)
    | EmptyString => (EmptyString, s)
    end in
  match scan_int_part s1 with
  | None => None
  | Some (ip, r1) =>
      let (fp, r2) := scan_frac r1 in
      let (ep, r3) := scan_exp r2 in
      Some (sg ++ ip ++ fp ++ ep,
            negb ((fp =? "")%string && (ep =? "")%string), r3)
  end.

(** [int(s)] on an integer literal. *)
Definition Z_of_literal (s : string) : Z :=
  match NilZero.int_of_string s with
  | Some d => Z.of_int d
  | None => 0%Z
  end.

Definition hex_value (c : ascii) : option nat :=
  let n := nat_of_ascii c in
  if ((48 <=? n) && (n <=? 57))%nat then Some (n - 48)
  else if ((97 <=? n) && (n <=? 102))%nat then Some (n - 87)
  else if ((65 <=? n) && (n <=? 70))%nat then Some (n - 55)
  else None.

(** How [json.loads] can end without a value. *)
Inductive decode_failure : Set :=
| JSONDecodeError                (* the text is not JSON: json.JSONDecodeError *)
| TooDeep (container : string)   (* RecursionError, at an object or an array *)
| Beyond.                        (* a character outside the alphabet of the model *)

(** The code point of a [\uXXXX] escape, when the four characters are
    hexadecimal digits. *)
Definition hex4 (h1 h2 h3 h4 : ascii) : option nat :=
  match hex_value h1, hex_value h2, hex_value h3, hex_value h4 with
  | Some a, Some b, Some c, Some d => Some (4096 * a + 256 * b + 16 * c + d)
  | _, _, _, _ => None
  end.

(** The character of a [\uXXXX] escape. An escape that is not four
    hexadecimal digits is an error of the text; a code point from 256 on is a
    character the decoder accepts and the model cannot hold. *)
Definition unicode_escape (h1 h2 h3 h4 : ascii) : decode_failure + ascii :=
  match hex4 h1 h2 h3 h4 with
  | Some n => if (n <? 256)%nat then inr (ascii_of_nat n) else inl Beyond
  | None => inl JSONDecodeError
  end.

(** The character of a two-character escape. *)
Definition simple_escape (e : ascii) : option ascii :=
  let n := nat_of_ascii e in
  if (n =? 34)%nat then Some dquote
  else if (n =? 92)%nat then Some backslash
  else if (n =? 47)%nat then Some "/"%char
  else if (n =? 98)%nat then Some "008"%char
  else if (n =? 102)%nat then Some "012"%char
  else if (n =? 110)%nat then Some newline
  else if (n =? 114)%nat then Some "013"%char
  else if (n =? 116)%nat then Some "009"%char
  else None.

(** The body of a string literal, after its opening quote: the decoded text
    and what follows the closing quote. A control character inside the
    literal is refused, as the strict decoder does. The literal is read from
    left to right, and the first fault found is the one reported. *)
Fixpoint scan_string (s : string) : decode_failure + (string * string) :=
  match s with
  | EmptyString => inl JSONDecodeError
  | String c r =>
      if Ascii.eqb c dquote then inr (EmptyString, r)
      else if Ascii.eqb c backslash then
        match r with
        | String e r1 =>
            if Ascii.eqb e "u" then
              match r1 with
              | String h1 (String h2 (String h3 (String h4 r2))) =>
                  match unicode_escape h1 h2 h3 h4 with
                  | inl e => inl e
                  | inr d =>
                      match scan_string r2 with
                      | inr (t, r') => inr (String d t, r')
                      | inl e => inl e
                      end
                  end
              | _ => inl JSONDecodeError
              end
            else
              match simple_escape e with
              | None => inl JSONDecodeError
              | Some d =>
                  match scan_string r1 with
                  | inr (t, r') => inr (String d t, r')
                  | inl e => inl e
                  end
              end
        | EmptyString => inl JSONDecodeError
        end
      else if (nat_of_ascii c <? 32)%nat then inl JSONDecodeError
      else
        match scan_string r with
        | inr (t, r') => inr (String c t, r')
        | inl e => inl e
        end
  end.

(** The constants and the numbers: [null], [true], [false], a number, then
    [NaN], [Infinity] and [-Infinity]. *)
Definition scan_atom (s : string) : option (json * string) :=
  match s with
  | String "n" (String "u" (String "l" (String "l" r))) => Some (JNull, r)
  | String "t" (String "r" (String "u" (String "e" r))) => Some (JBool true, r)
  | String "f" (String "a" (String "l" (String "s" (String "e" r)))) =>
      Some (JBool false, r)
  | _ =>
      match scan_number s with
      | Some (lit, true, r) => Some (JFloat (float_of_literal lit), r)
      | Some (lit, false, r) => Some (JInt (Z_of_literal lit), r)
      | None =>
          match s with
          | String "N" (String "a" (String "N" r)) =>
              Some (JFloat (float_of_literal "nan"), r)
          | String "I" (String "n" (String "f" (String "i" (String "n"
              (String "i" (String "t" (String "y" r))))))) =>
              Some (JFloat (float_of_literal "inf"), r)
          | String "-" (String "I" (String "n" (String "f" (String "i"
              (String "n" (String "i" (String "t" (String "y" r)))))))) =>
              Some (JFloat (float_of_literal "-inf"), r)
          | _ => None
          end
      end
  end.

(** The scanner. [fuel] bounds the number of nested calls of the model;
    [loads] gives it more than a text of that length can use. [depth] is the
    number of containers that can still be opened one inside the other: the
    decoder asks the interpreter for a nested call when it meets the opening
    bracket of an object or of an array, before it reads what is inside. *)
Fixpoint parse_value (fuel depth : nat) (s : string) {struct fuel}
  : decode_failure + (json * string) :=
  match fuel with
  | O => inl JSONDecodeError
  | S f =>
      match s with
      | EmptyString => inl JSONDecodeError
      | String c r =>
          if Ascii.eqb c dquote then
            match scan_string r with
            | inr (t, r') => inr (JStr t, r')
            | inl e => inl e
            end
          else if Ascii.eqb c "{" then
            match depth with
            | O => inl (TooDeep "object")
            | S d =>
                match skip_ws r with
                | EmptyString => inl JSONDecodeError
                | String c1 r1 =>
                    if Ascii.eqb c1 "}" then inr (JObj [], r1)
                    else
                      match parse_members f d (String c1 r1) with
                      | inr (m, r') => inr (JObj (dict_of_pairs m), r')
                      | inl e => inl e
                      end
                end
            end
          else if Ascii.eqb c "[" then
            match depth with
            | O => inl (TooDeep "array")
            | S d =>
                match skip_ws r with
                | EmptyString => inl JSONDecodeError
                | String c1 r1 =>
                    if Ascii.eqb c1 "]" then inr (JArr [], r1)
                    else
                      match parse_elems f d (String c1 r1) with
                      | inr (l, r') => inr (JArr l, r')
                      | inl e => inl e
                      end
                end
            end
          else
            match scan_atom s with
            | Some p => inr p
            | None => inl JSONDecodeError
            end
      end
  end

with parse_elems (fuel depth : nat) (s : string) {struct fuel}
  : decode_failure + (list json * string) :=
  match fuel with
  | O => inl JSONDecodeError
  | S f =>
      match parse_value f depth s with
      | inl e => inl e
      | inr (v, r) =>
          match skip_ws r with
          | EmptyString => inl JSONDecodeError
          | String c r' =>
              if Ascii.eqb c "]" then inr ([v], r')
              else if Ascii.eqb c "," then
                match parse_elems f depth (skip_ws r') with
                | inr (l, r'') => inr (v :: l, r'')
                | inl e => inl e
                end
              else inl JSONDecodeError
          end
      end
  end

with parse_members (fuel depth : nat) (s : string) {struct fuel}
  : decode_failure + (list (string * json) * string) :=
  match fuel with
  | O => inl JSONDecodeError
  | S f =>
      match s with
      | EmptyString => inl JSONDecodeError
      | String q r0 =>
          if Ascii.eqb q dquote then
            match scan_string r0 with
            | inl e => inl e
            | inr (k, r1) =>
                match skip_ws r1 with
                | EmptyString => inl JSONDecodeError
                | String c r2 =>
                    if Ascii.eqb c ":" then
                      match parse_value f depth (skip_ws r2) with
                      | inl e => inl e
                      | inr (v, r3) =>
                          match skip_ws r3 with
                          | EmptyString => inl JSONDecodeError
                          | String d r' =>
                              if Ascii.eqb d "}" then inr ([(k, v)], r')
                              else if Ascii.eqb d "," then
                                match parse_members f depth (skip_ws r') with
                                | inr (m, r'') => inr ((k, v) :: m, r'')
                                | inl e => inl e
                                end
                              else inl JSONDecodeError
                          end
                      end
                    else inl JSONDecodeError
                end
            end
          else inl JSONDecodeError
      end
  end.

(** [json.loads(s)]: the value, or how the call ended without one. *)
Definition loads (s : string) : decode_failure + json :=
  match parse_value (2 * String.length s + 2) decoder_depth (skip_ws s) with
  | inr (v, r) =>
      match skip_ws r with
      | EmptyString => inr v
      | _ => inl JSONDecodeError
      end
  | inl e => inl e
  end.

(** The exception of [TooDeep]. *)
Definition too_deep (container : string) : exn :=
  Exn RecursionError
      (recursion_message ++ " while decoding a JSON " ++ container
       ++ " from a unicode string").

(** The number of containers of a value that lie one inside the other. *)
Fixpoint nesting (j : json) : nat :=
  match j with
  | JArr l => S (fold_right (fun x n => Nat.max (nesting x) n) 0 l)
  | JObj m => S (fold_right (fun kv n => Nat.max (nesting (snd kv)) n) 0 m)
  | _ => 0
  end.

End WithFloat.

Arguments json : clear implicits.
Arguments json {PF}.

End Json.

(** *** [server.py] *)

Module Server.
Import PyStr PosixPath Json.

(** A socket attribute of the server object: [None], a socket, or a socket
    that has been closed. *)
Inductive sock : Set := NoSocket | SockOpen | SockClosed.

(** The attributes of a [RemoteServer] object. *)
Record RemoteServer : Set := {
  host : string;
  port : Z;
  socket : sock;
  client : sock;
  addr : option string;      (* the address of the peer, as a text *)
  allowed_dirs : list string
}.

(** What the server does to the outside world. *)
Inductive event : Set :=
| Sent (data : string)          (* self.client.send(data.encode()) went through *)
| ClientClosed                  (* the connection socket was closed *)
| ListenerClosed                (* the listening socket was closed *)
| MadeDir (d : string)          (* os.makedirs(d, exist_ok=True) *)
| LogInfo (msg : string)
| LogError (msg : string).

Section WithFloat.
Context {PF : PyFloat}.

(** **** The environment *)

(** [psutil.cpu_freq()] *)
Record scpufreq : Type := { freq_current : float; freq_min : float; freq_max : float }.
(** [psutil.virtual_memory()], the fields the code reads. *)
Record svmem : Type := { vm_total : Z; vm_available : Z; vm_percent : float }.
(** [psutil.swap_memory()], the fields the code reads. *)
Record sswap : Set := { sw_total : Z; sw_used : Z }.
(** [psutil.net_io_counters()] *)
Record snetio : Set := {
  bytes_sent : Z; bytes_recv : Z; packets_sent : Z; packets_recv : Z
}.
(** [psutil.disk_usage(mountpoint)] *)
Record sdiskusage : Type := {
  du_total : Z; du_used : Z; du_free : Z; du_percent : float
}.

(** The [info] dictionary of a process, asked for with the attributes
    [pid], [name] and [memory_percent]; [psutil] stores [None] for an
    attribute it was denied. *)
Record proc_info : Type := {
  pid : Z;
  name : option string;
  memory_percent : option float
}.

(** A process object as [process_iter] yields it: [info] is a dictionary
    that [psutil] has filled before, and reading the attribute cannot
    raise. *)
Record Process : Type := { info : proc_info }.

(** The attributes asked of [process_iter]. *)
Inductive attr : Set := Pid | Name | MemoryPercent.

(** [psutil] fills [info] while it iterates over the set of the attribute
    names. The order of a set of strings changes with the hash seed of the
    interpreter: it is one of the six orders of the three names. *)
Inductive attr_order : Set :=
| PidNamePercent
| PidPercentName
| NamePidPercent
| NamePercentPid
| PercentPidName
| PercentNamePid.

Definition attrs_in (order : attr_order) : list attr :=
  match order with
  | PidNamePercent => [Pid; Name; MemoryPercent]
  | PidPercentName => [Pid; MemoryPercent; Name]
  | NamePidPercent => [Name; Pid; MemoryPercent]
  | NamePercentPid => [Name; MemoryPercent; Pid]
  | PercentPidName => [MemoryPercent; Pid; Name]
  | PercentNamePid => [MemoryPercent; Name; Pid]
  end.

(** What the handlers read from the operating system at one moment. *)
Record Env : Type := {
  cwd : string;                                    (* os.getcwd() *)
  os_listdir : string -> exn + list string;        (* os.listdir(path) *)
  platform_system : string;
  platform_version : string;
  platform_machine : string;
  platform_processor : string;
  strftime_now : string;        (* datetime.now().strftime('%Y-%m-%d %H:%M:%S') *)
  cpu_percent : exn + list float;       (* psutil.cpu_percent(interval=1, percpu=True) *)
  cpu_freq : exn + option scpufreq;     (* psutil.cpu_freq() *)
  cpu_count_physical : exn + option Z;  (* psutil.cpu_count(logical=False) *)
  cpu_count_logical : exn + option Z;   (* psutil.cpu_count() *)
  virtual_memory : exn + svmem;
  swap_memory : exn + sswap;
  process_iter : exn + list Process;
  info_order : attr_order;      (* the order of the keys of each [info] *)
  net_io_counters : exn + option snetio;
  disk_partitions : exn + list string;  (* the mount points, in order *)
  disk_usage : string -> exn + sdiskusage
}.

(** **** Methods: state, events and exceptions *)

(** A method body: from the object to its result (or the exception it
    raises), the object afterwards and the events in order. *)
Definition M (A : Type) : Type :=
  RemoteServer -> (exn + A) * RemoteServer * list event.

Definition ret {A} (a : A) : M A := fun self => (inr a, self, []).
Definition raise {A} (e : exn) : M A := fun self => (inl e, self, []).
Definition bind {A B} (m : M A) (k : A -> M B) : M B :=
  fun self =>
    match m self with
    | (inl e, self', evs) => (inl e, self', evs)
    | (inr a, self', evs) =>
        match k a self' with
        | (r, self'', evs') => (r, self'', (evs ++ evs')%list)
        end
    end.
Definition emit (ev : event) : M unit := fun self => (inr tt, self, [ev]).
Definition get_self : M RemoteServer := fun self => (inr self, self, []).
Definition put_self (s : RemoteServer) : M unit := fun _ => (inr tt, s, []).
(** A call into the environment. *)
Definition call {A} (r : exn + A) : M A :=
  match r with inl e => raise e | inr a => ret a end.

Notation "x <- m ;; k" := (bind m (fun x => k))
  (at level 61, m at next level, right associativity).
Notation "m ;;; k" := (bind m (fun _ => k))
  (at level 61, right associativity).

(** **** Construction *)

(** [setup_directories] *)
Fixpoint make_dirs (dirs : list string) : M unit :=
  match dirs with
  | [] => ret tt
  | d :: r => emit (MadeDir d) ;;; make_dirs r
  end.

Definition setup_directories : M unit :=
  self <- get_self ;; make_dirs (allowed_dirs self).

(** [__init__]: the object, and the directories it creates. *)
Definition init (h : string) (p : Z) : (exn + unit) * RemoteServer * list event :=
  setup_directories
    {| host := h; port := p; socket := NoSocket; client := NoSocket;
       addr := None; allowed_dirs := ["./shared"; "./downloads"] |}.

(** **** Handlers *)

(** [get_system_info] *)
Definition get_system_info (env : Env) (args : string) : M string :=
  ret (String newline "System Information:" ++ String newline "OS: "
       ++ platform_system env ++ " " ++ platform_version env
       ++ String newline "Machine: " ++ platform_machine env
       ++ String newline "Processor: " ++ platform_processor env
       ++ String newline "").

(** [get_time] *)
Definition get_time (env : Env) (args : string) : M string :=
  ret ("Server time: " ++ strftime_now env).

(** [echo_message] *)
Definition echo_message (env : Env) (message : string) : M string :=
  ret ("Echo: " ++ message).

(** [sock.close()], on an attribute that holds a socket. *)
Definition close_client : M unit :=
  self <- get_self ;;
  match client self with
  | NoSocket => ret tt
  | SockClosed => ret tt
  | SockOpen =>
      put_self {| host := host self; port := port self; socket := socket self;
                  client := SockClosed; addr := addr self;
                  allowed_dirs := allowed_dirs self |} ;;;
      emit ClientClosed
  end.

Definition close_listener : M unit :=
  self <- get_self ;;
  match socket self with
  | NoSocket => ret tt
  | SockClosed => ret tt
  | SockOpen =>
      put_self {| host := host self; port := port self; socket := SockClosed;
                  client := client self; addr := addr self;
                  allowed_dirs := allowed_dirs self |} ;;;
      emit ListenerClosed
  end.

(** [cleanup] *)
Definition cleanup : M unit :=
  close_client ;;;
  close_listener ;;;
  emit (LogInfo "Server cleaned up and shut down").

(** [exit_connection] *)
Definition exit_connection (env : Env) (args : string) : M string :=
  cleanup ;;;
  ret "Server shutting down...".

Definition json_of_option {A} (f : A -> json) (o : option A) : json :=
  match o with Some a => f a | None => JNull end.

(** [psutil.cpu_freq()._asdict() if psutil.cpu_freq() else {}] *)
Definition cpu_freq_dict (o : option scpufreq) : json :=
  match o with
  | Some f => JObj [("current", JFloat (freq_current f));
                    ("min", JFloat (freq_min f));
                    ("max", JFloat (freq_max f))]
  | None => JObj []
  end.

(** The dictionary [cpu_info] of [get_cpu_info]. *)
Definition cpu_info (env : Env) : exn + json :=
  match cpu_percent env with
  | inl e => inl e
  | inr percents =>
      match cpu_freq env with
      | inl e => inl e
      | inr freq =>
          match cpu_count_physical env with
          | inl e => inl e
          | inr physical =>
              match cpu_count_logical env with
              | inl e => inl e
              | inr logical =>
                  inr (JObj [("cpu_percent", JArr (map JFloat percents));
                             ("cpu_freq", cpu_freq_dict freq);
                             ("cpu_count", json_of_option JInt physical);
                             ("cpu_count_logical", json_of_option JInt logical)])
              end
          end
      end
  end.

(** [get_cpu_info] *)
Definition get_cpu_info (env : Env) (args : string) : M string :=
  d <- call (cpu_info env) ;; ret (dumps d).

(** [f"{n / (1024**3):.2f} GB"] *)
Definition gb (n : Z) : string :=
  float_format 2 (float_div n (1024 ^ 3)%Z) ++ " GB".

(** [f"{n / (1024**2):.2f} MB"] *)
Definition mb (n : Z) : string :=
  float_format 2 (float_div n (1024 ^ 2)%Z) ++ " MB".

(** [f"{x}%"] *)
Definition percent (x : float) : string := float_repr x ++ "%".

(** The dictionary [mem_info] of [get_memory_info]. *)
Definition mem_info (env : Env) : exn + json :=
  match virtual_memory env with
  | inl e => inl e
  | inr memory =>
      match swap_memory env with
      | inl e => inl e
      | inr swap =>
          inr (JObj [("total", JStr (gb (vm_total memory)));
                     ("available", JStr (gb (vm_available memory)));
                     ("percent_used", JStr (percent (vm_percent memory)));
                     ("swap_total", JStr (gb (sw_total swap)));
                     ("swap_used", JStr (gb (sw_used swap)))])
      end
  end.

(** [get_memory_info] *)
Definition get_memory_info (env : Env) (args : string) : M string :=
  d <- call (mem_info env) ;; ret (dumps d).

(** The dictionary of [get_network_stats]; a host without interfaces gives
    [None], whose attribute the code then fails to read. *)
Definition net_info (env : Env) : exn + json :=
  match net_io_counters env with
  | inl e => inl e
  | inr None =>
      inl (Exn OtherException "'NoneType' object has no attribute 'bytes_sent'")
  | inr (Some net_stats) =>
      inr (JObj [("bytes_sent", JStr (mb (bytes_sent net_stats)));
                 ("bytes_recv", JStr (mb (bytes_recv net_stats)));
                 ("packets_sent", JInt (packets_sent net_stats));
                 ("packets_recv", JInt (packets_recv net_stats))])
  end.

(** [get_network_stats] *)
Definition get_network_stats (env : Env) (args : string) : M string :=
  d <- call (net_info env) ;; ret (dumps d).

(** The dictionary stored for one mount point. *)
Definition usage_dict (usage : sdiskusage) : json :=
  JObj [("total", JStr (gb (du_total usage)));
        ("used", JStr (gb (du_used usage)));
        ("free", JStr (gb (du_free usage)));
        ("percent", JStr (percent (du_percent usage)))].

(** The loop of [get_disk_space] over the partitions: a mount point whose
    usage query raises is passed over. *)
Fixpoint disk_loop (env : Env) (mounts : list string) (disk_info : list (string * json))
  : list (string * json) :=
  match mounts with
  | [] => disk_info
  | mountpoint :: r =>
      match disk_usage env mountpoint with
      | inr usage => disk_loop env r (dict_set disk_info mountpoint (usage_dict usage))
      | inl _ => disk_loop env r disk_info
      end
  end.

Definition disk_info (env : Env) : exn + json :=
  match disk_partitions env with
  | inl e => inl e
  | inr mounts => inr (JObj (disk_loop env mounts []))
  end.

(** [get_disk_space] *)
Definition get_disk_space (env : Env) (args : string) : M string :=
  d <- call (disk_info env) ;; ret (dumps d).

(** The sort key [x.info['memory_percent'] or 0], as a number: [None] and
    a zero percentage both give 0. *)
Definition sort_key (i : proc_info) : Q :=
  match memory_percent i with
  | Some x => float_value x
  | None => 0%Q
  end.

(** [sorted] computes the key of every item before it sorts. *)
Definition decorate (procs : list Process) : list (Q * Process) :=
  map (fun p => (sort_key (info p), p)) procs.

(** [sorted(..., reverse=True)] on decorated items: descending, and stable,
    an item going before the items of the same key that came after it. *)
Fixpoint insert_desc {A} (x : Q * A) (l : list (Q * A)) : list (Q * A) :=
  match l with
  | [] => [x]
  | y :: r =>
      if Qle_bool (fst y) (fst x) then x :: y :: r
      else y :: insert_desc x r
  end.

Fixpoint sorted_desc {A} (l : list (Q * A)) : list (Q * A) :=
  match l with
  | [] => []
  | x :: r => insert_desc x (sorted_desc r)
  end.

(** The [for] loop: [proc.info] is appended. Nothing in the [try] block
    can raise one of the two [psutil] exceptions, so that the [except]
    clause is never entered. *)
Fixpoint append_infos (procs : list Process) (processes : list proc_info)
  : list proc_info :=
  match procs with
  | [] => processes
  | proc :: r => append_infos r (processes ++ [info proc])%list
  end.

(** The list [processes] at the end of [get_running_processes]. *)
Definition top_processes (procs : list Process) : list proc_info :=
  append_infos (map snd (firstn 10 (sorted_desc (decorate procs)))) [].

Definition attr_name (a : attr) : string :=
  match a with
  | Pid => "pid"
  | Name => "name"
  | MemoryPercent => "memory_percent"
  end.

Definition attr_value (i : proc_info) (a : attr) : json :=
  match a with
  | Pid => JInt (pid i)
  | Name => json_of_option JStr (name i)
  | MemoryPercent => json_of_option JFloat (memory_percent i)
  end.

(** The dictionary [proc.info], its keys in the order of the
    interpreter. *)
Definition info_dict (order : attr_order) (i : proc_info) : json :=
  JObj (map (fun a => (attr_name a, attr_value i a)) (attrs_in order)).

Definition processes_info (env : Env) : exn + json :=
  match process_iter env with
  | inl e => inl e
  | inr procs => inr (JArr (map (info_dict (info_order env)) (top_processes procs)))
  end.

(** [get_running_processes] *)
Definition get_running_processes (env : Env) (args : string) : M string :=
  d <- call (processes_info env) ;; ret (dumps d).

(** [any(requested_path.startswith(os.path.abspath(allowed)) for allowed in
    self.allowed_dirs)] *)
Definition path_allowed (env : Env) (dirs : list string) (requested_path : string)
  : bool :=
  existsb (fun allowed => startswith requested_path (abspath (cwd env) allowed)) dirs.

Definition access_denied : string :=
  "Access denied. Path not in allowed directories.".

(** [list_directory]; the whole body is inside [try], and any exception
    becomes the text of the response. *)
Definition list_directory (env : Env) (path : string) : M string :=
  self <- get_self ;;
  let requested_path := abspath (cwd env) (join2 "." (strip path)) in
  if negb (path_allowed env (allowed_dirs self) requested_path) then
    ret access_denied
  else
    match os_listdir env requested_path with
    | inr items =>
        ret (dumps (JObj [("path", JStr requested_path);
                          ("contents", JArr (map JStr items))]))
    | inl e => ret ("Error listing directory: " ++ exn_msg e)
    end.

(** **** Dispatch *)

(** The dictionary [commands] of [process_command]. *)
Definition commands : list (string * (Env -> string -> M string)) :=
  [("sysinfo", get_system_info);
   ("time", get_time);
   ("echo", echo_message);
   ("exit", exit_connection);
   ("cpu", get_cpu_info);
   ("memory", get_memory_info);
   ("processes", get_running_processes);
   ("netstat", get_network_stats);
   ("listdir", list_directory);
   ("diskspace", get_disk_space)].

Fixpoint lookup {A} (table : list (string * A)) (k : string) : option A :=
  match table with
  | [] => None
  | (k', a) :: r => if (k' =? k)%string then Some a else lookup r k
  end.

Definition invalid_command : string :=
  "Invalid command. Use 'help' to see available commands.".

(** [cmd_parts[0]] of a received command. *)
Definition keyword (command : string) : string :=
  match split_once (lower (strip command)) with
  | cmd :: _ => cmd
  | [] => EmptyString
  end.

(** [cmd_parts[1] if len(cmd_parts) > 1 else ''] *)
Definition argument (command : string) : string :=
  match split_once (lower (strip command)) with
  | _ :: args :: _ => args
  | _ => EmptyString
  end.

(** [process_command] *)
Definition process_command (env : Env) (command : string) : M string :=
  let command := lower (strip command) in
  let cmd_parts := split_once command in
  let cmd := match cmd_parts with c :: _ => c | [] => EmptyString end in
  let args := match cmd_parts with _ :: a :: _ => a | _ => EmptyString end in
  match lookup commands cmd with
  | Some handler => handler env args
  | None => ret invalid_command
  end.

(** **** The session *)

(** What [self.client.recv(1024).decode()] gives on a socket that is open:
    a text (empty when the peer has closed) or an exception. *)
Inductive recv_result : Set :=
| RecvData (data : string)
| RecvRaises (e : exn).

(** One turn of the loop as the outside world decides it: the environment
    the handlers see, the outcome of [recv], and the error, if any, of a
    [send] on the open socket. *)
Record turn : Type := {
  turn_env : Env;
  turn_recv : recv_result;
  turn_send_error : option exn
}.

Definition bad_descriptor : exn := Exn OSError "[Errno 9] Bad file descriptor".

(** [self.client.recv(1024).decode()] *)
Definition recv (t : turn) : M string :=
  self <- get_self ;;
  match client self with
  | SockOpen =>
      match turn_recv t with
      | RecvData data => ret data
      | RecvRaises e => raise e
      end
  | SockClosed => raise bad_descriptor
  | NoSocket =>
      raise (Exn OtherException "'NoneType' object has no attribute 'recv'")
  end.

(** [self.client.send(response.encode())] *)
Definition send (t : turn) (response : string) : M unit :=
  self <- get_self ;;
  match client self with
  | SockOpen =>
      match turn_send_error t with
      | None => emit (Sent response)
      | Some e => raise e
      end
  | SockClosed => raise bad_descriptor
  | NoSocket =>
      raise (Exn OtherException "'NoneType' object has no attribute 'send'")
  end.

(** How one turn of the [while True] loop ends. *)
Inductive flow : Set := Continue | Break.

(** The [try] block of the loop body. *)
Definition loop_try (t : turn) : M flow :=
  data <- recv t ;;
  if (data =? "")%string then ret Break
  else
    response <- process_command (turn_env t) data ;;
    send t response ;;;
    ret Continue.

(** The loop body with its two [except] clauses. *)
Definition loop_body (t : turn) (self : RemoteServer)
  : flow * RemoteServer * list event :=
  match loop_try t self with
  | (inr f, self', evs) => (f, self', evs)
  | (inl e, self', evs) =>
      match exn_class e with
      | ConnectionResetError =>
          (Break, self', (evs ++ [LogError "Client disconnected unexpectedly"])%list)
      | _ =>
          (Break, self',
           (evs ++ [LogError ("Error handling client: " ++ exn_msg e)])%list)
      end
  end.

(** Where [handle_client] is when the turns given to it are used up. *)
Inductive status : Set :=
| Waiting     (* inside the loop, blocked in [recv] *)
| Returned.   (* the loop was left *)

(** [handle_client], run against the turns the outside world provides. *)
Fixpoint handle_client (turns : list turn) (self : RemoteServer)
  : status * RemoteServer * list event :=
  match turns with
  | [] => (Waiting, self, [])
  | t :: r =>
      match loop_body t self with
      | (Break, self', evs) => (Returned, self', evs)
      | (Continue, self', evs) =>
          match handle_client r self' with
          | (st, self'', evs') => (st, self'', (evs ++ evs')%list)
          end
      end
  end.

(** **** Start-up *)

(** What the network does while the server starts: the exception, if any,
    of each call that sets the listening socket up, and what [accept]
    gives, the address of the peer as [f"{self.addr}"] prints it, or the
    exception it raises. *)
Record network : Set := {
  net_socket : option exn;      (* socket.socket(AF_INET, SOCK_STREAM) *)
  net_setsockopt : option exn;  (* setsockopt(SOL_SOCKET, SO_REUSEADDR, 1) *)
  net_bind : option exn;        (* bind((self.host, self.port)) *)
  net_listen : option exn;      (* listen(1) *)
  net_accept : exn + string     (* accept() *)
}.

(** A call that returns nothing and may raise. *)
Definition attempt (failure : option exn) : M unit :=
  match failure with
  | Some e => raise e
  | None => ret tt
  end.

(** The statements of [start_server] that set the listening socket up. *)
Definition listen (net : network) : M unit :=
  attempt (net_socket net) ;;;
  self <- get_self ;;
  put_self {| host := host self; port := port self; socket := SockOpen;
              client := client self; addr := addr self;
              allowed_dirs := allowed_dirs self |} ;;;
  attempt (net_setsockopt net) ;;;
  attempt (net_bind net) ;;;
  attempt (net_listen net) ;;;
  emit (LogInfo ("Server listening on " ++ host self ++ ":" ++ str_of_Z (port self))).

(** [self.client, self.addr = self.socket.accept()] and the line of the log
    after it. *)
Definition accept (net : network) : M unit :=
  peer <- call (net_accept net) ;;
  self <- get_self ;;
  put_self {| host := host self; port := port self; socket := socket self;
              client := SockOpen; addr := Some peer;
              allowed_dirs := allowed_dirs self |} ;;;
  emit (LogInfo ("Connection from " ++ peer)).

(** [start_server]: the [try] block, the [except] clause that logs what the
    set-up or [accept] raised, and [cleanup] in the [finally] clause. While
    [handle_client] is waiting, [start_server] has not returned. *)
Definition start_server (net : network) (turns : list turn) (self : RemoteServer)
  : status * RemoteServer * list event :=
  match (listen net ;;; accept net) self with
  | (inl e, self1, evs) =>
      match cleanup self1 with
      | (_, self2, evs2) =>
          (Returned, self2,
           (evs ++ LogError ("Server error: " ++ exn_msg e) :: evs2)%list)
      end
  | (inr _, self1, evs) =>
      match handle_client turns self1 with
      | (Waiting, self2, evs2) => (Waiting, self2, (evs ++ evs2)%list)
      | (Returned, self2, evs2) =>
          match cleanup self2 with
          | (_, self3, evs3) => (Returned, self3, (evs ++ evs2 ++ evs3)%list)
          end
      end
  end.

(** The script: [RemoteServer(host, port)] and then [start_server()], for
    the host and the port the arguments gave. *)
Definition main (h : string) (p : Z) (net : network) (turns : list turn)
  : status * RemoteServer * list event :=
  match init h p with
  | (_, server, evs) =>
      match start_server net turns server with
      | (st, server', evs') => (st, server', (evs ++ evs')%list)
      end
  end.

End WithFloat.

End Server.

(** *** [client.py]: [format_response] *)

Module Client.
Import PyStr Json.

Section WithFloat.
Context {PF : PyFloat} {PI : Interpreter}.

(** Python's [repr] of a decoded value that is not a string; the renderer
    needs it only when it prints such a value where a string is expected. *)
Variable repr : json -> string.

(** What the renderer writes to the terminal: a call to [print] with a
    string, or with the grid [tabulate] lays out from headers and rows. *)
Inductive output : Type :=
| Print (s : string)
| PrintTable (headers : list string) (rows : list (list json)).

(** What the model leaves to the interpreter that runs the client.
    [encoder_overflow] is the [RecursionError] with which
    [json.dumps(data, indent=2)] ends when a value of more than two levels
    nests deeper than the interpreter has room to encode. [beyond_alphabet]
    is what [format_response] prints after its first line, and the exception
    it lets through, on a response that names a character outside the
    alphabet of the model. *)
Class Host : Type := {
  encoder_overflow : json -> option exn;
  beyond_alphabet : string -> string -> list output * option exn
}.

Context {PH : Host}.

(** [json.dumps(data, indent=2)] in the client. *)
Definition encode (data : json) : exn + string :=
  if (nesting data <=? 2)%nat then inr (dumps data)
  else
    match encoder_overflow data with
    | Some e => inl e
    | None => inr (dumps data)
    end.

(** [type(v).__name__] *)
Definition type_name (v : json) : string :=
  match v with
  | JNull => "NoneType"
  | JBool _ => "bool"
  | JInt _ => "int"
  | JFloat _ => "float"
  | JStr _ => "str"
  | JArr _ => "list"
  | JObj _ => "dict"
  end.

(** [str(v)], as an f-string inserts a value. *)
Definition py_str (v : json) : string :=
  match v with
  | JStr s => s
  | _ => repr v
  end.

(** [for x in v] *)
Definition iterate (v : json) : exn + list json :=
  match v with
  | JArr l => inr l
  | JObj m => inr (map JStr (dict_keys m))
  | JStr s => inr (map (fun c => JStr (String c "")) (list_ascii_of_string s))
  | _ => inl (Exn TypeError ("'" ++ type_name v ++ "' object is not iterable"))
  end.

(** [v[k]] for a string [k] *)
Definition subscript (v : json) (k : string) : exn + json :=
  match v with
  | JObj m =>
      match dict_get m k with
      | Some x => inr x
      | None => inl (Exn KeyError ("'" ++ k ++ "'"))
      end
  | JArr _ => inl (Exn TypeError "list indices must be integers or slices, not str")
  | JStr _ => inl (Exn TypeError "string indices must be integers, not 'str'")
  | _ => inl (Exn TypeError ("'" ++ type_name v ++ "' object is not subscriptable"))
  end.

(** [v.get(k, d)] *)
Definition get_default (v : json) (k : string) (d : json) : exn + json :=
  match v with
  | JObj m =>
      match dict_get m k with
      | Some x => inr x
      | None => inr d
      end
  | _ =>
      inl (Exn OtherException ("'" ++ type_name v ++ "' object has no attribute 'get'"))
  end.

(** [f"{v:.1f}"]: numbers and booleans have the [f] format, the other values
    do not. An integer is converted to a float first. *)
Definition format_1f (v : json) : exn + string :=
  match v with
  | JInt z =>
      if fits_float z then inr (float_format 1 (float_of_Z z))
      else inl (Exn OverflowError "int too large to convert to float")
  | JFloat x => inr (float_format 1 x)
  | JBool b => inr (float_format 1 (float_of_Z (if b then 1 else 0)%Z))
  | JStr _ => inl (Exn ValueError "Unknown format code 'f' for object of type 'str'")
  | _ =>
      inl (Exn TypeError
               ("unsupported format string passed to " ++ type_name v ++ ".__format__"))
  end.

(** [[p['pid'], p['name'], f"{p.get('memory_percent', 0):.1f}%"]] *)
Definition process_row (p : json) : exn + list json :=
  match subscript p "pid" with
  | inl e => inl e
  | inr p_pid =>
      match subscript p "name" with
      | inl e => inl e
      | inr p_name =>
          match get_default p "memory_percent" (JInt 0) with
          | inl e => inl e
          | inr mp =>
              match format_1f mp with
              | inl e => inl e
              | inr txt => inr [p_pid; p_name; JStr (txt ++ "%")]
              end
          end
      end
  end.

(** A list comprehension: the results in order, or the first exception. *)
Fixpoint map_exn {A B} (f : A -> exn + B) (l : list A) : exn + list B :=
  match l with
  | [] => inr []
  | a :: r =>
      match f a with
      | inl e => inl e
      | inr b =>
          match map_exn f r with
          | inl e => inl e
          | inr bs => inr (b :: bs)
          end
      end
  end.

Definition process_rows (data : json) : exn + list (list json) :=
  match iterate data with
  | inl e => inl e
  | inr ps => map_exn process_row ps
  end.

Definition table_headers : list string := ["PID"; "Name"; "Memory %"].

Definition server_response_line : output :=
  Print (String newline "Server response:").

(** [format_response]: what was printed, and the exception that left the
    method, if one did. The method catches one exception,
    [json.JSONDecodeError], with which [json.loads] ends on a text that is
    not JSON. *)
Definition format_response (command response : string)
  : list output * option exn :=
  match loads response with
  | inl JSONDecodeError => ([server_response_line; Print response], None)
  | inl (TooDeep container) => ([server_response_line], Some (too_deep container))
  | inl Beyond =>
      match beyond_alphabet command response with
      | (printed, e) => (server_response_line :: printed, e)
      end
  | inr data =>
      if startswith command "processes" then
        match process_rows data with
        | inl e => ([server_response_line], Some e)
        | inr rows =>
            ([server_response_line; PrintTable table_headers rows], None)
        end
      else if startswith command "cpu" || startswith command "memory"
              || startswith command "netstat" || startswith command "diskspace"
      then
        match encode data with
        | inl e => ([server_response_line], Some e)
        | inr text => ([server_response_line; Print text], None)
        end
      else if startswith command "listdir" then
        match subscript data "path" with
        | inl e => ([server_response_line], Some e)
        | inr p =>
            let heading :=
              Print (String newline "Contents of " ++ py_str p ++ ":") in
            match subscript data "contents" with
            | inl e => ([server_response_line; heading], Some e)
            | inr c =>
                match iterate c with
                | inl e => ([server_response_line; heading], Some e)
                | inr items =>
                    (server_response_line :: heading
                       :: map (fun item => Print ("  " ++ py_str item)) items,
                     None)
                end
            end
        end
      else ([server_response_line; Print response], None)
  end.

End WithFloat.

End Client.

(** *** [client.py]: the command loop *)

Module ClientLoop.
Import PyStr Json Client.

(** The text [show_help] prints. *)
Definition help_text : string :=
"
Available Commands:
-----------------
System Information:
  sysinfo  - Get detailed system information
  cpu      - Get CPU usage and information
  memory   - Get memory usage statistics
  diskspace- Get disk space information

Process Management:
  processes- List top 10 processes by memory usage

Network:
  netstat  - Get network statistics
  time     - Get server time

File Operations:
  listdir [path] - List contents of allowed directories

Other:
  echo <message> - Echo a message
  exit          - Close connection
".

(** The prompt of [input]. *)
Definition prompt : string := String "010" "Enter command: ".

(** The attributes of a [RemoteClient] object. *)
Record RemoteClient : Set := {
  host : string;
  port : Z;
  socket : Server.sock
}.

(** What leaves a call that does not return: [KeyboardInterrupt], which is
    no [Exception], or an [Exception]. *)
Inductive raised : Set :=
| KeyboardInterrupt
| Error (e : exn).

(** What [input] gives: the line the user typed, or what it raises
    ([EOFError] when the input has ended). *)
Inductive input_result : Set :=
| Typed (line : string)
| InputRaises (r : raised).

(** What the connection does with a command: [send] raises, or the command
    is sent and [recv(4096).decode()] raises or gives a text, which is empty
    when the server has closed the connection. *)
Inductive exchange : Set :=
| SendRaises (r : raised)
| ReplyRaises (r : raised)
| Reply (response : string).

(** One pass through the loop as the outside world decides it. *)
Record step : Set := { user : input_result; server : exchange }.

(** What [connect] meets: the exception, if any, of [socket.socket] and of
    [socket.connect]. *)
Record connection : Set := {
  conn_socket : option exn;
  conn_connect : option exn
}.

Section WithFloat.
Context {PF : PyFloat} {PI : Interpreter} {PH : Host}.

Variable repr : json -> string.

(** What the client does to the outside world. *)
Inductive event : Type :=
| Printed (o : output)            (* print(...) *)
| Prompted (text : string)        (* input(text) wrote its prompt *)
| SentCommand (command : string)  (* self.socket.send(command.encode()) went through *)
| SocketClosed                    (* self.socket.close() *)
| LoggedInfo (msg : string)
| LoggedError (msg : string).

(** [connect]: whether it succeeded, the object afterwards, the log. *)
Definition connect (net : connection) (self : RemoteClient)
  : bool * RemoteClient * list event :=
  match conn_socket net with
  | Some e => (false, self, [LoggedError ("Connection failed: " ++ exn_msg e)])
  | None =>
      let self' := {| host := host self; port := port self;
                      socket := Server.SockOpen |} in
      match conn_connect net with
      | Some e => (false, self', [LoggedError ("Connection failed: " ++ exn_msg e)])
      | None =>
          (true, self',
           [LoggedInfo ("Connected to server at " ++ host self ++ ":"
                        ++ str_of_Z (port self))])
      end
  end.

(** [send_command]: the response, [None] after an exception that the method
    caught and logged; [inl] when something left the method. *)
Definition send_command (x : exchange) (command : string) (self : RemoteClient)
  : (raised + option string) * list event :=
  let caught (e : exn) := LoggedError ("Error sending command: " ++ exn_msg e) in
  match socket self with
  | Server.NoSocket =>
      (inr None,
       [caught (Exn OtherException "'NoneType' object has no attribute 'send'")])
  | Server.SockClosed => (inr None, [caught Server.bad_descriptor])
  | Server.SockOpen =>
      match x with
      | SendRaises KeyboardInterrupt => (inl KeyboardInterrupt, [])
      | SendRaises (Error e) => (inr None, [caught e])
      | ReplyRaises KeyboardInterrupt => (inl KeyboardInterrupt, [SentCommand command])
      | ReplyRaises (Error e) => (inr None, [SentCommand command; caught e])
      | Reply response => (inr (Some response), [SentCommand command])
      end
  end.

(** [show_help] *)
Definition show_help : list event := [Printed (Print help_text)].

(** [cleanup] *)
Definition cleanup (self : RemoteClient) : RemoteClient * list event :=
  match socket self with
  | Server.SockOpen =>
      ({| host := host self; port := port self; socket := Server.SockClosed |},
       [SocketClosed; LoggedInfo "Client cleaned up and shut down"])
  | _ => (self, [LoggedInfo "Client cleaned up and shut down"])
  end.

(** How one pass through the [while True] loop ends. *)
Inductive flow : Set :=
| Continue
| Break
| Leave (r : raised).

(** [if response: self.format_response(command, response)]: what is printed
    and the exception that [format_response] let through. *)
Definition show_response (command : string) (response : option string)
  : list output * option exn :=
  match response with
  | Some r => if (r =? "")%string then ([], None) else format_response repr command r
  | None => ([], None)
  end.

(** The body of the loop. *)
Definition loop_body (s : step) (self : RemoteClient) : flow * list event :=
  match user s with
  | InputRaises r => (Leave r, [Prompted prompt])
  | Typed line =>
      let command := strip line in
      if (command =? "")%string then (Continue, [Prompted prompt])
      else
        match send_command (server s) command self with
        | (inl r, evs) => (Leave r, Prompted prompt :: evs)
        | (inr response, evs) =>
            match show_response command response with
            | (printed, Some e) =>
                (Leave (Error e), (Prompted prompt :: evs ++ map Printed printed)%list)
            | (printed, None) =>
                (if (lower command =? "exit")%string then Break else Continue,
                 (Prompted prompt :: evs ++ map Printed printed)%list)
            end
        end
  end.

(** The loop, run against the steps the outside world provides: how it was
    left, [Continue] when the steps are used up and [input] is waiting. *)
Fixpoint loop (steps : list step) (self : RemoteClient) : flow * list event :=
  match steps with
  | [] => (Continue, [])
  | s :: r =>
      match loop_body s self with
      | (Continue, evs) =>
          match loop r self with
          | (how, evs') => (how, (evs ++ evs')%list)
          end
      | (how, evs) => (how, evs)
      end
  end.

(** Where [start_client] is when the steps given to it are used up. *)
Inductive outcome : Set :=
| Prompting            (* inside the loop, waiting in [input] *)
| Returned             (* the method returned *)
| Failed (e : exn).    (* an exception left the method *)

(** [start_client]: nothing is done when [connect] fails; otherwise the
    help, the loop, the [except KeyboardInterrupt] clause and [cleanup] in
    the [finally] clause. *)
Definition start_client (net : connection) (steps : list step) (self : RemoteClient)
  : outcome * RemoteClient * list event :=
  match connect net self with
  | (false, self1, evs) => (Returned, self1, evs)
  | (true, self1, evs) =>
      match loop steps self1 with
      | (Continue, evs2) => (Prompting, self1, (evs ++ show_help ++ evs2)%list)
      | (Break, evs2) =>
          match cleanup self1 with
          | (self2, evs3) => (Returned, self2, (evs ++ show_help ++ evs2 ++ evs3)%list)
          end
      | (Leave KeyboardInterrupt, evs2) =>
          match cleanup self1 with
          | (self2, evs3) =>
              (Returned, self2,
               (evs ++ show_help ++ evs2
                ++ Printed (Print (String "010" "Client shutting down...")) :: evs3)%list)
          end
      | (Leave (Error e), evs2) =>
          match cleanup self1 with
          | (self2, evs3) => (Failed e, self2, (evs ++ show_help ++ evs2 ++ evs3)%list)
          end
      end
  end.

End WithFloat.

End ClientLoop.

(** *** [build.py] *)

Module Build.
Import PyStr.

(** An entry of the working directory: its name, and what [shutil.rmtree]
    does when it is called on it. It removes the entry with all that is
    below it, or it raises and the entry stays: a file, a symbolic link, a
    tree that may not be removed. *)
Record entry : Set := {
  entry_name : string;
  entry_rmtree : option exn
}.

(** The working directory: its entries. *)
Definition directory : Set := list entry.

Definition named (name : string) (e : entry) : bool :=
  (entry_name e =? name)%string.

(** [os.path.exists(name)] *)
Definition path_exists (fs : directory) (name : string) : bool :=
  existsb (named name) fs.

(** [shutil.rmtree(name)] *)
Definition rmtree (fs : directory) (name : string) : (exn + unit) * directory :=
  match find (named name) fs with
  | Some e =>
      match entry_rmtree e with
      | Some x => (inl x, fs)
      | None => (inr tt, filter (fun e' => negb (named name e')) fs)
      end
  | None =>
      (inl (Exn OSError ("[Errno 2] No such file or directory: '" ++ name ++ "'")), fs)
  end.

(** The loop of [clean_directories]. *)
Fixpoint clean (dirs_to_clean : list string) (fs : directory)
  : (exn + unit) * directory :=
  match dirs_to_clean with
  | [] => (inr tt, fs)
  | dir_name :: r =>
      if path_exists fs dir_name then
        match rmtree fs dir_name with
        | (inr _, fs') => clean r fs'
        | (inl e, fs') => (inl e, fs')
        end
      else clean r fs
  end.

(** [clean_directories] *)
Definition clean_directories (fs : directory) : (exn + unit) * directory :=
  clean ["build"; "dist"] fs.

(** The platform, and what a shell command does: its exit status and the
    working directory it leaves. *)
Record Env : Set := {
  platform_system : string;
  os_system : string -> directory -> Z * directory
}.

(** What the script does beyond the working directory. *)
Inductive event : Set :=
| Ran (cmd : string) (status : Z)   (* os.system(cmd) returned status *)
| Printed (line : string).          (* print(line) *)

(** ['.exe' if platform.system() == 'Windows' else ''] *)
Definition ext (env : Env) : string :=
  if (platform_system env =? "Windows")%string then ".exe" else "".

(** The list [commands] of [build_executables]. *)
Definition commands (env : Env) : list string :=
  ["pyinstaller --onefile --name remote_server" ++ ext env ++ " server.py";
   "pyinstaller --onefile --name remote_client" ++ ext env ++ " client.py"].

(** [for cmd in commands: os.system(cmd)]; the exit status is dropped. *)
Fixpoint run (env : Env) (cmds : list string) (fs : directory)
  : directory * list event :=
  match cmds with
  | [] => (fs, [])
  | cmd :: r =>
      match os_system env cmd fs with
      | (status, fs') =>
          match run env r fs' with
          | (fs'', evs) => (fs'', Ran cmd status :: evs)
          end
      end
  end.

(** [build_executables] *)
Definition build_executables (env : Env) (fs : directory)
  : (exn + unit) * directory * list event :=
  match clean_directories fs with
  | (inl e, fs') => (inl e, fs', [])
  | (inr _, fs') =>
      match run env (commands env) fs' with
      | (fs'', evs) =>
          (inr tt, fs'',
           (evs ++ [Printed (String "010" "Build completed!");
                    Printed (String "010"
                               "Executables can be found in the 'dist' directory:");
                    Printed ("- remote_server" ++ ext env);
                    Printed ("- remote_client" ++ ext env)])%list)
      end
  end.

End Build.

(** *** Vocabulary of the statements *)

Module Vocabulary.
Import PyStr PosixPath Json Server Client.

(** Whether every character of a string is white space. *)
Fixpoint all_space (s : string) : bool :=
  match s with
  | EmptyString => true
  | String c r => is_space c && all_space r
  end.

(** Whether a path component has no separator in it. *)
Fixpoint no_slash (s : string) : bool :=
  match s with
  | EmptyString => true
  | String c r => negb (Ascii.eqb c "/") && no_slash r
  end.

(** A component as [normpath] leaves them in an absolute path: not empty,
    not [.], not [..], and without a separator. *)
Definition clean_comp (c : string) : bool :=
  no_slash c && negb (c =? "")%string && negb (c =? ".")%string
  && negb (c =? "..")%string.

(** The test the specification words for the directory guard, on canonical
    paths: [p] is [root] itself or lies below it. The test of the code is
    [startswith p root]. *)
Definition spec_within (root p : string) : bool :=
  (p =? root)%string || startswith p (root ++ "/").

(** What [cleanup] leaves: the sockets that were open are closed. *)
Definition closed_sock (s : sock) : sock :=
  match s with
  | NoSocket => NoSocket
  | _ => SockClosed
  end.

Definition close_events (s : sock) (ev : event) : list event :=
  match s with
  | SockOpen => [ev]
  | _ => []
  end.

(** The server object a method leaves behind, and the events of a run. *)
Definition state_after {A} (r : A * RemoteServer * list event) : RemoteServer :=
  snd (fst r).

Definition events_of {A} (r : A * RemoteServer * list event) : list event :=
  snd r.

(** A method that leaves the allow-list as it found it. *)
Definition keeps_allowed_dirs {A} (m : M A) : Prop :=
  forall self, allowed_dirs (state_after (m self)) = allowed_dirs self.



(** A call that returns. *)
Definition succeeds {A} (r : exn + A) : Prop := exists a, r = inr a.

(** The line that [handle_client] logs for an exception it catches. *)
Definition session_log (e : exn) : string :=
  match exn_class e with
  | ConnectionResetError => "Client disconnected unexpectedly"
  | _ => "Error handling client: " ++ exn_msg e
  end.

(** Descending order of the keys of decorated items. *)
Definition key_ge {A} (a b : Q * A) : Prop := (fst b <= fst a)%Q.

Section WithFloat.
Context {PF : PyFloat}.

(** A text that cannot continue a number: the empty text, or one whose
    first character is no part of a number. *)
Definition number_end (rest : string) : bool :=
  match rest with
  | EmptyString => true
  | String c _ =>
      negb (is_digit c || Ascii.eqb c "." || Ascii.eqb c "e" || Ascii.eqb c "E"
            || Ascii.eqb c "+" || Ascii.eqb c "-")
  end.

(** A float that is written as a number with a fraction or an exponent and
    read back as itself: what [repr] and [float] do for a finite float. *)
Definition float_ok (x : float) : Prop :=
  scan_number (float_repr x) = Some (float_repr x, true, "")
  /\ float_of_literal (float_repr x) = x.

(** A value [json.dumps] and [json.loads] carry back and forth: its floats
    are finite and no dictionary has a key twice. *)
Fixpoint wf_json (j : json) : Prop :=
  match j with
  | JFloat x => float_ok x
  | JArr l => fold_right (fun x P => wf_json x /\ P) True l
  | JObj m =>
      NoDup (map fst m)
      /\ fold_right (fun kv P => wf_json (snd kv) /\ P) True m
  | _ => True
  end.

(** The floats of [psutil.cpu_freq()], when there are any. *)
Definition freq_ok (o : option scpufreq) : Prop :=
  match o with
  | Some f => float_ok (freq_current f) /\ float_ok (freq_min f) /\ float_ok (freq_max f)
  | None => True
  end.

(** The ranking [sorted] computes, on the dictionaries themselves. *)
Definition ranked (infos : list proc_info) : list proc_info :=
  map snd (sorted_desc (map (fun i => (sort_key i, i)) infos)).

(** The process object with the dictionary [i] as its [info]. *)
Definition readable (i : proc_info) : Process := {| info := i |}.

(** [b] does not rank above [a]: the order of the response to
    [processes]. *)
Definition ranks_before (a b : proc_info) : Prop :=
  (sort_key b <= sort_key a)%Q.

(** The entries of a list whose sort key is [k]. *)
Definition with_key (k : Q) (l : list proc_info) : list proc_info :=
  filter (fun i => Qeq_bool (sort_key i) k) l.


End WithFloat.

End Vocabulary.

(** *** Vocabulary of the runs *)

Module Runs.
Import PyStr Json Server.

(** The texts sent to the peer in a run, in order. *)
Fixpoint sent (evs : list event) : list string :=
  match evs with
  | [] => []
  | Sent data :: r => data :: sent r
  | _ :: r => sent r
  end.

(** A socket attribute is as it was, or was open and is closed. *)
Definition sock_aged (before after : sock) : Prop :=
  after = before \/ (before = SockOpen /\ after = SockClosed).

(** The server object is as it was, but for sockets that were closed. *)
Definition only_closes (self self' : RemoteServer) : Prop :=
  host self' = host self /\ port self' = port self /\ addr self' = addr self
  /\ allowed_dirs self' = allowed_dirs self
  /\ sock_aged (socket self) (socket self')
  /\ sock_aged (client self) (client self').

(** The first exception of the start-up, if there is one. *)
Definition setup_failure (net : network) : option exn :=
  match net_socket net with
  | Some e => Some e
  | None =>
      match net_setsockopt net with
      | Some e => Some e
      | None =>
          match net_bind net with
          | Some e => Some e
          | None =>
              match net_listen net with
              | Some e => Some e
              | None =>
                  match net_accept net with
                  | inl e => Some e
                  | inr _ => None
                  end
              end
          end
      end
  end.

(** Whether the listening socket was set up, so that its line is in the
    log. *)
Definition listening (net : network) : bool :=
  match net_socket net, net_setsockopt net, net_bind net, net_listen net with
  | None, None, None, None => true
  | _, _, _, _ => false
  end.

Section WithFloat.
Context {PF : PyFloat}.

(** A turn in which a command other than [exit] arrives, its handler
    returns [response], and the response can be sent. *)
Definition answered (self : RemoteServer) (t : turn) (response : string) : Prop :=
  exists data,
    turn_recv t = RecvData data /\ data <> "" /\ keyword data <> "exit"
    /\ turn_send_error t = None
    /\ fst (fst (process_command (turn_env t) data self)) = inr response.

End WithFloat.

End Runs.

(** *** Vocabulary of the screen *)

Module Rendering.
Import PyStr Json Server Client.

Section WithFloat.
Context {PF : PyFloat}.

(** The row of the client's table for an entry of the process list, when
    the memory percent of the entry was read. *)
Definition table_row (i : proc_info) : option (list json) :=
  match memory_percent i with
  | Some x =>
      Some [JInt (pid i); json_of_option JStr (name i);
            JStr (float_format 1 x ++ "%")]
  | None => None
  end.

(** The structured content of the response to [listdir]. *)
Definition listing (path : string) (items : list string) : json :=
  JObj [("path", JStr path); ("contents", JArr (map JStr items))].

End WithFloat.

End Rendering.

(** *** Vocabulary of the runs of the client *)

Module ClientRuns.
Import PyStr Json Client ClientLoop.

Section WithFloat.
Context {PF : PyFloat}.

(** The commands sent to the server in a run of the client, in order. *)
Fixpoint commands_sent (evs : list event) : list string :=
  match evs with
  | [] => []
  | SentCommand c :: r => c :: commands_sent r
  | _ :: r => commands_sent r
  end.

(** What a run of the client printed, in order. *)
Fixpoint printed (evs : list event) : list output :=
  match evs with
  | [] => []
  | Printed o :: r => o :: printed r
  | _ :: r => printed r
  end.

(** A step at which the server is gone for the client: the user types a
    command that is not [exit], and the exchange fails or gives the empty
    text of a closed connection. *)
Definition unanswered (s : step) : Prop :=
  exists line,
    user s = Typed line
    /\ lower (strip line) <> "exit"
    /\ (server s = Reply ""
        \/ (exists e, server s = SendRaises (Error e))
        \/ (exists e, server s = ReplyRaises (Error e))).

End WithFloat.

End ClientRuns.

(** *** Sample floats and sample environments *)

Module Samples.
Import PyStr PosixPath Json Server Client Vocabulary.

(** A float that carries its value and its text. *)
Record dfloat : Set := { dval : Q; dtext : string }.

(** [10 ^ k] for an integer [k] of either sign. *)
Definition pow10 (k : Z) : Q :=
  if (k <? 0)%Z then (1 # Pos.pow 10 (Z.to_pos (- k)))%Q
  else inject_Z (10 ^ k).

(** The value of a decimal literal. *)
Definition Q_of_literal (s : string) : Q :=
  let (neg, s1) :=
    match s with
    | String "-" r => (true, r)
    | _ => (false, s)
    end in
  let (ip, r1) := scan_digits s1 in
  let (fp, r2) :=
    match r1 with
    | String "." r => scan_digits r
    | _ => (EmptyString, r1)
    end in
  let e :=
    match r2 with
    | String _ (String "+" r) => Z_of_literal r
    | String _ r => Z_of_literal r
    | EmptyString => 0%Z
    end in
  let m := Z_of_literal (ip ++ fp) in
  let v := (inject_Z m * pow10 (e - Z.of_nat (String.length fp)))%Q in
  Qred (if neg then - v else v)%Q.

(** A number with [n] decimals, the last one rounded half to even. *)
Definition format_fixed (n : nat) (q : Q) : string :=
  let scale := (10 ^ Z.of_nat n)%Z in
  let num := (Qnum q * scale)%Z in
  let den := Z.pos (Qden q) in
  let fl := (num / den)%Z in
  let rem := (num mod den)%Z in
  let r :=
    if (2 * rem <? den)%Z then fl
    else if (den <? 2 * rem)%Z then (fl + 1)%Z
    else if Z.even fl then fl else (fl + 1)%Z in
  let a := Z.abs r in
  let frac := str_of_Z (a mod scale) in
  (if (r <? 0)%Z then "-" else "")
  ++ str_of_Z (a / scale)
  ++ match n with
     | O => ""
     | _ => "." ++ repeat_char "0" (n - String.length frac) ++ frac
     end.

#[export] Instance decimal_float : PyFloat := {|
  float := dfloat;
  float_repr := dtext;
  float_of_literal := fun s => {| dval := Q_of_literal s; dtext := s |};
  float_of_Z := fun z => {| dval := inject_Z z; dtext := str_of_Z z ++ ".0" |};
  float_div := fun n d =>
    let q := Qred (inject_Z n / inject_Z d)%Q in
    {| dval := q; dtext := format_fixed 6 q |};
  float_format := fun n x => format_fixed n (dval x);
  float_value := dval
|}.

(** The float a literal denotes. *)
Definition flt (s : string) : float := float_of_literal s.

(** An interpreter in which [json.loads] can open a thousand containers one
    inside the other. *)
#[export] Instance sample_interpreter : Interpreter := {|
  decoder_room := 998;
  recursion_message := "maximum recursion depth exceeded"
|}.

(** The stand-in for [repr] on decoded values. *)
Definition sample_repr (j : json) : string := dumps j.

(** The encoder of the sample host has room for 990 containers. *)
Definition sample_overflow (data : json) : option exn :=
  if (nesting data <=? 990)%nat then None
  else Some (Exn RecursionError "maximum recursion depth exceeded").

#[export] Instance sample_host : Host := {|
  encoder_overflow := sample_overflow;
  beyond_alphabet := fun _ _ => ([], None)
|}.

Definition no_such_directory : exn :=
  Exn OSError "[Errno 2] No such file or directory".

(** A host whose server runs in [/srv]: the two allowed directories, and a
    directory [/srv/shared_private] next to them. *)
Definition sample_listdir (path : string) : exn + list string :=
  if (path =? "/srv/shared")%string then inr ["readme.txt"; "data"]
  else if (path =? "/srv/downloads")%string then inr []
  else if (path =? "/srv/shared_private")%string then inr ["passwords.txt"]
  else if (path =? "/srv")%string then inr ["shared"; "downloads"; "shared_private"]
  else inl no_such_directory.

Definition sample_usage (mountpoint : string) : exn + sdiskusage :=
  if (mountpoint =? "/")%string then
    inr {| du_total := 64424509440; du_used := 21474836480;
           du_free := 42949672960; du_percent := flt "33.3" |}
  else inl (Exn OSError "[Errno 13] Permission denied").

(** A process whose name and memory percent [psutil] was denied. *)
Definition unread_process : proc_info :=
  {| pid := 4; name := None; memory_percent := None |}.

Definition sample_infos : list proc_info :=
  [ {| pid := 1; name := Some "init"; memory_percent := Some (flt "0.1") |};
    {| pid := 812; name := Some "postgres"; memory_percent := Some (flt "7.25") |};
    {| pid := 77; name := Some "python3"; memory_percent := Some (flt "7.25") |};
    unread_process;
    {| pid := 300; name := Some "nginx"; memory_percent := Some (flt "1.5") |} ].

Definition sample_processes : list Process := map readable sample_infos.

(** A busy host: twelve processes, three of equal memory percent, and
    after the one that was not read two that use no memory. *)
Definition busy_infos : list proc_info :=
  [ {| pid := 1; name := Some "init"; memory_percent := Some (flt "0.1") |};
    unread_process;
    {| pid := 812; name := Some "postgres"; memory_percent := Some (flt "7.25") |};
    {| pid := 77; name := Some "python3"; memory_percent := Some (flt "7.25") |};
    {| pid := 2; name := Some "kthreadd"; memory_percent := Some (flt "0.0") |};
    {| pid := 300; name := Some "nginx"; memory_percent := Some (flt "1.5") |};
    {| pid := 301; name := Some "nginx"; memory_percent := Some (flt "1.25") |};
    {| pid := 9; name := Some "kworker"; memory_percent := Some (flt "0.0") |};
    {| pid := 950; name := Some "redis"; memory_percent := Some (flt "7.25") |};
    {| pid := 410; name := Some "sshd"; memory_percent := Some (flt "0.5") |};
    {| pid := 1200; name := Some "java"; memory_percent := Some (flt "22.0") |};
    {| pid := 640; name := Some "cron"; memory_percent := Some (flt "0.25") |} ].

Definition sample_env : Env := {|
  cwd := "/srv";
  os_listdir := sample_listdir;
  platform_system := "Linux";
  platform_version := "#1 SMP";
  platform_machine := "x86_64";
  platform_processor := "x86_64";
  strftime_now := "2024-05-01 12:00:00";
  cpu_percent := inr [flt "12.5"; flt "3.0"];
  cpu_freq := inr (Some {| freq_current := flt "2400.0"; freq_min := flt "800.0";
                           freq_max := flt "3600.0" |});
  cpu_count_physical := inr (Some 2%Z);
  cpu_count_logical := inr (Some 4%Z);
  virtual_memory := inr {| vm_total := 17179869184; vm_available := 8589934592;
                           vm_percent := flt "50.0" |};
  swap_memory := inr {| sw_total := 2147483648; sw_used := 0 |};
  process_iter := inr sample_processes;
  info_order := NamePercentPid;
  net_io_counters := inr (Some {| bytes_sent := 1048576; bytes_recv := 5242880;
                                  packets_sent := 100; packets_recv := 250 |});
  disk_partitions := inr ["/"; "/mnt/cdrom"];
  disk_usage := sample_usage
|}.

(** The same host at a moment when [psutil.cpu_percent] is refused. *)
Definition denied_env : Env := {|
  cwd := cwd sample_env;
  os_listdir := os_listdir sample_env;
  platform_system := platform_system sample_env;
  platform_version := platform_version sample_env;
  platform_machine := platform_machine sample_env;
  platform_processor := platform_processor sample_env;
  strftime_now := strftime_now sample_env;
  cpu_percent := inl (Exn AccessDenied "psutil.AccessDenied");
  cpu_freq := cpu_freq sample_env;
  cpu_count_physical := cpu_count_physical sample_env;
  cpu_count_logical := cpu_count_logical sample_env;
  virtual_memory := virtual_memory sample_env;
  swap_memory := swap_memory sample_env;
  process_iter := process_iter sample_env;
  info_order := info_order sample_env;
  net_io_counters := net_io_counters sample_env;
  disk_partitions := disk_partitions sample_env;
  disk_usage := disk_usage sample_env
|}.

(** A server object with a connected client. *)
Definition connected : RemoteServer := {|
  host := "127.0.0.1"; port := 65432;
  socket := SockOpen; client := SockOpen;
  addr := Some "('127.0.0.1', 50514)";
  allowed_dirs := ["./shared"; "./downloads"]
|}.

(** A turn in which the peer sends [data] and the reply can be sent. *)
Definition says (env : Env) (data : string) : turn :=
  {| turn_env := env; turn_recv := RecvData data; turn_send_error := None |}.

End Samples.

(** *** Sample runs *)

Module Scenarios.
Import PyStr PosixPath Json Server Client Vocabulary Samples.

(** An environment with another file system. *)
Definition with_listdir (env : Env) (listdir : string -> exn + list string) : Env := {|
  cwd := cwd env;
  os_listdir := listdir;
  platform_system := platform_system env;
  platform_version := platform_version env;
  platform_machine := platform_machine env;
  platform_processor := platform_processor env;
  strftime_now := strftime_now env;
  cpu_percent := cpu_percent env;
  cpu_freq := cpu_freq env;
  cpu_count_physical := cpu_count_physical env;
  cpu_count_logical := cpu_count_logical env;
  virtual_memory := virtual_memory env;
  swap_memory := swap_memory env;
  process_iter := process_iter env;
  info_order := info_order env;
  net_io_counters := net_io_counters env;
  disk_partitions := disk_partitions env;
  disk_usage := disk_usage env
|}.

(** An environment with other processes. *)
Definition with_processes (env : Env) (procs : exn + list Process) : Env := {|
  cwd := cwd env;
  os_listdir := os_listdir env;
  platform_system := platform_system env;
  platform_version := platform_version env;
  platform_machine := platform_machine env;
  platform_processor := platform_processor env;
  strftime_now := strftime_now env;
  cpu_percent := cpu_percent env;
  cpu_freq := cpu_freq env;
  cpu_count_physical := cpu_count_physical env;
  cpu_count_logical := cpu_count_logical env;
  virtual_memory := virtual_memory env;
  swap_memory := swap_memory env;
  process_iter := procs;
  info_order := info_order env;
  net_io_counters := net_io_counters env;
  disk_partitions := disk_partitions env;
  disk_usage := disk_usage env
|}.

(** The sample host when it is busy. *)
Definition busy_env : Env := with_processes sample_env (inr (map readable busy_infos)).


(** The sample host with nothing on its disk. *)
Definition bare_env : Env := with_listdir sample_env (fun _ => inl no_such_directory).

(** Processes whose attributes were all read. *)
Definition read_infos : list proc_info :=
  [ {| pid := 1; name := Some "init"; memory_percent := Some (flt "0.1") |};
    {| pid := 812; name := Some "postgres"; memory_percent := Some (flt "7.25") |};
    {| pid := 300; name := Some "nginx"; memory_percent := Some (flt "1.5") |} ].

Definition read_env : Env := with_processes sample_env (inr (map readable read_infos)).

(** A network on which the server starts and a peer connects. *)
Definition sample_network : network := {|
  net_socket := None; net_setsockopt := None; net_bind := None; net_listen := None;
  net_accept := inr "('127.0.0.1', 50514)"
|}.

(** A network on which the port is taken. *)
Definition busy_network : network := {|
  net_socket := None; net_setsockopt := None;
  net_bind := Some (Exn OSError "[Errno 98] Address already in use");
  net_listen := None;
  net_accept := inr "('127.0.0.1', 50514)"
|}.

(** A server object as [__init__] leaves it. *)
Definition new_server : RemoteServer := {|
  host := "127.0.0.1"; port := 65432; socket := NoSocket; client := NoSocket;
  addr := None; allowed_dirs := ["./shared"; "./downloads"]
|}.

(** A turn in which the peer has closed the connection, and one in which
    the connection is reset. *)
Definition peer_closed : turn :=
  {| turn_env := sample_env; turn_recv := RecvData ""; turn_send_error := None |}.

Definition peer_reset : turn :=
  {| turn_env := sample_env;
     turn_recv := RecvRaises (Exn ConnectionResetError
                                  "[Errno 104] Connection reset by peer");
     turn_send_error := None |}.

(** A turn in which the response cannot be sent. *)
Definition pipe_broken (data : string) : turn :=
  {| turn_env := sample_env; turn_recv := RecvData data;
     turn_send_error := Some (Exn OSError "[Errno 32] Broken pipe") |}.

(** A client object as [__init__] leaves it, a server that can be reached
    and one that refuses the connection. *)
Definition new_client : ClientLoop.RemoteClient :=
  {| ClientLoop.host := "127.0.0.1"; ClientLoop.port := 65432;
     ClientLoop.socket := NoSocket |}.

Definition reachable : ClientLoop.connection :=
  {| ClientLoop.conn_socket := None; ClientLoop.conn_connect := None |}.

Definition refusing : ClientLoop.connection :=
  {| ClientLoop.conn_socket := None;
     ClientLoop.conn_connect := Some (Exn OSError "[Errno 111] Connection refused") |}.

(** The end of the input. *)
Definition end_of_input : exn := Exn OtherException "EOF when reading a line".

(** A working directory with an old build, and one in which [dist] is a
    file. *)
Definition old_build : Build.directory :=
  [ {| Build.entry_name := "server.py"; Build.entry_rmtree := Some (Exn OSError "[Errno 20] Not a directory: 'server.py'") |};
    {| Build.entry_name := "build"; Build.entry_rmtree := None |};
    {| Build.entry_name := "client.py"; Build.entry_rmtree := Some (Exn OSError "[Errno 20] Not a directory: 'client.py'") |};
    {| Build.entry_name := "dist"; Build.entry_rmtree := None |} ].

Definition dist_is_file : Build.directory :=
  [ {| Build.entry_name := "build"; Build.entry_rmtree := None |};
    {| Build.entry_name := "dist";
       Build.entry_rmtree := Some (Exn OSError "[Errno 20] Not a directory: 'dist'") |} ].

(** A platform on which [pyinstaller] is not installed: the shell returns
    127 and leaves the directory as it is. *)
Definition no_pyinstaller : Build.Env :=
  {| Build.platform_system := "Linux";
     Build.os_system := fun _ fs => (127%Z, fs) |}.

End Scenarios.

(** ** Part II. Properties *)

Import PyStr PosixPath Json Server Client Samples Vocabulary.

(** *** Strings *)

Lemma append_nil_r (s : string) : s ++ "" = s.
Proof. induction s as [|c s IH]; simpl; congruence. Qed.

Lemma append_assoc (a b c : string) : (a ++ b) ++ c = a ++ (b ++ c).
Proof. induction a as [|x a IH]; simpl; congruence. Qed.

Lemma length_append (a b : string) :
  String.length (a ++ b) = String.length a + String.length b.
Proof. induction a as [|x a IH]; simpl; congruence. Qed.

Lemma lstrip_all_space (s : string) : all_space s = true -> lstrip s = "".
Proof.
  induction s as [|c s IH]; simpl; [reflexivity|].
  intros H. apply andb_prop in H as [Hc Hs]. rewrite Hc. auto.
Qed.

Lemma strip_all_space (s : string) : all_space s = true -> strip s = "".
Proof. intros H. unfold strip. rewrite lstrip_all_space by assumption. reflexivity. Qed.

(** Lower-casing neither makes nor unmakes white space. *)
Lemma is_space_lower_char (c : ascii) : is_space (lower_char c) = is_space c.
Proof.
  destruct c as [b0 b1 b2 b3 b4 b5 b6 b7].
  destruct b0, b1, b2, b3, b4, b5, b6, b7; reflexivity.
Qed.

Lemma lower_lstrip (s : string) : lower (lstrip s) = lstrip (lower s).
Proof.
  induction s as [|c s IH]; simpl; [reflexivity|].
  rewrite is_space_lower_char. destruct (is_space c); simpl; congruence.
Qed.

Lemma lower_rstrip (s : string) : lower (rstrip s) = rstrip (lower s).
Proof.
  induction s as [|c s IH]; simpl; [reflexivity|].
  rewrite <- IH, is_space_lower_char.
  destruct (rstrip s); simpl; [destruct (is_space c)|]; reflexivity.
Qed.

Lemma lower_strip (s : string) : lower (strip s) = strip (lower s).
Proof. unfold strip. rewrite lower_rstrip, lower_lstrip. reflexivity. Qed.

(** *** Dispatch *)

Section Dispatch.
Context {PF : PyFloat}.

(** [process_command] looks the keyword up and hands the argument over. *)
Lemma process_command_eq (env : Env) (command : string) :
  process_command env command =
  match lookup commands (keyword command) with
  | Some handler => handler env (argument command)
  | None => ret invalid_command
  end.
Proof. reflexivity. Qed.

(** The keys of the dictionary [commands]. *)
Lemma commands_keys :
  map fst (commands (PF := PF)) =
  ["sysinfo"; "time"; "echo"; "exit"; "cpu"; "memory"; "processes";
   "netstat"; "listdir"; "diskspace"].
Proof. reflexivity. Qed.

Lemma lookup_None {A} (table : list (string * A)) (k : string) :
  ~ In k (map fst table) -> lookup table k = None.
Proof.
  induction table as [|[k' a] r IH]; simpl; [reflexivity|].
  intros H. destruct (String.eqb_spec k' k) as [->|_].
  - exfalso. apply H. now left.
  - apply IH. intros Hin. apply H. now right.
Qed.

Lemma unknown_keyword_response (env : Env) (command : string) (self : RemoteServer) :
  ~ In (keyword command) (map fst (commands (PF := PF))) ->
  process_command env command self = (inr invalid_command, self, []).
Proof.
  intros H. rewrite process_command_eq, (lookup_None _ _ H). reflexivity.
Qed.

(** A line of white space has the empty keyword. *)
Lemma keyword_all_space (data : string) : all_space data = true -> keyword data = "".
Proof.
  intros H. unfold keyword. rewrite (strip_all_space _ H). reflexivity.
Qed.

(** One turn of the loop, the client being connected and the peer having
    sent a text that is not empty. *)
Lemma loop_body_received (t : turn) (self : RemoteServer) (data : string) :
  client self = SockOpen ->
  turn_recv t = RecvData data ->
  data <> "" ->
  loop_try t self =
  match process_command (turn_env t) data self with
  | (inl e, self', evs) => (inl e, self', evs)
  | (inr response, self', evs) =>
      match send t response self' with
      | (inl e, self'', evs') => (inl e, self'', (evs ++ evs')%list)
      | (inr _, self'', evs') => (inr Continue, self'', (evs ++ evs')%list)
      end
  end.
Proof.
  intros Hc Hr Hd. unfold loop_try, recv, bind, get_self at 1.
  rewrite Hc, Hr. cbn [ret].
  destruct (String.eqb_spec data "") as [->|_]; [congruence|].
  cbn [app].
  destruct (process_command (turn_env t) data self) as [[[e|response] self'] evs];
    [reflexivity|].
  destruct (send t response self') as [[[e|[]] self''] evs']; cbn.
  - reflexivity.
  - rewrite app_nil_r. reflexivity.
Qed.

(** A response that the handler returns without touching the sockets is
    sent, and the loop goes on. *)
Lemma loop_body_answers (t : turn) (self : RemoteServer) (data response : string) :
  client self = SockOpen ->
  turn_recv t = RecvData data ->
  data <> "" ->
  turn_send_error t = None ->
  process_command (turn_env t) data self = (inr response, self, []) ->
  loop_body t self = (Continue, self, [Sent response]).
Proof.
  intros Hc Hr Hd Hs Hp. unfold loop_body.
  rewrite (loop_body_received t self data Hc Hr Hd), Hp.
  unfold send, bind, get_self. rewrite Hc, Hs. reflexivity.
Qed.

(** An exception that leaves [process_command] ends the loop; nothing is
    sent in that turn. *)
Lemma loop_body_handler_raises (t : turn) (self self' : RemoteServer)
      (data : string) (e : exn) (evs : list event) :
  client self = SockOpen ->
  turn_recv t = RecvData data ->
  data <> "" ->
  process_command (turn_env t) data self = (inl e, self', evs) ->
  exists msg, loop_body t self = (Break, self', (evs ++ [LogError msg])%list).
Proof.
  intros Hc Hr Hd Hp. unfold loop_body.
  rewrite (loop_body_received t self data Hc Hr Hd), Hp.
  destruct (exn_class e); eexists; reflexivity.
Qed.

End Dispatch.

(** *** The session and the commands [echo], [exit] and the unknown ones *)

Section Session.
Context {PF : PyFloat}.

Lemma handle_client_continue (t : turn) (rest : list turn) (self self' : RemoteServer)
      (evs : list event) :
  loop_body t self = (Continue, self', evs) ->
  handle_client (t :: rest) self =
  (let '(st, self'', evs') := handle_client rest self' in
   (st, self'', (evs ++ evs')%list)).
Proof. intros H. cbn [handle_client]. rewrite H. reflexivity. Qed.

Lemma handle_client_break (t : turn) (rest : list turn) (self self' : RemoteServer)
      (evs : list event) :
  loop_body t self = (Break, self', evs) ->
  handle_client (t :: rest) self = (Returned, self', evs).
Proof. intros H. cbn [handle_client]. rewrite H. reflexivity. Qed.

(** C7. A received line whose keyword is none of the ten registered ones is
    answered with the fixed invalid-command message: [process_command]
    returns it and raises nothing, the message is sent to the peer, the
    server object is unchanged, and the loop goes on to the next turn. *)
Theorem unknown_keyword_invalid_command
        (t : turn) (rest : list turn) (self : RemoteServer) (data : string) :
  client self = SockOpen ->
  turn_recv t = RecvData data ->
  data <> "" ->
  turn_send_error t = None ->
  ~ In (keyword data)
       ["sysinfo"; "time"; "echo"; "exit"; "cpu"; "memory"; "processes";
        "netstat"; "listdir"; "diskspace"] ->
  process_command (turn_env t) data self
  = (inr "Invalid command. Use 'help' to see available commands.", self, [])
  /\ loop_body t self = (Continue, self, [Sent invalid_command])
  /\ handle_client (t :: rest) self =
     (let '(st, self', evs) := handle_client rest self in
      (st, self', Sent invalid_command :: evs)).
Proof.
  intros Hc Hr Hd Hs Hk.
  assert (Hp : process_command (turn_env t) data self = (inr invalid_command, self, []))
    by (apply unknown_keyword_response; rewrite commands_keys; exact Hk).
  assert (Hb := loop_body_answers t self data _ Hc Hr Hd Hs Hp).
  split; [exact Hp|]. split; [exact Hb|].
  rewrite (handle_client_continue _ rest _ _ _ Hb). reflexivity.
Qed.

(** C10. A received line that is not empty and holds only white space (or,
    more generally, whose keyword is empty) is dispatched with the empty
    keyword; the empty keyword is not registered, so the reply is the
    invalid-command message, nothing is raised, and the loop goes on. *)
Theorem blank_line_invalid_command
        (t : turn) (rest : list turn) (self : RemoteServer) (data : string) :
  client self = SockOpen ->
  turn_recv t = RecvData data ->
  data <> "" ->
  turn_send_error t = None ->
  all_space data = true \/ keyword data = "" ->
  keyword data = ""
  /\ lookup (commands (PF := PF)) "" = None
  /\ process_command (turn_env t) data self = (inr invalid_command, self, [])
  /\ loop_body t self = (Continue, self, [Sent invalid_command])
  /\ handle_client (t :: rest) self =
     (let '(st, self', evs) := handle_client rest self in
      (st, self', Sent invalid_command :: evs)).
Proof.
  intros Hc Hr Hd Hs Hk.
  assert (Hkw : keyword data = "")
    by (destruct Hk as [Hk|Hk]; [apply keyword_all_space|]; exact Hk).
  assert (Hp : process_command (turn_env t) data self = (inr invalid_command, self, []))
    by (rewrite process_command_eq, Hkw; reflexivity).
  assert (Hb := loop_body_answers t self data _ Hc Hr Hd Hs Hp).
  repeat split; try assumption; try reflexivity.
  rewrite (handle_client_continue _ rest _ _ _ Hb). reflexivity.
Qed.

Lemma cleanup_eq (self : RemoteServer) :
  cleanup self =
  (inr tt,
   {| host := host self; port := port self; socket := closed_sock (socket self);
      client := closed_sock (client self); addr := addr self;
      allowed_dirs := allowed_dirs self |},
   (close_events (client self) ClientClosed
    ++ close_events (socket self) ListenerClosed
    ++ [LogInfo "Server cleaned up and shut down"])%list).
Proof.
  destruct self as [h p s c a dirs]. destruct s, c; reflexivity.
Qed.

Lemma keyword_nonempty (data k : string) : keyword data = k -> k <> "" -> data <> "".
Proof. intros <- Hk ->. apply Hk. reflexivity. Qed.

(** C2, what the code does. On [exit] the handler closes the connection
    socket (and the listening socket) before it returns the
    acknowledgment; the [send] that follows meets a closed socket and
    raises, the loop ends whatever the peer would send next, and no event of
    the turn is a [Sent]: the acknowledgment never reaches the peer. *)
Theorem exit_closes_before_acknowledging
        (t : turn) (rest : list turn) (self : RemoteServer) (data : string) :
  client self = SockOpen ->
  turn_recv t = RecvData data ->
  keyword data = "exit" ->
  exists self',
    process_command (turn_env t) data self
    = (inr "Server shutting down...", self',
       (ClientClosed :: close_events (socket self) ListenerClosed
        ++ [LogInfo "Server cleaned up and shut down"])%list)
    /\ client self' = SockClosed
    /\ loop_body t self =
       (Break, self',
        (ClientClosed :: close_events (socket self) ListenerClosed
         ++ [LogInfo "Server cleaned up and shut down";
             LogError "Error handling client: [Errno 9] Bad file descriptor"])%list)
    /\ handle_client (t :: rest) self =
       (Returned, self',
        (ClientClosed :: close_events (socket self) ListenerClosed
         ++ [LogInfo "Server cleaned up and shut down";
             LogError "Error handling client: [Errno 9] Bad file descriptor"])%list)
    /\ forall response, ~ In (Sent response)
         (ClientClosed :: close_events (socket self) ListenerClosed
          ++ [LogInfo "Server cleaned up and shut down";
              LogError "Error handling client: [Errno 9] Bad file descriptor"])%list.
Proof.
  intros Hc Hr Hk.
  assert (Hd : data <> "") by (apply (keyword_nonempty _ _ Hk); discriminate).
  assert (Hp : process_command (turn_env t) data self
               = (inr "Server shutting down...",
                  {| host := host self; port := port self;
                     socket := closed_sock (socket self);
                     client := SockClosed; addr := addr self;
                     allowed_dirs := allowed_dirs self |},
                  (ClientClosed :: close_events (socket self) ListenerClosed
                   ++ [LogInfo "Server cleaned up and shut down"])%list)).
  { rewrite process_command_eq, Hk. cbn [lookup commands String.eqb Ascii.eqb Bool.eqb].
    unfold exit_connection, bind. rewrite cleanup_eq, Hc.
    cbn [ret close_events closed_sock app]. rewrite app_nil_r. reflexivity. }
  assert (Hb : loop_body t self =
       (Break,
        {| host := host self; port := port self;
           socket := closed_sock (socket self);
           client := SockClosed; addr := addr self;
           allowed_dirs := allowed_dirs self |},
        (ClientClosed :: close_events (socket self) ListenerClosed
         ++ [LogInfo "Server cleaned up and shut down";
             LogError "Error handling client: [Errno 9] Bad file descriptor"])%list)).
  { unfold loop_body. rewrite (loop_body_received t self data Hc Hr Hd), Hp.
    destruct (socket self); reflexivity. }
  eexists. split; [exact Hp|]. split; [reflexivity|]. split; [exact Hb|]. split.
  - exact (handle_client_break t rest _ _ _ Hb).
  - intros response Hin. destruct (socket self); cbn in Hin;
      repeat (destruct Hin as [Hin|Hin]; [discriminate Hin|]); exact Hin.
Qed.

(** The reply to [echo]: the argument is what follows the first space of the
    line once stripped and lower-cased. *)
Lemma echo_response_eq (env : Env) (self : RemoteServer) (data : string) :
  keyword data = "echo" ->
  process_command env data self = (inr ("Echo: " ++ argument data), self, []).
Proof.
  intros Hk. rewrite process_command_eq, Hk. reflexivity.
Qed.

End Session.

Section Handlers.
Context {PF : PyFloat}.

Lemma argument_eq (data : string) :
  argument data =
  match cut_at " " (lower (strip data)) with
  | Some (_, rest) => rest
  | None => ""
  end.
Proof.
  unfold argument, split_once. destruct (cut_at " " (lower (strip data))) as [[a b]|];
    reflexivity.
Qed.

(** C4, as the code has it. For a received line whose keyword is [echo] the
    server returns ["Echo: "] followed by the argument, and the argument is
    what follows the first space of the line once the line has been stripped
    of surrounding white space and lower-cased: letter case is not kept,
    only one space separates keyword and argument, and a line without a
    space has the empty argument, which yields exactly ["Echo: "]. A line
    that has no upper-case letter is echoed from its stripped text as it
    is. *)
Theorem echo_reply (env : Env) (self : RemoteServer) (data : string) :
  keyword data = "echo" ->
  process_command env data self = (inr ("Echo: " ++ argument data), self, [])
  /\ argument data =
     match cut_at " " (lower (strip data)) with
     | Some (_, rest) => rest
     | None => ""
     end
  /\ (cut_at " " (lower (strip data)) = None ->
      process_command env data self = (inr "Echo: ", self, []))
  /\ (lower data = data ->
      argument data =
      match cut_at " " (strip data) with
      | Some (_, rest) => rest
      | None => ""
      end).
Proof.
  intros Hk. split; [apply echo_response_eq, Hk|]. split; [apply argument_eq|]. split.
  - intros Hn. rewrite (echo_response_eq _ _ _ Hk), argument_eq, Hn. reflexivity.
  - intros Hl. rewrite argument_eq, lower_strip, Hl. reflexivity.
Qed.

(** [list_directory] never raises, and leaves the server object as it is. *)
Lemma list_directory_returns (env : Env) (self : RemoteServer) (path : string) :
  exists response, list_directory env path self = (inr response, self, []).
Proof.
  unfold list_directory, bind, get_self.
  destruct (path_allowed env (allowed_dirs self) _); cbn [negb].
  - destruct (os_listdir env _); eexists; reflexivity.
  - eexists; reflexivity.
Qed.

Lemma list_directory_error (env : Env) (self : RemoteServer) (path : string) (e : exn) :
  path_allowed env (allowed_dirs self) (abspath (cwd env) (join2 "." (strip path))) = true ->
  os_listdir env (abspath (cwd env) (join2 "." (strip path))) = inl e ->
  list_directory env path self = (inr ("Error listing directory: " ++ exn_msg e), self, []).
Proof.
  intros Ha He. unfold list_directory, bind, get_self. rewrite Ha, He. reflexivity.
Qed.

Lemma call_eq {A} (r : exn + A) (self : RemoteServer) :
  call r self = (r, self, []).
Proof. destruct r; reflexivity. Qed.

(** The four handlers that encode a dictionary. *)
Lemma encoded_handler_eq (d : exn + json) (self : RemoteServer) :
  bind (call d) (fun x => ret (dumps x)) self
  = (match d with inl e => inl e | inr x => inr (dumps x) end, self, []).
Proof. destruct d; reflexivity. Qed.

Lemma get_cpu_info_eq (env : Env) (args : string) (self : RemoteServer) :
  get_cpu_info env args self
  = (match cpu_info env with inl e => inl e | inr x => inr (dumps x) end, self, []).
Proof. apply encoded_handler_eq. Qed.

Lemma get_memory_info_eq (env : Env) (args : string) (self : RemoteServer) :
  get_memory_info env args self
  = (match mem_info env with inl e => inl e | inr x => inr (dumps x) end, self, []).
Proof. apply encoded_handler_eq. Qed.

Lemma get_network_stats_eq (env : Env) (args : string) (self : RemoteServer) :
  get_network_stats env args self
  = (match net_info env with inl e => inl e | inr x => inr (dumps x) end, self, []).
Proof. apply encoded_handler_eq. Qed.

Lemma get_disk_space_eq (env : Env) (args : string) (self : RemoteServer) :
  get_disk_space env args self
  = (match disk_info env with inl e => inl e | inr x => inr (dumps x) end, self, []).
Proof. apply encoded_handler_eq. Qed.

Lemma get_running_processes_eq (env : Env) (args : string) (self : RemoteServer) :
  get_running_processes env args self
  = (match processes_info env with inl e => inl e | inr x => inr (dumps x) end, self, []).
Proof. apply encoded_handler_eq. Qed.

End Handlers.

(** *** Paths *)

Lemma split_nonempty (sep : ascii) (s : string) : split sep s <> [].
Proof.
  destruct s as [|c r]; simpl; [discriminate|].
  destruct (Ascii.eqb c sep); [discriminate|].
  destruct (split sep r); discriminate.
Qed.

Lemma split_no_slash (s : string) : Forall (fun c => no_slash c = true) (split "/" s).
Proof.
  induction s as [|c r IH]; simpl.
  - repeat constructor.
  - destruct (Ascii.eqb c "/") eqn:E.
    + constructor; [reflexivity|exact IH].
    + destruct (split "/" r) as [|p ps] eqn:Es.
      * repeat constructor. simpl. rewrite E. reflexivity.
      * inversion IH; subst. constructor; [|assumption].
        simpl. rewrite E. assumption.
Qed.

Lemma split_comp_sep (c rest : string) :
  no_slash c = true ->
  split "/" (c ++ String "/" rest) = c :: split "/" rest.
Proof.
  induction c as [|x c IH]; simpl; [reflexivity|].
  intros H. apply andb_prop in H as [Hx Hc].
  destruct (Ascii.eqb x "/"); [discriminate|].
  rewrite (IH Hc). reflexivity.
Qed.

Lemma split_comp (c : string) : no_slash c = true -> split "/" c = [c].
Proof.
  induction c as [|x c IH]; simpl; [reflexivity|].
  intros H. apply andb_prop in H as [Hx Hc].
  destruct (Ascii.eqb x "/"); [discriminate|].
  rewrite (IH Hc). reflexivity.
Qed.

Lemma split_join (comps : list string) :
  comps <> [] ->
  Forall (fun c => no_slash c = true) comps ->
  split "/" (join "/" comps) = comps.
Proof.
  induction comps as [|c r IH]; [congruence|].
  intros _ H. inversion H as [|? ? Hc Hr]; subst.
  destruct r as [|c' r'].
  - simpl. apply split_comp, Hc.
  - change (join "/" (c :: c' :: r')) with (c ++ String "/" (join "/" (c' :: r'))).
    rewrite (split_comp_sep _ _ Hc), IH by (assumption || discriminate).
    reflexivity.
Qed.

Lemma clean_comp_no_slash (c : string) : clean_comp c = true -> no_slash c = true.
Proof.
  unfold clean_comp. intros H.
  repeat (apply andb_prop in H as [H ?]). exact H.
Qed.

(** In a rooted path the loop of [normpath] keeps only clean components. *)
Lemma norm_comps_rooted_clean (comps acc : list string) :
  Forall (fun c => no_slash c = true) comps ->
  Forall (fun c => clean_comp c = true) acc ->
  Forall (fun c => clean_comp c = true) (norm_comps true comps acc).
Proof.
  revert acc. induction comps as [|c r IH]; intros acc Hs Ha; simpl; [exact Ha|].
  inversion Hs as [|? ? Hc Hr]; subst.
  destruct (String.eqb_spec c "") as [->|N1]; [apply IH; assumption|].
  destruct (String.eqb_spec c ".") as [->|N2]; [apply IH; assumption|].
  cbn [orb]. destruct (String.eqb_spec c "..") as [->|N3]; cbn [negb orb andb].
  - destruct acc as [|l popped].
    + apply IH; assumption.
    + inversion Ha as [|? ? Hl Hp]; subst.
      destruct (String.eqb_spec l "..") as [->|_]; [vm_compute in Hl; discriminate Hl|].
      apply IH; assumption.
  - apply IH; [assumption|]. constructor; [|assumption].
    unfold clean_comp. rewrite Hc.
    apply String.eqb_neq in N1, N2, N3. rewrite N1, N2, N3. reflexivity.
Qed.

(** On clean components the loop pushes every one of them. *)
Lemma norm_comps_of_clean (rooted : bool) (comps acc : list string) :
  Forall (fun c => clean_comp c = true) comps ->
  norm_comps rooted comps acc = (rev comps ++ acc)%list.
Proof.
  revert acc. induction comps as [|c r IH]; intros acc H; simpl; [reflexivity|].
  inversion H as [|? ? Hc Hr]; subst.
  unfold clean_comp in Hc.
  repeat (apply andb_prop in Hc as [Hc ?]).
  repeat match goal with
         | E : negb _ = true |- _ => apply negb_true_iff in E; rewrite E
         end.
  cbn [orb negb]. rewrite (IH _ Hr), <- app_assoc. reflexivity.
Qed.

Lemma norm_comps_app (rooted : bool) (a b acc : list string) :
  norm_comps rooted (a ++ b)%list acc = norm_comps rooted b (norm_comps rooted a acc).
Proof.
  revert acc. induction a as [|c r IH]; intros acc; simpl; [reflexivity|].
  destruct ((c =? "")%string || (c =? ".")%string); [apply IH|].
  match goal with |- context [if ?b then _ else _] => destruct b end; [apply IH|].
  destruct acc; apply IH.
Qed.

Lemma startswith_slash (p : string) :
  startswith p "/" = true -> exists r, p = String "/" r.
Proof.
  destruct p as [|c r]; [discriminate|].
  cbn [startswith]. destruct (Ascii.eqb_spec "/" c) as [<-|]; [|discriminate].
  intros _. eexists; reflexivity.
Qed.

Lemma join_clean_head (comps : list string) :
  comps <> [] ->
  Forall (fun c => clean_comp c = true) comps ->
  exists x r, join "/" comps = String x r /\ Ascii.eqb x "/" = false.
Proof.
  destruct comps as [|c r]; [congruence|]. intros _ H.
  inversion H as [|? ? Hc Hr]; subst.
  destruct c as [|x c']; [discriminate Hc|].
  unfold clean_comp in Hc. simpl in Hc.
  destruct (Ascii.eqb x "/") eqn:E; [discriminate Hc|].
  exists x. destruct r; simpl; eexists; split; try reflexivity; exact E.
Qed.

(** The shape of the result of [normpath] on an absolute path: one slash or
    two, then the clean components. *)
Lemma normpath_absolute_shape (path : string) :
  isabs path = true ->
  exists n comps,
    (n = 1 \/ n = 2)
    /\ Forall (fun c => clean_comp c = true) comps
    /\ normpath path = repeat_char "/" n ++ join "/" comps.
Proof.
  intros Habs. destruct (startswith_slash _ Habs) as [r ->].
  unfold normpath.
  change ((String "/" r =? "")%string) with false. cbv iota.
  set (n := initial_slashes (String "/" r)).
  assert (Hn : n = 1 \/ n = 2).
  { unfold n, initial_slashes. change (startswith (String "/" r) "/") with true.
    cbv iota. destruct (_ && _); auto. }
  exists n, (rev (norm_comps true (split "/" (String "/" r)) [])).
  assert (Hlt : (0 <? n)%nat = true) by (destruct Hn as [-> | ->]; reflexivity).
  rewrite Hlt. split; [exact Hn|]. split.
  - apply Forall_rev. apply norm_comps_rooted_clean; [apply split_no_slash|constructor].
  - destruct Hn as [-> | ->]; reflexivity.
Qed.

Lemma initial_slashes_shape (n : nat) (comps : list string) :
  n = 1 \/ n = 2 ->
  Forall (fun c => clean_comp c = true) comps ->
  initial_slashes (repeat_char "/" n ++ join "/" comps) = n.
Proof.
  intros Hn Hc. destruct comps as [|c r].
  - destruct Hn as [-> | ->]; reflexivity.
  - destruct (join_clean_head (c :: r)) as (x & t & -> & Hx); [discriminate|assumption|].
    rewrite Ascii.eqb_sym in Hx.
    unfold initial_slashes.
    destruct Hn as [-> | ->]; cbn [repeat_char append startswith];
      rewrite ?Ascii.eqb_refl, ?Hx; reflexivity.
Qed.

Lemma split_shape (n : nat) (comps : list string) :
  n = 1 \/ n = 2 ->
  Forall (fun c => clean_comp c = true) comps ->
  exists empties,
    Forall (fun c => c = "") empties
    /\ split "/" (repeat_char "/" n ++ join "/" comps) = (empties ++ comps)%list.
Proof.
  intros Hn Hc.
  assert (Hs : Forall (fun c => no_slash c = true) comps)
    by (eapply Forall_impl; [|exact Hc]; apply clean_comp_no_slash).
  destruct comps as [|c r].
  - destruct Hn as [-> | ->]; simpl.
    + exists [""; ""]. split; [repeat constructor|reflexivity].
    + exists [""; ""; ""]. split; [repeat constructor|reflexivity].
  - assert (E := split_join (c :: r) ltac:(discriminate) Hs).
    destruct Hn as [-> | ->]; cbn [repeat_char append split Ascii.eqb Bool.eqb];
      rewrite E.
    + exists [""]. split; [repeat constructor|reflexivity].
    + exists [""; ""]. split; [repeat constructor|reflexivity].
Qed.

Lemma norm_comps_empties (rooted : bool) (empties acc : list string) :
  Forall (fun c => c = "") empties ->
  norm_comps rooted empties acc = acc.
Proof.
  induction 1 as [|c r -> _ IH]; simpl; [reflexivity|exact IH].
Qed.

(** [normpath] leaves its own results on absolute paths as they are. *)
Lemma normpath_idempotent_absolute (path : string) :
  isabs path = true ->
  isabs (normpath path) = true /\ normpath (normpath path) = normpath path.
Proof.
  intros Habs.
  destruct (normpath_absolute_shape _ Habs) as (n & comps & Hn & Hc & ->).
  split; [destruct Hn as [-> | ->]; reflexivity|].
  unfold normpath at 1.
  assert (Hne : ((repeat_char "/" n ++ join "/" comps) =? "")%string = false)
    by (destruct Hn as [-> | ->]; reflexivity).
  rewrite Hne, (initial_slashes_shape n comps Hn Hc).
  destruct (split_shape n comps Hn Hc) as (empties & He & ->).
  rewrite norm_comps_app, (norm_comps_empties _ _ _ He).
  rewrite (norm_comps_of_clean _ _ _ Hc), app_nil_r, rev_involutive, Hne.
  reflexivity.
Qed.

Lemma join2_absolute (cwd path : string) :
  isabs cwd = true -> isabs (if isabs path then path else join2 cwd path) = true.
Proof.
  intros Hc. destruct (isabs path) eqn:E; [exact E|].
  unfold join2. change (startswith path "/") with (isabs path). rewrite E.
  destruct (startswith_slash _ Hc) as [r ->].
  destruct (_ || _); reflexivity.
Qed.

(** The result of [abspath] is absolute and canonical when the working
    directory is given as an absolute path, as [os.getcwd()] gives it. *)
Lemma abspath_canonical (cwd path : string) :
  isabs cwd = true ->
  isabs (abspath cwd path) = true
  /\ normpath (abspath cwd path) = abspath cwd path.
Proof.
  intros Hc. unfold abspath.
  apply normpath_idempotent_absolute, join2_absolute, Hc.
Qed.

Lemma normpath_absolute_eq (path : string) :
  isabs path = true ->
  normpath path
  = repeat_char "/" (initial_slashes path)
    ++ join "/" (rev (norm_comps true (split "/" path) [])).
Proof.
  intros Habs. destruct (startswith_slash _ Habs) as [r ->].
  unfold normpath.
  change ((String "/" r =? "")%string) with false. cbv iota.
  assert (Hn : initial_slashes (String "/" r) = 1 \/ initial_slashes (String "/" r) = 2).
  { unfold initial_slashes. change (startswith (String "/" r) "/") with true.
    cbv iota. destruct (_ && _); auto. }
  destruct Hn as [-> | ->]; reflexivity.
Qed.

Lemma split_app_sep (a b : string) :
  split "/" (a ++ String "/" b) = (split "/" a ++ split "/" b)%list.
Proof.
  induction a as [|c a IH]; [reflexivity|].
  cbn [append split]. rewrite IH.
  destruct (Ascii.eqb c "/"); [reflexivity|].
  destruct (split "/" a) as [|p ps] eqn:E; [|reflexivity].
  exfalso. exact (split_nonempty _ _ E).
Qed.

Lemma endswith_char_split (s : string) (c : ascii) :
  endswith_char s c = true -> exists a, s = a ++ String c "".
Proof.
  induction s as [|x s IH]; [discriminate|].
  cbn [endswith_char]. destruct s as [|y s'].
  - intros H. apply Ascii.eqb_eq in H as ->. exists "". reflexivity.
  - intros H. destruct (IH H) as [a ->]. exists (String x a). reflexivity.
Qed.

(** [join(cwd, "./name")] is some text, a slash, and [./name]. *)
Lemma join2_dot_name (cwd name : string) :
  isabs cwd = true ->
  exists a, forall n : string,
    join2 cwd (String "." (String "/" n)) = a ++ String "/" (String "." (String "/" n)).
Proof.
  intros Habs. unfold join2. cbn [startswith Ascii.eqb Bool.eqb andb].
  destruct (startswith_slash _ Habs) as [r ->].
  change ((String "/" r =? "")%string) with false. cbn [orb].
  destruct (endswith_char (String "/" r) "/") eqn:E.
  - destruct (endswith_char_split _ _ E) as [a Ha]. exists a. intros n.
    rewrite Ha, append_assoc. reflexivity.
  - exists (String "/" r). intros n. reflexivity.
Qed.

Lemma initial_slashes_dot_name (a x y : string) :
  initial_slashes (a ++ String "/" (String "." (String "/" x)))
  = initial_slashes (a ++ String "/" (String "." (String "/" y))).
Proof.
  destruct a as [|c [|d [|e r]]]; reflexivity.
Qed.

Lemma join_snoc (l : list string) (x : string) :
  join "/" (l ++ [x])%list
  = match l with [] => "" | _ => join "/" l ++ "/" end ++ x.
Proof.
  induction l as [|c r IH]; [reflexivity|].
  destruct r as [|c' r'].
  - cbn [app join]. rewrite append_assoc. reflexivity.
  - change (join "/" ((c :: c' :: r') ++ [x])%list)
      with (c ++ "/" ++ join "/" ((c' :: r') ++ [x])%list).
    rewrite IH.
    change (join "/" (c :: c' :: r')) with (c ++ "/" ++ join "/" (c' :: r')).
    rewrite !append_assoc. reflexivity.
Qed.

Lemma append_inj_l (p a b : string) : p ++ a = p ++ b -> a = b.
Proof. induction p as [|c p IH]; simpl; [auto|]. intros H. inversion H. auto. Qed.

(** A directory [./name] of the working directory canonicalizes to a text
    that does not depend on the name, followed by the name. *)
Lemma abspath_dot_name (cwd : string) :
  isabs cwd = true ->
  exists pre, forall name : string,
    clean_comp name = true ->
    abspath cwd (String "." (String "/" name)) = pre ++ name.
Proof.
  intros Habs. destruct (join2_dot_name cwd "" Habs) as [a Ha].
  exists (repeat_char "/" (initial_slashes (a ++ String "/" (String "." (String "/" ""))))
          ++ match rev (norm_comps true (split "/" a) []) with
             | [] => ""
             | l => join "/" l ++ "/"
             end).
  intros name Hn. unfold abspath.
  assert (Hj := join2_absolute cwd (String "." (String "/" name)) Habs).
  rewrite normpath_absolute_eq by exact Hj.
  change (isabs (String "." (String "/" name))) with false. cbv iota.
  rewrite Ha, (initial_slashes_dot_name a name "").
  rewrite split_app_sep.
  change (String "." (String "/" name)) with ("." ++ String "/" name).
  rewrite (split_comp_sep "." name eq_refl), (split_comp _ (clean_comp_no_slash _ Hn)).
  rewrite norm_comps_app.
  change (norm_comps true ["."; name] ?acc) with (norm_comps true [name] acc).
  rewrite (norm_comps_of_clean true [name]) by (constructor; [exact Hn|constructor]).
  cbn [rev app]. rewrite join_snoc, append_assoc.
  destruct (rev (norm_comps true (split "/" a) [])); reflexivity.
Qed.

Lemma allowed_roots_distinct (cwd : string) :
  isabs cwd = true ->
  NoDup (map (abspath cwd) ["./shared"; "./downloads"]).
Proof.
  intros Habs. destruct (abspath_dot_name cwd Habs) as [pre Hp].
  cbn [map]. change "./shared" with (String "." (String "/" "shared")).
  change "./downloads" with (String "." (String "/" "downloads")).
  rewrite !Hp by reflexivity.
  constructor; [|constructor; [intros []|constructor]].
  intros [H|[]]. apply append_inj_l in H. discriminate H.
Qed.

(** **** The canonical form of [./name] in a canonical directory *)

Lemma endswith_char_app (a b : string) (c : ascii) :
  b <> "" -> endswith_char (a ++ b) c = endswith_char b c.
Proof.
  intros Hb. induction a as [|x a IH]; [reflexivity|].
  cbn [append endswith_char]. rewrite IH.
  destruct (a ++ b) eqn:E; [|reflexivity].
  destruct a; [cbn in E; congruence|discriminate E].
Qed.

Lemma clean_comp_nonempty (c : string) : clean_comp c = true -> c <> "".
Proof. intros H ->. discriminate H. Qed.

Lemma no_slash_endswith (c : string) :
  no_slash c = true -> endswith_char c "/" = false.
Proof.
  induction c as [|x c IH]; [reflexivity|].
  cbn [no_slash endswith_char]. intros H. apply andb_prop in H as [Hx Hc].
  apply negb_true_iff in Hx. destruct c; [exact Hx|exact (IH Hc)].
Qed.

Lemma join_clean_nonempty (comps : list string) :
  comps <> [] ->
  Forall (fun c => clean_comp c = true) comps ->
  join "/" comps <> "".
Proof.
  intros Hne Hc. destruct (join_clean_head comps Hne Hc) as (x & r & -> & _).
  discriminate.
Qed.

Lemma join_clean_endswith (comps : list string) :
  comps <> [] ->
  Forall (fun c => clean_comp c = true) comps ->
  endswith_char (join "/" comps) "/" = false.
Proof.
  induction comps as [|c r IH]; [congruence|]. intros _ H.
  inversion H as [|? ? Hc Hr]; subst. destruct r as [|c' r'].
  - apply no_slash_endswith, clean_comp_no_slash, Hc.
  - change (join "/" (c :: c' :: r')) with (c ++ "/" ++ join "/" (c' :: r')).
    rewrite endswith_char_app by discriminate.
    change ("/" ++ join "/" (c' :: r')) with (String "/" (join "/" (c' :: r'))).
    assert (Hj := join_clean_nonempty (c' :: r') ltac:(discriminate) Hr).
    specialize (IH ltac:(discriminate) Hr).
    cbn [endswith_char]. destruct (join "/" (c' :: r')); [congruence|exact IH].
Qed.

Lemma clean_comp_head (name : string) :
  clean_comp name = true -> startswith name "/" = false.
Proof.
  intros H. destruct name as [|x t]; [reflexivity|].
  apply clean_comp_no_slash in H. cbn [no_slash] in H.
  apply andb_prop in H as [Hx _]. apply negb_true_iff in Hx.
  cbn [startswith]. rewrite Ascii.eqb_sym, Hx. reflexivity.
Qed.

(** [normpath] on a path that ends with [/./name]. *)
Lemma normpath_dot_name (a name : string) :
  isabs (a ++ String "/" (String "." (String "/" name))) = true ->
  clean_comp name = true ->
  normpath (a ++ String "/" (String "." (String "/" name)))
  = repeat_char "/" (initial_slashes (a ++ String "/" (String "." (String "/" ""))))
    ++ match rev (norm_comps true (split "/" a) []) with
       | [] => ""
       | l => join "/" l ++ "/"
       end
    ++ name.
Proof.
  intros Hj Hn. rewrite normpath_absolute_eq by exact Hj.
  rewrite (initial_slashes_dot_name a name "").
  rewrite split_app_sep.
  change (String "." (String "/" name)) with ("." ++ String "/" name).
  rewrite (split_comp_sep "." name eq_refl), (split_comp _ (clean_comp_no_slash _ Hn)).
  rewrite norm_comps_app.
  change (norm_comps true ["."; name] ?acc) with (norm_comps true [name] acc).
  rewrite (norm_comps_of_clean true [name]) by (constructor; [exact Hn|constructor]).
  cbn [rev app]. rewrite join_snoc.
  destruct (rev (norm_comps true (split "/" a) [])); reflexivity.
Qed.

(** In a working directory that is absolute and in canonical form, as
    [os.getcwd()] gives it, the canonical form of [./name] is the directory
    joined with the name. *)
Lemma abspath_dot_join (cwd name : string) :
  isabs cwd = true ->
  normpath cwd = cwd ->
  clean_comp name = true ->
  abspath cwd (String "." (String "/" name)) = join2 cwd name.
Proof.
  intros Habs Hnorm Hn.
  destruct (normpath_absolute_shape _ Habs) as (n & comps & Hcases & Hc & Hs).
  rewrite Hnorm in Hs. unfold abspath.
  change (isabs (String "." (String "/" name))) with false. cbv iota.
  assert (Hh := clean_comp_head _ Hn).
  unfold join2. rewrite Hh. cbn [startswith Ascii.eqb Bool.eqb andb].
  destruct comps as [|c r].
  - assert (Hcwd : cwd = "/" \/ cwd = "//")
      by (destruct Hcases as [-> | ->]; [left|right]; exact Hs).
    destruct Hcwd as [-> | ->]; cbn [String.eqb Ascii.eqb Bool.eqb orb endswith_char append].
    + change (normpath ("" ++ String "/" (String "." (String "/" name))) = "/" ++ name).
      rewrite (normpath_dot_name "" name eq_refl Hn). reflexivity.
    + change (normpath ("/" ++ String "/" (String "." (String "/" name)))
              = "//" ++ name).
      rewrite (normpath_dot_name "/" name eq_refl Hn). reflexivity.
  - assert (Hne : (cwd =? "")%string = false)
      by (destruct (startswith_slash _ Habs) as [t ->]; reflexivity).
    assert (He : endswith_char cwd "/" = false).
    { rewrite Hs, endswith_char_app.
      - apply join_clean_endswith; [discriminate|exact Hc].
      - apply join_clean_nonempty; [discriminate|exact Hc]. }
    rewrite Hne, He. cbn [orb].
    change (cwd ++ "/" ++ String "." (String "/" name))
      with (cwd ++ String "/" (String "." (String "/" name))).
    rewrite normpath_dot_name; [|destruct (startswith_slash _ Habs) as [t ->]; reflexivity
                                |exact Hn].
    assert (Hi : initial_slashes (cwd ++ String "/" (String "." (String "/" ""))) = n).
    { rewrite Hs.
      destruct (join_clean_head (c :: r)) as (x & t & E & Hx);
        [discriminate|exact Hc|].
      rewrite E. rewrite Ascii.eqb_sym in Hx. unfold initial_slashes.
      destruct Hcases as [-> | ->]; cbn [repeat_char append startswith];
        rewrite ?Ascii.eqb_refl, ?Hx; reflexivity. }
    rewrite Hi.
    destruct (split_shape n (c :: r) Hcases Hc) as (empties & Hem & Hsp).
    rewrite Hs at 1. rewrite Hsp, norm_comps_app, (norm_comps_empties _ _ _ Hem).
    rewrite (norm_comps_of_clean _ _ _ Hc), app_nil_r, rev_involutive.
    destruct (c :: r) eqn:Ecr; [discriminate Ecr|]. rewrite <- Ecr.
    rewrite <- Ecr in Hs. rewrite Hs, !append_assoc. reflexivity.
Qed.

(** *** The directory guard and the allow-list *)

Lemma startswith_app (p r : string) : startswith (p ++ r) p = true.
Proof.
  induction p as [|c p IH]; [reflexivity|].
  cbn [append startswith]. rewrite Ascii.eqb_refl. exact IH.
Qed.

Lemma startswith_refl (p : string) : startswith p p = true.
Proof. rewrite <- (append_nil_r p) at 1. apply startswith_app. Qed.

Lemma startswith_shorter (s p q : string) :
  startswith s (p ++ q) = true -> startswith s p = true.
Proof.
  revert s. induction p as [|c p IH]; intros s; [reflexivity|].
  cbn [append startswith]. destruct s as [|d s]; [discriminate|].
  intros H. apply andb_prop in H as [Hc Hs]. rewrite Hc. exact (IH _ Hs).
Qed.

(** What the specification accepts, the code accepts. *)
Lemma spec_within_startswith (root p : string) :
  spec_within root p = true -> startswith p root = true.
Proof.
  unfold spec_within. intros H. apply orb_prop in H as [H|H].
  - apply String.eqb_eq in H as ->. apply startswith_refl.
  - exact (startswith_shorter _ _ _ H).
Qed.

Lemma startswith_app_cancel (p a b : string) :
  startswith (p ++ a) (p ++ b) = startswith a b.
Proof.
  induction p as [|c p IH]; [reflexivity|].
  cbn [append startswith]. rewrite Ascii.eqb_refl. exact IH.
Qed.

Lemma no_slash_app (a b : string) :
  no_slash (a ++ b) = no_slash a && no_slash b.
Proof.
  induction a as [|c a IH]; [reflexivity|].
  cbn [append no_slash]. rewrite IH, andb_assoc. reflexivity.
Qed.

Section Guard.
Context {PF : PyFloat}.

(** [list_directory] answers "access denied" exactly when no canonical
    allow-list entry is a prefix, as a string, of the canonical path. *)
Lemma list_directory_denied (env : Env) (self : RemoteServer) (path : string) :
  path_allowed env (allowed_dirs self)
    (abspath (cwd env) (join2 "." (strip path))) = false ->
  list_directory env path self = (inr access_denied, self, []).
Proof.
  intros H. unfold list_directory, bind, get_self. rewrite H. reflexivity.
Qed.

Lemma list_directory_allowed (env : Env) (self : RemoteServer) (path : string) :
  path_allowed env (allowed_dirs self)
    (abspath (cwd env) (join2 "." (strip path))) = true ->
  list_directory env path self
  = (inr match os_listdir env (abspath (cwd env) (join2 "." (strip path))) with
         | inr items =>
             dumps (JObj [("path", JStr (abspath (cwd env) (join2 "." (strip path))));
                          ("contents", JArr (map JStr items))])
         | inl e => "Error listing directory: " ++ exn_msg e
         end, self, []).
Proof.
  intros H. unfold list_directory, bind, get_self. rewrite H. cbn [negb].
  destruct (os_listdir env _); reflexivity.
Qed.

(** A path inside an allowed root, in the sense of the specification, is
    never denied. *)
Lemma list_directory_accepts_spec (env : Env) (self : RemoteServer) (path root : string) :
  In root (allowed_dirs self) ->
  spec_within (abspath (cwd env) root)
    (abspath (cwd env) (join2 "." (strip path))) = true ->
  path_allowed env (allowed_dirs self)
    (abspath (cwd env) (join2 "." (strip path))) = true.
Proof.
  intros Hin Hs. unfold path_allowed. apply existsb_exists.
  exists root. split; [exact Hin|]. apply spec_within_startswith, Hs.
Qed.

(** C1, what the code does. The guard canonicalizes the path and then asks
    whether the canonical form of an allow-list entry is a prefix of it as a
    string. For every working directory, a directory next to [./shared]
    whose name continues the name [shared] has a canonical path that is
    neither an allowed root nor below one, and yet it passes the guard:
    [list_directory] answers with the listing of that directory, or with the
    error of the attempt to list it, and not with the access-denied
    response. *)
Theorem listdir_passes_sibling_of_shared
        (env : Env) (self : RemoteServer) (suffix : string) :
  isabs (cwd env) = true ->
  In "./shared" (allowed_dirs self) ->
  suffix <> "" ->
  clean_comp ("shared" ++ suffix) = true ->
  strip ("shared" ++ suffix) = "shared" ++ suffix ->
  let requested := abspath (cwd env) (join2 "." (strip ("shared" ++ suffix))) in
  (forall root, In root ["./shared"; "./downloads"] ->
                spec_within (abspath (cwd env) root) requested = false)
  /\ path_allowed env (allowed_dirs self) requested = true
  /\ exists response,
       list_directory env ("shared" ++ suffix) self = (inr response, self, [])
       /\ response <> access_denied.
Proof.
  intros Habs Hin Hne Hclean Hstrip requested.
  destruct (abspath_dot_name (cwd env) Habs) as [pre Hpre].
  assert (Hreq : requested = pre ++ "shared" ++ suffix).
  { unfold requested. rewrite Hstrip. exact (Hpre _ Hclean). }
  assert (Hshared : abspath (cwd env) "./shared" = pre ++ "shared")
    by exact (Hpre "shared" eq_refl).
  assert (Hdown : abspath (cwd env) "./downloads" = pre ++ "downloads")
    by exact (Hpre "downloads" eq_refl).
  assert (Hslash : startswith suffix "/" = false).
  { apply clean_comp_no_slash in Hclean. rewrite no_slash_app in Hclean.
    apply andb_prop in Hclean as [_ Hs].
    destruct suffix as [|c r]; [reflexivity|]. cbn [no_slash] in Hs.
    cbn [startswith]. rewrite Ascii.eqb_sym.
    destruct (Ascii.eqb c "/"); [discriminate Hs|reflexivity]. }
  assert (Hallowed : path_allowed env (allowed_dirs self) requested = true).
  { unfold path_allowed. apply existsb_exists. exists "./shared".
    split; [exact Hin|]. rewrite Hshared, Hreq, <- append_assoc.
    apply startswith_app. }
  split; [|split; [exact Hallowed|]].
  - intros root [<-|[<-|[]]]; unfold spec_within.
    + rewrite Hshared, Hreq. apply orb_false_intro.
      * apply String.eqb_neq. intros H. apply append_inj_l in H.
        apply (append_inj_l "shared" suffix "") in H. congruence.
      * rewrite (append_assoc pre), startswith_app_cancel. exact Hslash.
    + rewrite Hdown, Hreq. apply orb_false_intro.
      * apply String.eqb_neq. intros H. apply append_inj_l in H. discriminate H.
      * rewrite (append_assoc pre), startswith_app_cancel. reflexivity.
  - eexists. split.
    + apply list_directory_allowed. exact Hallowed.
    + destruct (os_listdir env _); discriminate.
Qed.

(** **** Methods that keep the allow-list *)

Lemma keeps_ret {A} (a : A) : keeps_allowed_dirs (ret a).
Proof. intros self. reflexivity. Qed.

Lemma keeps_raise {A} (e : exn) : keeps_allowed_dirs (raise (A := A) e).
Proof. intros self. reflexivity. Qed.

Lemma keeps_emit (ev : event) : keeps_allowed_dirs (emit ev).
Proof. intros self. reflexivity. Qed.

Lemma keeps_call {A} (r : exn + A) : keeps_allowed_dirs (call r).
Proof. destruct r; [apply keeps_raise|apply keeps_ret]. Qed.

Lemma keeps_bind {A B} (m : M A) (k : A -> M B) :
  keeps_allowed_dirs m -> (forall a, keeps_allowed_dirs (k a)) ->
  keeps_allowed_dirs (bind m k).
Proof.
  intros Hm Hk self. unfold bind. specialize (Hm self).
  destruct (m self) as [[[e|a] self'] evs]; [exact Hm|].
  specialize (Hk a self').
  destruct (k a self') as [[r self''] evs']. cbn in *. congruence.
Qed.

Lemma keeps_bind_self {B} (k : RemoteServer -> M B) :
  (forall self, allowed_dirs (state_after (k self self)) = allowed_dirs self) ->
  keeps_allowed_dirs (bind get_self k).
Proof.
  intros Hk self. unfold bind, get_self. specialize (Hk self).
  destruct (k self self) as [[r self''] evs']. exact Hk.
Qed.

Lemma keeps_cleanup : keeps_allowed_dirs cleanup.
Proof. intros self. rewrite cleanup_eq. reflexivity. Qed.

Lemma keeps_list_directory (env : Env) (path : string) :
  keeps_allowed_dirs (list_directory env path).
Proof.
  intros self. destruct (list_directory_returns env self path) as [r ->]. reflexivity.
Qed.

(** Every handler of the dictionary [commands] keeps the allow-list. *)
Lemma keeps_handlers (k : string) (handler : Env -> string -> M string) :
  lookup commands k = Some handler ->
  forall env args, keeps_allowed_dirs (handler env args).
Proof.
  unfold commands. cbn [lookup]. intros H env args.
  repeat match type of H with
         | (if ?b then _ else _) = _ =>
             destruct b; [injection H as <-|]
         end; try discriminate H.
  - apply keeps_ret.
  - apply keeps_ret.
  - apply keeps_ret.
  - apply keeps_bind; [apply keeps_cleanup|intros; apply keeps_ret].
  - apply keeps_bind; [apply keeps_call|intros; apply keeps_ret].
  - apply keeps_bind; [apply keeps_call|intros; apply keeps_ret].
  - apply keeps_bind; [apply keeps_call|intros; apply keeps_ret].
  - apply keeps_bind; [apply keeps_call|intros; apply keeps_ret].
  - apply keeps_list_directory.
  - apply keeps_bind; [apply keeps_call|intros; apply keeps_ret].
Qed.

Lemma keeps_process_command (env : Env) (command : string) :
  keeps_allowed_dirs (process_command env command).
Proof.
  rewrite process_command_eq.
  destruct (lookup commands (keyword command)) as [handler|] eqn:E.
  - exact (keeps_handlers _ _ E env _).
  - apply keeps_ret.
Qed.

Lemma keeps_recv (t : turn) : keeps_allowed_dirs (recv t).
Proof.
  apply keeps_bind_self. intros self.
  destruct (client self); [reflexivity| |reflexivity].
  destruct (turn_recv t); reflexivity.
Qed.

Lemma keeps_send (t : turn) (response : string) : keeps_allowed_dirs (send t response).
Proof.
  apply keeps_bind_self. intros self.
  destruct (client self); [reflexivity| |reflexivity].
  destruct (turn_send_error t); reflexivity.
Qed.

Lemma keeps_loop_try (t : turn) : keeps_allowed_dirs (loop_try t).
Proof.
  apply keeps_bind; [apply keeps_recv|]. intros data.
  destruct (data =? "")%string; [apply keeps_ret|].
  apply keeps_bind; [apply keeps_process_command|]. intros response.
  apply keeps_bind; [apply keeps_send|]. intros _. apply keeps_ret.
Qed.

Lemma loop_body_allowed_dirs (t : turn) (self : RemoteServer) :
  allowed_dirs (state_after (loop_body t self)) = allowed_dirs self.
Proof.
  unfold loop_body. assert (H := keeps_loop_try t self).
  destruct (loop_try t self) as [[[e|f] self'] evs]; [|exact H].
  destruct (exn_class e); exact H.
Qed.

Lemma handle_client_allowed_dirs (turns : list turn) (self : RemoteServer) :
  allowed_dirs (state_after (handle_client turns self)) = allowed_dirs self.
Proof.
  revert self. induction turns as [|t r IH]; intros self; [reflexivity|].
  cbn [handle_client]. assert (H := loop_body_allowed_dirs t self).
  destruct (loop_body t self) as [[[] self'] evs]; cbn in H.
  - specialize (IH self').
    destruct (handle_client r self') as [[st self''] evs']. cbn in *. congruence.
  - exact H.
Qed.

(** C9, as the code has it. The allow-list is set when the server object
    is made, to the two names [./shared] and [./downloads] in that order:
    relative paths, not in canonical form. From then on it is never
    changed: no command, whatever its handler, and no run of the session
    loop leaves a server object with another allow-list. Absolute paths are
    made at each check, from the entries and the working directory of that
    moment: when that directory is absolute and in canonical form, as
    [os.getcwd()] gives it, the roots the guard compares with are the
    directory joined with [shared] and with [downloads], absolute paths in
    canonical form that differ from one another. *)
Theorem allow_list_fixed
        (h : string) (p : Z) (env : Env) (command : string)
        (turns : list turn) (self : RemoteServer) :
  let stored := allowed_dirs (state_after (init h p)) in
  stored = ["./shared"; "./downloads"]
  /\ Forall (fun entry => isabs entry = false /\ normpath entry <> entry) stored
  /\ allowed_dirs (state_after (process_command env command self)) = allowed_dirs self
  /\ allowed_dirs (state_after (handle_client turns self)) = allowed_dirs self
  /\ (isabs (cwd env) = true ->
      normpath (cwd env) = cwd env ->
      map (abspath (cwd env)) stored
      = [join2 (cwd env) "shared"; join2 (cwd env) "downloads"]
      /\ Forall (fun root => isabs root = true /\ normpath root = root)
           (map (abspath (cwd env)) stored)
      /\ NoDup (map (abspath (cwd env)) stored)).
Proof.
  intros stored. split; [reflexivity|]. split.
  { repeat constructor; discriminate. }
  split; [apply keeps_process_command|].
  split; [apply handle_client_allowed_dirs|].
  intros Habs Hnorm. split; [|split].
  - change stored with [String "." (String "/" "shared");
                        String "." (String "/" "downloads")].
    cbn [map]. rewrite !abspath_dot_join by (assumption || reflexivity).
    reflexivity.
  - apply Forall_forall. intros root Hin. apply in_map_iff in Hin as (a & <- & _).
    apply abspath_canonical, Habs.
  - apply allowed_roots_distinct, Habs.
Qed.

End Guard.

(** *** The ranking of the processes

    [sorted] is modelled by an insertion sort. Python sorts with another
    algorithm, which is stable as well; [sorted_desc_unique] shows that a
    list has one stable descending sort, so the algorithm does not
    matter. *)

Section StableSort.
Context {A : Type}.

Lemma Qle_bool_false (a b : Q) : Qle_bool a b = false -> (b < a)%Q.
Proof.
  intros H. apply Qnot_le_lt. intros Hle.
  apply Qle_bool_iff in Hle. congruence.
Qed.

Lemma insert_desc_perm (x : Q * A) (l : list (Q * A)) :
  Permutation (insert_desc x l) (x :: l).
Proof.
  induction l as [|y r IH]; simpl; [apply Permutation_refl|].
  destruct (Qle_bool (fst y) (fst x)); [apply Permutation_refl|].
  eapply perm_trans; [apply perm_skip, IH|apply perm_swap].
Qed.

Lemma sorted_desc_perm (l : list (Q * A)) : Permutation (sorted_desc l) l.
Proof.
  induction l as [|x r IH]; simpl; [constructor|].
  eapply perm_trans; [apply insert_desc_perm|apply perm_skip, IH].
Qed.

Lemma insert_desc_sorted (x : Q * A) (l : list (Q * A)) :
  StronglySorted key_ge l -> StronglySorted key_ge (insert_desc x l).
Proof.
  induction 1 as [|y r Hs IH Hy]; simpl; [repeat constructor|].
  destruct (Qle_bool (fst y) (fst x)) eqn:E.
  - apply Qle_bool_iff in E. constructor; [constructor; assumption|].
    constructor; [exact E|].
    eapply Forall_impl; [|exact Hy]. intros z Hz. unfold key_ge in *.
    eapply Qle_trans; eassumption.
  - constructor; [exact IH|].
    apply Qle_bool_false in E.
    eapply Permutation_Forall; [apply Permutation_sym, insert_desc_perm|].
    constructor; [apply Qlt_le_weak, E|exact Hy].
Qed.

Lemma sorted_desc_sorted (l : list (Q * A)) : StronglySorted key_ge (sorted_desc l).
Proof.
  induction l as [|x r IH]; simpl; [constructor|].
  apply insert_desc_sorted, IH.
Qed.

(** The sort is stable: the items of one key keep their order. *)
Lemma insert_desc_stable (k : Q) (x : Q * A) (l : list (Q * A)) :
  filter (fun y => Qeq_bool (fst y) k) (insert_desc x l)
  = filter (fun y => Qeq_bool (fst y) k) (x :: l).
Proof.
  induction l as [|y r IH]; [reflexivity|].
  cbn [insert_desc]. destruct (Qle_bool (fst y) (fst x)) eqn:E; [reflexivity|].
  cbn [filter] in *. rewrite IH.
  destruct (Qeq_bool (fst x) k) eqn:Ex; [|reflexivity].
  destruct (Qeq_bool (fst y) k) eqn:Ey; [|reflexivity].
  exfalso. apply Qle_bool_false in E.
  apply Qeq_bool_iff in Ex, Ey.
  apply (Qlt_irrefl k). rewrite <- Ex at 1. rewrite <- Ey. exact E.
Qed.

Lemma sorted_desc_stable (k : Q) (l : list (Q * A)) :
  filter (fun y => Qeq_bool (fst y) k) (sorted_desc l)
  = filter (fun y => Qeq_bool (fst y) k) l.
Proof.
  induction l as [|x r IH]; [reflexivity|].
  cbn [sorted_desc]. rewrite insert_desc_stable. cbn [filter]. rewrite IH.
  reflexivity.
Qed.

Lemma key_ge_head_max (x : Q * A) (r l : list (Q * A)) (y : Q * A) :
  StronglySorted key_ge (x :: r) -> Permutation (x :: r) l -> In y l ->
  (fst y <= fst x)%Q.
Proof.
  intros Hs Hp Hy. apply Permutation_sym in Hp.
  apply (Permutation_in _ Hp) in Hy as [<-|Hy]; [apply Qle_refl|].
  inversion Hs as [|? ? _ Hf]; subst. rewrite Forall_forall in Hf. exact (Hf y Hy).
Qed.

(** A list has one stable descending sort: two lists with the same items,
    both in descending order of the keys, and with the items of every key
    in the same order, are equal. *)
Lemma stable_sort_unique (l1 l2 : list (Q * A)) :
  Permutation l1 l2 ->
  StronglySorted key_ge l1 ->
  StronglySorted key_ge l2 ->
  (forall k, filter (fun y => Qeq_bool (fst y) k) l1
             = filter (fun y => Qeq_bool (fst y) k) l2) ->
  l1 = l2.
Proof.
  revert l2. induction l1 as [|x r1 IH]; intros l2 Hp H1 H2 Hf.
  - apply Permutation_nil in Hp. congruence.
  - destruct l2 as [|y r2];
      [apply Permutation_sym, Permutation_nil in Hp; discriminate Hp|].
    assert (Hxy : (fst x <= fst y)%Q).
    { apply (key_ge_head_max y r2 (x :: r1) x H2 (Permutation_sym Hp)). now left. }
    assert (Hyx : (fst y <= fst x)%Q).
    { apply (key_ge_head_max x r1 (y :: r2) y H1 Hp). now left. }
    assert (Heq : Qeq_bool (fst y) (fst x) = true)
      by (apply Qeq_bool_iff, Qle_antisym; assumption).
    assert (Hx : x = y).
    { specialize (Hf (fst x)). cbn [filter] in Hf.
      rewrite Heq in Hf.
      assert (Hr : Qeq_bool (fst x) (fst x) = true) by (apply Qeq_bool_iff, Qeq_refl).
      rewrite Hr in Hf. congruence. }
    subst y. f_equal. apply IH.
    + exact (Permutation_cons_inv Hp).
    + inversion H1; assumption.
    + inversion H2; assumption.
    + intros k. specialize (Hf k). cbn [filter] in Hf.
      destruct (Qeq_bool (fst x) k); congruence.
Qed.

(** So [sorted_desc] is the result of every stable descending sort. *)
Lemma sorted_desc_unique (l l' : list (Q * A)) :
  Permutation l' l ->
  StronglySorted key_ge l' ->
  (forall k, filter (fun y => Qeq_bool (fst y) k) l'
             = filter (fun y => Qeq_bool (fst y) k) l) ->
  l' = sorted_desc l.
Proof.
  intros Hp Hs Hf. apply stable_sort_unique.
  - eapply perm_trans; [exact Hp|apply Permutation_sym, sorted_desc_perm].
  - exact Hs.
  - apply sorted_desc_sorted.
  - intros k. rewrite Hf, sorted_desc_stable. reflexivity.
Qed.
End StableSort.

(** The sort does not look at what the items carry. *)
Lemma insert_desc_map {A B} (f : A -> B) (x : Q * A) (l : list (Q * A)) :
  insert_desc (fst x, f (snd x)) (map (fun y => (fst y, f (snd y))) l)
  = map (fun y => (fst y, f (snd y))) (insert_desc x l).
Proof.
  induction l as [|y r IH]; [reflexivity|].
  cbn [map insert_desc fst]. destruct (Qle_bool (fst y) (fst x)); [reflexivity|].
  cbn [map]. rewrite <- IH. reflexivity.
Qed.

Lemma sorted_desc_map {A B} (f : A -> B) (l : list (Q * A)) :
  sorted_desc (map (fun y => (fst y, f (snd y))) l)
  = map (fun y => (fst y, f (snd y))) (sorted_desc l).
Proof.
  induction l as [|x r IH]; [reflexivity|].
  cbn [map sorted_desc]. rewrite IH. apply insert_desc_map.
Qed.

Lemma StronglySorted_app_inv {A} (R : A -> A -> Prop) (l1 l2 : list A) :
  StronglySorted R (l1 ++ l2)%list ->
  forall a b, In a l1 -> In b l2 -> R a b.
Proof.
  induction l1 as [|x r IH]; intros H a b Ha Hb; [destruct Ha|].
  cbn [app] in H. inversion H as [|? ? Hs Hf]; subst.
  destruct Ha as [<-|Ha].
  - rewrite Forall_forall in Hf. apply Hf, in_or_app. now right.
  - exact (IH Hs a b Ha Hb).
Qed.

Lemma StronglySorted_map {A B} (R : A -> A -> Prop) (S : B -> B -> Prop)
      (f : A -> B) (l : list A) :
  (forall a b, R a b -> S (f a) (f b)) ->
  StronglySorted R l -> StronglySorted S (map f l).
Proof.
  intros HRS. induction 1 as [|x r Hs IH Hx]; cbn [map]; constructor; [exact IH|].
  rewrite Forall_map. eapply Forall_impl; [|exact Hx]. intros; now apply HRS.
Qed.

Lemma StronglySorted_firstn {A} (R : A -> A -> Prop) (n : nat) (l : list A) :
  StronglySorted R l -> StronglySorted R (firstn n l).
Proof.
  revert n. induction l as [|x r IH]; intros n H; [rewrite firstn_nil; constructor|].
  destruct n as [|n]; [constructor|].
  inversion H as [|? ? Hs Hx]; subst. cbn [firstn]. constructor; [apply IH, Hs|].
  rewrite Forall_forall in *. intros y Hy. apply Hx.
  rewrite <- (firstn_skipn n r). apply in_or_app. now left.
Qed.

Section Processes.
Context {PF : PyFloat}.

Lemma ranked_perm (infos : list proc_info) : Permutation (ranked infos) infos.
Proof.
  unfold ranked. eapply perm_trans.
  - apply Permutation_map, sorted_desc_perm.
  - rewrite map_map. cbn [snd]. rewrite map_id. apply Permutation_refl.
Qed.

Lemma sorted_desc_keys (infos : list proc_info) :
  Forall (fun x => fst x = sort_key (snd x))
         (sorted_desc (map (fun i => (sort_key i, i)) infos)).
Proof.
  eapply Permutation_Forall; [apply Permutation_sym, sorted_desc_perm|].
  rewrite Forall_map. apply Forall_forall. reflexivity.
Qed.

Lemma Forall_StronglySorted_map_snd (l : list (Q * proc_info)) :
  Forall (fun x => fst x = sort_key (snd x)) l ->
  StronglySorted key_ge l ->
  StronglySorted ranks_before (map snd l).
Proof.
  intros Hk Hs. induction Hs as [|x r Hs IH Hx]; cbn [map]; [constructor|].
  inversion Hk as [|? ? Hkx Hkr]; subst. constructor; [apply IH, Hkr|].
  rewrite Forall_map. rewrite Forall_forall in *. intros y Hy.
  unfold ranks_before. rewrite <- Hkx, <- (Hkr y Hy). exact (Hx y Hy).
Qed.

Lemma ranked_sorted (infos : list proc_info) :
  StronglySorted ranks_before (ranked infos).
Proof.
  apply Forall_StronglySorted_map_snd; [apply sorted_desc_keys|apply sorted_desc_sorted].
Qed.

Lemma filter_map_snd_keys (k : Q) (l : list (Q * proc_info)) :
  Forall (fun x => fst x = sort_key (snd x)) l ->
  with_key k (map snd l) = map snd (filter (fun y => Qeq_bool (fst y) k) l).
Proof.
  induction 1 as [|x r Hx Hr IH]; [reflexivity|].
  unfold with_key in *. cbn [map filter]. rewrite <- Hx, IH.
  destruct (Qeq_bool (fst x) k); reflexivity.
Qed.

Lemma ranked_stable (k : Q) (infos : list proc_info) :
  with_key k (ranked infos) = with_key k infos.
Proof.
  unfold ranked. rewrite filter_map_snd_keys by apply sorted_desc_keys.
  rewrite sorted_desc_stable.
  rewrite <- filter_map_snd_keys by (rewrite Forall_map; apply Forall_forall; reflexivity).
  rewrite map_map. cbn [snd]. rewrite map_id. reflexivity.
Qed.

Lemma decorate_readable (infos : list proc_info) :
  decorate (map readable infos)
  = map (fun y => (fst y, readable (snd y)))
        (map (fun i => (sort_key i, i)) infos).
Proof. unfold decorate. rewrite !map_map. reflexivity. Qed.

Lemma append_infos_readable (l acc : list proc_info) :
  append_infos (map readable l) acc = (acc ++ l)%list.
Proof.
  revert acc. induction l as [|i r IH]; intros acc; cbn [map append_infos readable info].
  - rewrite app_nil_r. reflexivity.
  - cbn [map readable] in IH. rewrite IH, <- app_assoc. reflexivity.
Qed.

(** The list the handler builds is the first ten of the ranking. *)
Lemma top_processes_readable (infos : list proc_info) :
  top_processes (map readable infos) = firstn 10 (ranked infos).
Proof.
  unfold top_processes. rewrite decorate_readable, sorted_desc_map.
  rewrite firstn_map, map_map. cbn [snd].
  rewrite <- (map_map snd readable), append_infos_readable.
  unfold ranked. rewrite firstn_map. reflexivity.
Qed.

(** A process object is its [info]. *)
Lemma processes_readable (procs : list Process) :
  procs = map readable (map info procs).
Proof.
  rewrite map_map. induction procs as [|[i] r IH]; [reflexivity|].
  cbn [map]. rewrite <- IH. reflexivity.
Qed.

End Processes.

(** *** Encoding and decoding *)

(** **** Numbers *)

Lemma number_end_digits (rest : string) :
  number_end rest = true -> scan_digits rest = ("", rest).
Proof.
  destruct rest as [|c r]; [reflexivity|]. cbn [number_end scan_digits].
  destruct (is_digit c); [discriminate|reflexivity].
Qed.

Lemma scan_digits_app (s rest : string) :
  number_end rest = true ->
  scan_digits (s ++ rest) = (fst (scan_digits s), snd (scan_digits s) ++ rest).
Proof.
  intros Hr. induction s as [|c s IH]; cbn [append scan_digits].
  - apply number_end_digits, Hr.
  - destruct (is_digit c); [|reflexivity].
    rewrite IH. destruct (scan_digits s). reflexivity.
Qed.

Lemma scan_int_part_app (s rest ip r : string) :
  number_end rest = true ->
  scan_int_part s = Some (ip, r) ->
  scan_int_part (s ++ rest) = Some (ip, r ++ rest).
Proof.
  intros Hr. destruct s as [|c s]; [discriminate|].
  cbn [append scan_int_part]. destruct (Ascii.eqb c "0").
  - intros [= <- <-]. reflexivity.
  - destruct (is_digit c); [|discriminate].
    rewrite (scan_digits_app _ _ Hr). destruct (scan_digits s).
    intros [= <- <-]. reflexivity.
Qed.

Lemma scan_frac_app (s rest : string) :
  number_end rest = true ->
  scan_frac (s ++ rest) = (fst (scan_frac s), snd (scan_frac s) ++ rest).
Proof.
  intros Hr. destruct s as [|c s].
  - destruct rest as [|c r]; [reflexivity|]. cbn [number_end] in Hr.
    cbn [append scan_frac]. destruct (Ascii.eqb c "."); [|reflexivity].
    rewrite !orb_true_r in Hr. discriminate Hr.
  - cbn [append scan_frac]. destruct (Ascii.eqb c "."); [|reflexivity].
    rewrite (scan_digits_app _ _ Hr). destruct (scan_digits s) as [[|d ds] r];
      reflexivity.
Qed.

Lemma number_end_head (c : ascii) (r : string) :
  number_end (String c r) = true ->
  is_digit c = false /\ Ascii.eqb c "." = false /\ Ascii.eqb c "e" = false
  /\ Ascii.eqb c "E" = false /\ Ascii.eqb c "+" = false /\ Ascii.eqb c "-" = false.
Proof.
  cbn [number_end]. intros H. apply negb_true_iff in H.
  repeat (apply orb_false_elim in H as [H ?]). auto 10.
Qed.

Lemma scan_exp_app (s rest : string) :
  number_end rest = true ->
  scan_exp (s ++ rest) = (fst (scan_exp s), snd (scan_exp s) ++ rest).
Proof.
  intros Hr. destruct s as [|e s].
  - destruct rest as [|c r]; [reflexivity|].
    destruct (number_end_head _ _ Hr) as (_ & _ & He & HE & _).
    cbn [append scan_exp]. rewrite He, HE. reflexivity.
  - cbn [append scan_exp]. destruct (Ascii.eqb e "e" || Ascii.eqb e "E"); [|reflexivity].
    destruct s as [|c s0].
    + cbn [append]. destruct rest as [|c r]; [reflexivity|].
      destruct (number_end_head _ _ Hr) as (Hd & _ & _ & _ & Hp & Hm).
      rewrite Hp, Hm. cbn [orb scan_digits]. rewrite Hd. reflexivity.
    + cbn [append]. destruct (Ascii.eqb c "+" || Ascii.eqb c "-").
      * rewrite (scan_digits_app _ _ Hr). destruct (scan_digits s0) as [[|d ds] r];
          reflexivity.
      * change (String c (s0 ++ rest)) with (String c s0 ++ rest).
        rewrite (scan_digits_app _ _ Hr).
        destruct (scan_digits (String c s0)) as [[|d ds] r]; reflexivity.
Qed.

(** Text after a number that cannot continue it does not change the match. *)
Lemma scan_number_app (s rest lit r : string) (fl : bool) :
  number_end rest = true ->
  scan_number s = Some (lit, fl, r) ->
  scan_number (s ++ rest) = Some (lit, fl, r ++ rest).
Proof.
  intros Hr. unfold scan_number. destruct s as [|c s]; [discriminate|].
  cbn [append].
  assert (Hgen : forall sg s1,
    match scan_int_part s1 with
    | None => None
    | Some (ip, r1) =>
        let (fp, r2) := scan_frac r1 in
        let (ep, r3) := scan_exp r2 in
        Some (sg ++ ip ++ fp ++ ep, negb ((fp =? "")%string && (ep =? "")%string), r3)
    end = Some (lit, fl, r) ->
    match scan_int_part (s1 ++ rest) with
    | None => None
    | Some (ip, r1) =>
        let (fp, r2) := scan_frac r1 in
        let (ep, r3) := scan_exp r2 in
        Some (sg ++ ip ++ fp ++ ep, negb ((fp =? "")%string && (ep =? "")%string), r3)
    end = Some (lit, fl, r ++ rest)).
  { intros sg s1. destruct (scan_int_part s1) as [[ip r1]|] eqn:Ei; [|discriminate].
    rewrite (scan_int_part_app _ _ _ _ Hr Ei), (scan_frac_app _ _ Hr).
    destruct (scan_frac r1) as [fp r2]. cbn [fst snd].
    rewrite (scan_exp_app _ _ Hr). destruct (scan_exp r2) as [ep r3]. cbn [fst snd].
    intros [= <- <- <-]. reflexivity. }
  destruct (Ascii.eqb c "-").
  - apply Hgen.
  - change (String c (s ++ rest)) with (String c s ++ rest). apply Hgen.
Qed.

(** A text at whose head a number is found starts with a sign or a digit. *)
Lemma scan_number_head (s : string) :
  scan_number s <> None ->
  exists c t, s = String c t /\ (Ascii.eqb c "-" || is_digit c) = true.
Proof.
  destruct s as [|c t]; [intros H; exfalso; apply H; reflexivity|].
  intros H. exists c, t. split; [reflexivity|].
  unfold scan_number in H. destruct (Ascii.eqb c "-"); [reflexivity|].
  cbn [orb]. cbn [scan_int_part] in H.
  destruct (Ascii.eqb_spec c "0") as [->|_]; [reflexivity|].
  destruct (is_digit c); [reflexivity|]. exfalso. apply H. reflexivity.
Qed.

(** **** Integers *)

Lemma string_of_uint_digits (d : Decimal.uint) :
  scan_digits (NilEmpty.string_of_uint d) = (NilEmpty.string_of_uint d, "").
Proof.
  induction d; cbn [NilEmpty.string_of_uint scan_digits]; [reflexivity|..];
    change (is_digit _) with true; cbv iota; rewrite IHd; reflexivity.
Qed.

Lemma pos_to_uint_head (p : positive) :
  exists c t,
    NilEmpty.string_of_uint (Pos.to_uint p) = String c t
    /\ Ascii.eqb c "0" = false /\ is_digit c = true.
Proof.
  assert (Hn : Pos.to_uint p = Decimal.nzhead (Pos.to_uint p)).
  { assert (Hu : Decimal.unorm (Pos.to_uint p) = Pos.to_uint p).
    { rewrite <- DecimalPos.Unsigned.to_of, DecimalPos.Unsigned.of_to. reflexivity. }
    assert (Hz : Decimal.nzhead (Pos.to_uint p) <> Decimal.Nil).
    { intros E. apply DecimalFacts.unorm_0 in E. rewrite Hu in E.
      exact (DecimalPos.Unsigned.to_uint_nonzero p E). }
    rewrite <- (DecimalFacts.unorm_nzhead _ Hz). symmetry. exact Hu. }
  assert (Hnil := DecimalPos.Unsigned.to_uint_nonnil p).
  assert (H0 := DecimalFacts.nzhead_nonzero (Pos.to_uint p)).
  rewrite <- Hn in H0.
  destruct (Pos.to_uint p) as [|d|d|d|d|d|d|d|d|d|d];
    [congruence|exfalso; exact (H0 d eq_refl)|..];
    eexists _, _; (split; [reflexivity|split; reflexivity]).
Qed.

Lemma str_of_Z_number (z : Z) :
  scan_number (str_of_Z z) = Some (str_of_Z z, false, "").
Proof.
  assert (Hpos : forall p sg,
    match scan_int_part (NilEmpty.string_of_uint (Pos.to_uint p)) with
    | None => None
    | Some (ip, r1) =>
        let (fp, r2) := scan_frac r1 in
        let (ep, r3) := scan_exp r2 in
        Some (sg ++ ip ++ fp ++ ep, negb ((fp =? "")%string && (ep =? "")%string), r3)
    end = Some (sg ++ NilEmpty.string_of_uint (Pos.to_uint p), false, "")).
  { intros p sg. destruct (pos_to_uint_head p) as (c & t & E & Hz & Hd).
    assert (Ht := string_of_uint_digits (Pos.to_uint p)).
    rewrite E in *. cbn [scan_int_part scan_digits] in *. rewrite Hz, Hd in *.
    destruct (scan_digits t) as [ds r]. injection Ht as -> ->.
    cbn. rewrite !append_nil_r. reflexivity. }
  assert (Hnz : forall p, NilZero.string_of_uint (Pos.to_uint p)
                          = NilEmpty.string_of_uint (Pos.to_uint p)).
  { intros p. assert (Hnil := DecimalPos.Unsigned.to_uint_nonnil p).
    destruct (Pos.to_uint p); [congruence|reflexivity..]. }
  destruct z as [|p|p]; [reflexivity| |].
  - unfold str_of_Z. cbn [Z.to_int NilZero.string_of_int]. rewrite Hnz.
    destruct (pos_to_uint_head p) as (c & t & E & Hz & Hd).
    unfold scan_number. rewrite E.
    assert (Hm : Ascii.eqb c "-" = false).
    { destruct (Ascii.eqb_spec c "-") as [->|]; [discriminate Hd|reflexivity]. }
    rewrite Hm, <- E. apply (Hpos p "").
  - unfold str_of_Z. cbn [Z.to_int NilZero.string_of_int]. rewrite Hnz.
    unfold scan_number. rewrite Ascii.eqb_refl. apply (Hpos p "-").
Qed.

Lemma Z_of_literal_str_of_Z (z : Z) : Z_of_literal (str_of_Z z) = z.
Proof.
  unfold Z_of_literal, str_of_Z. rewrite NilZero.isi.
  - apply DecimalZ.of_to.
  - destruct z; cbn [Z.to_int]; intros [= H];
      try exact (DecimalPos.Unsigned.to_uint_nonnil _ H); discriminate H.
  - destruct z; cbn [Z.to_int]; intros [= H];
      exact (DecimalPos.Unsigned.to_uint_nonnil _ H).
Qed.

(** **** Strings *)

Lemma scan_string_escape_char (c : ascii) (rest : string) :
  scan_string (escape_char c ++ rest)
  = match scan_string rest with
    | inr (t, r') => inr (String c t, r')
    | inl e => inl e
    end.
Proof.
  destruct c as [b0 b1 b2 b3 b4 b5 b6 b7].
  destruct b0, b1, b2, b3, b4, b5, b6, b7; reflexivity.
Qed.

Lemma scan_string_escape (s rest : string) :
  scan_string (escape s ++ String dquote rest) = inr (s, rest).
Proof.
  induction s as [|c s IH]; [reflexivity|].
  cbn [escape]. rewrite append_assoc, scan_string_escape_char, IH. reflexivity.
Qed.

Lemma scan_string_encode (s rest : string) :
  exists t, encode_string s ++ rest = String dquote t
            /\ scan_string t = inr (s, rest).
Proof.
  exists (escape s ++ String dquote rest). split.
  - unfold encode_string. cbn [append]. rewrite append_assoc. reflexivity.
  - apply scan_string_escape.
Qed.

(** **** White space *)

Lemma skip_ws_spaces (n : nat) (s : string) :
  skip_ws (repeat_char " " n ++ s) = skip_ws s.
Proof. induction n as [|n IH]; [reflexivity|exact IH]. Qed.

Lemma skip_ws_newline_indent (level : nat) (s : string) :
  skip_ws (newline_indent level ++ s) = skip_ws s.
Proof. unfold newline_indent. cbn [append skip_ws is_ws]. apply skip_ws_spaces. Qed.

Lemma skip_ws_head (c : ascii) (s : string) :
  is_ws c = false -> skip_ws (String c s) = String c s.
Proof. intros H. cbn [skip_ws]. rewrite H. reflexivity. Qed.

Lemma length_newline_indent (level : nat) :
  1 <= String.length (newline_indent level).
Proof. unfold newline_indent. cbn [String.length]. lia. Qed.

(** **** Atoms *)

Section Atoms.
Context {PF : PyFloat}.

Lemma scan_atom_number (s lit r : string) (fl : bool) :
  scan_number s = Some (lit, fl, r) ->
  scan_atom s
  = Some (if fl then JFloat (float_of_literal lit) else JInt (Z_of_literal lit), r).
Proof.
  intros H. destruct s as [|c t]; [discriminate H|].
  destruct c as [b0 b1 b2 b3 b4 b5 b6 b7].
  destruct b0, b1, b2, b3, b4, b5, b6, b7;
    try discriminate H;
    try (unfold scan_atom; rewrite H; destruct fl; reflexivity).
Qed.

Lemma parse_value_number (fuel depth : nat) (s lit r : string) (fl : bool) :
  scan_number s = Some (lit, fl, r) ->
  parse_value (S fuel) depth s
  = inr (if fl then JFloat (float_of_literal lit) else JInt (Z_of_literal lit), r).
Proof.
  intros H. assert (Ha := scan_atom_number _ _ _ _ H).
  destruct (scan_number_head s) as (c & t & -> & Hc); [congruence|].
  cbn [parse_value].
  destruct (Ascii.eqb_spec c dquote) as [->|_]; [discriminate Hc|].
  destruct (Ascii.eqb_spec c "{") as [->|_]; [discriminate Hc|].
  destruct (Ascii.eqb_spec c "[") as [->|_]; [discriminate Hc|].
  rewrite Ha. reflexivity.
Qed.

End Atoms.

(** **** The round trip *)

Section RoundTrip.
Context {PF : PyFloat} {PI : Interpreter}.

(** The depth of a container bounds the depth of what it holds. *)
Lemma nesting_arr (l : list json) (depth : nat) :
  nesting (JArr l) <= S depth <-> Forall (fun x => nesting x <= depth) l.
Proof.
  cbn [nesting]. rewrite <- Nat.succ_le_mono.
  induction l as [|x l IH]; cbn [fold_right].
  - split; [constructor|lia].
  - rewrite Nat.max_lub_iff, IH. split.
    + intros [Hx Hl]. constructor; assumption.
    + intros H. inversion H; subst. split; assumption.
Qed.

Lemma nesting_obj (m : list (string * json)) (depth : nat) :
  nesting (JObj m) <= S depth <-> Forall (fun kv => nesting (snd kv) <= depth) m.
Proof.
  cbn [nesting]. rewrite <- Nat.succ_le_mono.
  induction m as [|x l IH]; cbn [fold_right].
  - split; [constructor|lia].
  - rewrite Nat.max_lub_iff, IH. split.
    + intros [Hx Hl]. constructor; assumption.
    + intros H. inversion H; subst. split; assumption.
Qed.

(** Induction on a value with the hypothesis for the items of an array and
    the values of a dictionary. *)
Lemma json_nested_ind (P : json -> Prop) :
  P JNull ->
  (forall b, P (JBool b)) ->
  (forall z, P (JInt z)) ->
  (forall x, P (JFloat x)) ->
  (forall s, P (JStr s)) ->
  (forall l, Forall P l -> P (JArr l)) ->
  (forall m, Forall (fun kv => P (snd kv)) m -> P (JObj m)) ->
  forall j, P j.
Proof.
  intros Hn Hb Hz Hx Hs Ha Ho. fix IH 1. intros [|b|z|x|s|l|m].
  - exact Hn.
  - apply Hb.
  - apply Hz.
  - apply Hx.
  - apply Hs.
  - apply Ha. induction l as [|a l IHl]; constructor; [apply IH|exact IHl].
  - apply Ho. induction m as [|kv m IHm]; constructor; [apply IH|exact IHm].
Qed.

Lemma wf_json_arr (l : list json) : wf_json (JArr l) <-> Forall wf_json l.
Proof.
  cbn [wf_json]. induction l as [|x l IH]; cbn [fold_right].
  - split; constructor.
  - split.
    + intros [Hx Hl]. constructor; [exact Hx|apply IH, Hl].
    + intros H. inversion H; subst. split; [assumption|apply IH; assumption].
Qed.

Lemma wf_json_obj (m : list (string * json)) :
  wf_json (JObj m) <-> NoDup (map fst m) /\ Forall (fun kv => wf_json (snd kv)) m.
Proof.
  cbn [wf_json]. apply and_iff_compat_l.
  induction m as [|x l IH]; cbn [fold_right].
  - split; constructor.
  - split.
    + intros [Hx Hl]. constructor; [exact Hx|apply IH, Hl].
    + intros H. inversion H; subst. split; [assumption|apply IH; assumption].
Qed.

Lemma number_head_plain (c : ascii) :
  (Ascii.eqb c "-" || is_digit c) = true ->
  is_ws c = false /\ Ascii.eqb c "]" = false.
Proof.
  destruct c as [b0 b1 b2 b3 b4 b5 b6 b7].
  destruct b0, b1, b2, b3, b4, b5, b6, b7; intros H; try discriminate H;
    split; reflexivity.
Qed.

(** The text of a value starts with a character that is neither white
    space nor a closing bracket. *)
Lemma dumps_at_head (j : json) (level : nat) :
  wf_json j ->
  exists c t, dumps_at level j = String c t
              /\ is_ws c = false /\ Ascii.eqb c "]" = false.
Proof.
  intros Hwf. destruct j as [|[]|z|x|s|l|m]; cbn [dumps_at].
  - eexists _, _; repeat split; reflexivity.
  - eexists _, _; repeat split; reflexivity.
  - eexists _, _; repeat split; reflexivity.
  - destruct (scan_number_head (str_of_Z z)) as (c & t & E & Hc);
      [rewrite str_of_Z_number; discriminate|].
    exists c, t. split; [exact E|apply number_head_plain, Hc].
  - destruct Hwf as [Hs _].
    destruct (scan_number_head (float_repr x)) as (c & t & E & Hc);
      [rewrite Hs; discriminate|].
    exists c, t. split; [exact E|apply number_head_plain, Hc].
  - eexists _, _; repeat split; reflexivity.
  - destruct l; eexists _, _; repeat split; reflexivity.
  - destruct m; eexists _, _; repeat split; reflexivity.
Qed.

Lemma skip_ws_dumps_at (j : json) (level : nat) (rest : string) :
  wf_json j -> skip_ws (dumps_at level j ++ rest) = dumps_at level j ++ rest.
Proof.
  intros Hwf. destruct (dumps_at_head j level Hwf) as (c & t & -> & Hc & _).
  cbn [append]. apply skip_ws_head, Hc.
Qed.

Lemma length_dumps_at (j : json) (level : nat) :
  wf_json j -> 1 <= String.length (dumps_at level j).
Proof.
  intros Hwf. destruct (dumps_at_head j level Hwf) as (c & t & -> & _).
  cbn [String.length]. lia.
Qed.

(** A list of pairs with distinct keys is the dictionary made from it. *)
Lemma dict_set_fresh (m : list (string * json)) (k : string) (v : json) :
  ~ In k (map fst m) -> dict_set m k v = (m ++ [(k, v)])%list.
Proof.
  induction m as [|[k' v'] m IH]; cbn [dict_set map fst In app]; [reflexivity|].
  intros H. destruct (String.eqb_spec k' k) as [->|_]; [exfalso; apply H; now left|].
  rewrite IH; [reflexivity|]. intros Hin. apply H. now right.
Qed.

Lemma dict_of_pairs_nodup (m : list (string * json)) :
  NoDup (map fst m) -> dict_of_pairs m = m.
Proof.
  unfold dict_of_pairs.
  assert (H : forall acc, NoDup (map fst (acc ++ m)%list) ->
            fold_left (fun d kv => dict_set d (fst kv) (snd kv)) m acc = (acc ++ m)%list).
  { induction m as [|[k v] m IH]; intros acc Hn; cbn [fold_left fst snd].
    - rewrite app_nil_r. reflexivity.
    - rewrite dict_set_fresh.
      + rewrite IH; rewrite <- app_assoc; [reflexivity|exact Hn].
      + rewrite map_app in Hn. cbn [map fst] in Hn.
        apply NoDup_remove_2 in Hn. intros Hin. apply Hn, in_or_app. now left. }
  intros Hn. exact (H [] Hn).
Qed.

(** The items of a container after the first, as [bracket] writes them. *)
Lemma join_cons (sep x : string) (l : list string) :
  l <> [] -> join sep (x :: l) = x ++ sep ++ join sep l.
Proof. destruct l; [congruence|reflexivity]. Qed.

Lemma number_end_newline_indent (level : nat) (s : string) :
  number_end (newline_indent level ++ s) = true.
Proof. reflexivity. Qed.

Lemma parse_elems_dumps (level : nat) (l : list json) :
  l <> [] ->
  Forall wf_json l ->
  Forall (fun x => wf_json x -> forall lv rest fuel depth,
            number_end rest = true ->
            String.length (dumps_at lv x) <= fuel ->
            nesting x <= depth ->
            parse_value fuel depth (dumps_at lv x ++ rest) = inr (x, rest)) l ->
  forall rest fuel depth,
    String.length (join ("," ++ newline_indent (S level))
                        (map (dumps_at (S level)) l)) < fuel ->
    Forall (fun x => nesting x <= depth) l ->
    parse_elems fuel depth
      (join ("," ++ newline_indent (S level)) (map (dumps_at (S level)) l)
       ++ newline_indent level ++ "]" ++ rest)
    = inr (l, rest).
Proof.
  induction l as [|x l IHl]; [congruence|]. intros _ Hwf HP rest fuel depth Hlen Hdp.
  inversion Hwf as [|? ? Hx Hl]; subst. inversion HP as [|? ? Px Pl]; subst.
  inversion Hdp as [|? ? Dx Dl]; subst.
  destruct fuel as [|f]; [lia|]. cbn [parse_elems].
  destruct l as [|y l'].
  - cbn [map join] in *.
    rewrite (Px Hx (S level) _ f depth (number_end_newline_indent _ _)) by (lia || exact Dx).
    rewrite skip_ws_newline_indent. reflexivity.
  - cbn [map] in *. rewrite join_cons in * by discriminate.
    rewrite length_append, length_append in Hlen.
    assert (Hsep := length_newline_indent (S level)).
    cbn [append String.length] in Hlen.
    rewrite !append_assoc. cbn [append].
    rewrite (Px Hx (S level) (String "," _) f depth eq_refl) by (lia || exact Dx).
    rewrite (skip_ws_head "," _ eq_refl).
    change (Ascii.eqb "," "]") with false. change (Ascii.eqb "," ",") with true.
    cbv iota. rewrite skip_ws_newline_indent.
    destruct (dumps_at_head y (S level)) as (c & t & E & Hc & _);
      [inversion Hl; assumption|].
    assert (IH := fun H => IHl ltac:(discriminate) Hl Pl rest f depth H Dl).
    change ("," ++ newline_indent (S level))
      with (String "," (newline_indent (S level))) in IH.
    assert (Hj : exists t', join (String "," (newline_indent (S level)))
                              (dumps_at (S level) y :: map (dumps_at (S level)) l')
                            = String c t').
    { destruct l'; cbn [map join]; rewrite E; eexists; reflexivity. }
    destruct Hj as [t' Hj]. rewrite Hj in *. cbn [append] in *.
    rewrite (skip_ws_head c _ Hc), IH by (cbn [String.length] in *; lia).
    reflexivity.
Qed.

Lemma length_encode_string (k : string) : 2 <= String.length (encode_string k).
Proof.
  unfold encode_string. cbn [String.length]. rewrite length_append.
  cbn [String.length]. lia.
Qed.

(** The members of a dictionary are read back, each value by its own round
    trip. *)
Lemma parse_members_dumps (level : nat) (m : list (string * json)) :
  m <> [] ->
  Forall (fun kv => wf_json (snd kv)) m ->
  Forall (fun kv => wf_json (snd kv) -> forall lv rest fuel depth,
            number_end rest = true ->
            String.length (dumps_at lv (snd kv)) <= fuel ->
            nesting (snd kv) <= depth ->
            parse_value fuel depth (dumps_at lv (snd kv) ++ rest)
            = inr (snd kv, rest)) m ->
  forall rest fuel depth,
    String.length
      (join ("," ++ newline_indent (S level))
         (map (fun kv => encode_string (fst kv) ++ ": " ++ dumps_at (S level) (snd kv)) m))
    < fuel ->
    Forall (fun kv => nesting (snd kv) <= depth) m ->
    parse_members fuel depth
      (join ("," ++ newline_indent (S level))
         (map (fun kv => encode_string (fst kv) ++ ": " ++ dumps_at (S level) (snd kv)) m)
       ++ newline_indent level ++ "}" ++ rest)
    = inr (m, rest).
Proof.
  induction m as [|[k v] m IHm]; [congruence|]. intros _ Hwf HP rest fuel depth Hlen Hdp.
  inversion Hwf as [|? ? Hv Hm]; subst. inversion HP as [|? ? Pv Pm]; subst.
  inversion Hdp as [|? ? Dv Dm]; subst.
  cbn [fst snd] in Hv, Pv, Dv.
  destruct fuel as [|f]; [lia|].
  assert (Hk := length_encode_string k).
  destruct m as [|[k' v'] m'].
  - cbn [map join fst snd] in *.
    rewrite !length_append in Hlen. cbn [String.length] in Hlen.
    rewrite !append_assoc.
    match goal with
    | |- parse_members _ _ (encode_string k ++ ?R) = _ =>
        destruct (scan_string_encode k R) as (t & -> & Ht)
    end.
    cbn [parse_members]. rewrite Ascii.eqb_refl, Ht.
    cbn [append]. rewrite (skip_ws_head ":" _ eq_refl).
    change (Ascii.eqb ":" ":") with true. cbv iota.
    change (skip_ws (String " " ?s)) with (skip_ws s).
    rewrite (skip_ws_dumps_at _ _ _ Hv).
    rewrite (Pv Hv (S level) _ f depth (number_end_newline_indent _ _))
      by (lia || exact Dv).
    rewrite skip_ws_newline_indent. reflexivity.
  - cbn [map] in *. rewrite join_cons in * by discriminate.
    cbn [fst snd] in *.
    rewrite !length_append in Hlen.
    assert (Hsep := length_newline_indent (S level)).
    cbn [append String.length] in Hlen.
    rewrite !append_assoc.
    match goal with
    | |- parse_members _ _ (encode_string k ++ ?R) = _ =>
        destruct (scan_string_encode k R) as (t & -> & Ht)
    end.
    cbn [parse_members]. rewrite Ascii.eqb_refl, Ht.
    cbn [append]. rewrite (skip_ws_head ":" _ eq_refl).
    change (Ascii.eqb ":" ":") with true. cbv iota.
    change (skip_ws (String " " ?s)) with (skip_ws s).
    rewrite (skip_ws_dumps_at _ _ _ Hv).
    rewrite (Pv Hv (S level) (String "," _) f depth eq_refl) by (lia || exact Dv).
    rewrite (skip_ws_head "," _ eq_refl).
    change (Ascii.eqb "," "}") with false. change (Ascii.eqb "," ",") with true.
    cbv iota. rewrite skip_ws_newline_indent.
    assert (IH := fun H => IHm ltac:(discriminate) Hm Pm rest f depth H Dm).
    cbn [map fst snd] in IH.
    change ("," ++ newline_indent (S level))
      with (String "," (newline_indent (S level))) in IH.
    assert (Hj : exists t',
      join (String "," (newline_indent (S level)))
        ((encode_string k' ++ ": " ++ dumps_at (S level) v')
         :: map (fun kv => encode_string (fst kv) ++ ": " ++ dumps_at (S level) (snd kv)) m')
      = String dquote t').
    { destruct m'; cbn [map join encode_string append]; eexists; reflexivity. }
    destruct Hj as [t' Hj]. cbn [append] in *. rewrite Hj in *. cbn [append] in *.
    rewrite (skip_ws_head dquote _ eq_refl), IH by (cbn [String.length] in *; lia).
    reflexivity.
Qed.

(** What [dumps_at] writes, the scanner reads back when it has the depth
    for it, whatever follows that cannot continue a number. *)
Lemma parse_dumps_at (j : json) :
  wf_json j ->
  forall level rest fuel depth,
    number_end rest = true ->
    String.length (dumps_at level j) <= fuel ->
    nesting j <= depth ->
    parse_value fuel depth (dumps_at level j ++ rest) = inr (j, rest).
Proof.
  induction j as [|b|z|x|s|l IHl|m IHm] using json_nested_ind;
    intros Hwf level rest fuel depth Hr Hlen Hdp;
    (destruct fuel as [|f];
     [assert (H1 := length_dumps_at _ level Hwf); lia|]).
  - reflexivity.
  - destruct b; reflexivity.
  - cbn [dumps_at].
    rewrite (parse_value_number f depth _ _ _ _
               (scan_number_app _ _ _ _ _ Hr (str_of_Z_number z))).
    rewrite Z_of_literal_str_of_Z. reflexivity.
  - cbn [dumps_at]. destruct Hwf as [Hs Hf].
    rewrite (parse_value_number f depth _ _ _ _ (scan_number_app _ _ _ _ _ Hr Hs)).
    rewrite Hf. reflexivity.
  - cbn [dumps_at]. destruct (scan_string_encode s rest) as (t & -> & Ht).
    cbn [parse_value]. rewrite Ascii.eqb_refl, Ht. reflexivity.
  - destruct depth as [|d]; [cbn [nesting] in Hdp; lia|].
    apply nesting_arr in Hdp.
    apply wf_json_arr in Hwf. cbn [dumps_at] in *. unfold bracket in *.
    destruct l as [|x l']; [reflexivity|].
    set (items := map (dumps_at (S level)) (x :: l')) in *.
    assert (Hi : items <> []) by discriminate.
    destruct items as [|i0 items'] eqn:Ei; [congruence|]. rewrite <- Ei in *.
    rewrite !length_append in Hlen. cbn [String.length] in Hlen.
    assert (H1 := length_newline_indent (S level)).
    rewrite !append_assoc. cbn [append parse_value].
    change (Ascii.eqb "[" dquote) with false. change (Ascii.eqb "[" "{") with false.
    change (Ascii.eqb "[" "[") with true. cbv iota.
    rewrite skip_ws_newline_indent.
    assert (Hp := fun H => parse_elems_dumps level (x :: l') ltac:(discriminate)
                            Hwf IHl rest f d H Hdp).
    fold items in Hp.
    destruct (dumps_at_head x (S level)) as (c & t & E & Hc & Hb);
      [inversion Hwf; assumption|].
    assert (Hj : exists t', join ("," ++ newline_indent (S level)) items = String c t').
    { unfold items. destruct l'; cbn [map join]; rewrite E; eexists; reflexivity. }
    destruct Hj as [t' Hj]. cbn [append] in *. rewrite Hj in *. cbn [append] in *.
    rewrite (skip_ws_head c _ Hc), Hb, Hp by (cbn [String.length] in *; lia).
    reflexivity.
  - destruct depth as [|d]; [cbn [nesting] in Hdp; lia|].
    apply nesting_obj in Hdp.
    apply wf_json_obj in Hwf as [Hnd Hwf]. cbn [dumps_at] in *. unfold bracket in *.
    destruct m as [|kv m']; [reflexivity|].
    set (items := map (fun kv => encode_string (fst kv) ++ ": "
                                 ++ dumps_at (S level) (snd kv)) (kv :: m')) in *.
    assert (Hi : items <> []) by discriminate.
    destruct items as [|i0 items'] eqn:Ei; [congruence|]. rewrite <- Ei in *.
    rewrite !length_append in Hlen. cbn [String.length] in Hlen.
    assert (H1 := length_newline_indent (S level)).
    rewrite !append_assoc. cbn [append parse_value].
    change (Ascii.eqb "{" dquote) with false. change (Ascii.eqb "{" "{") with true.
    cbv iota. rewrite skip_ws_newline_indent.
    assert (Hp := fun H => parse_members_dumps level (kv :: m') ltac:(discriminate)
                            Hwf IHm rest f d H Hdp).
    fold items in Hp.
    assert (Hj : exists t', join ("," ++ newline_indent (S level)) items
                            = String dquote t').
    { unfold items. destruct m'; cbn [map join encode_string append];
        eexists; reflexivity. }
    destruct Hj as [t' Hj]. cbn [append] in *. rewrite Hj in *. cbn [append] in *.
    rewrite (skip_ws_head dquote _ eq_refl).
    change (Ascii.eqb dquote "}") with false. cbv iota.
    rewrite Hp by (cbn [String.length] in *; lia).
    rewrite (dict_of_pairs_nodup _ Hnd). reflexivity.
Qed.

(** Decoding what was encoded gives the value back, when the value is no
    deeper than the decoder goes. *)
Lemma loads_dumps_within (j : json) :
  wf_json j -> nesting j <= decoder_depth -> loads (dumps j) = inr j.
Proof.
  intros Hwf Hdp. unfold loads, dumps.
  rewrite <- (append_nil_r (dumps_at 0 j)) at 2.
  rewrite (skip_ws_dumps_at j 0 "" Hwf).
  rewrite (parse_dumps_at j Hwf 0 "" _ _ eq_refl) by (lia || exact Hdp).
  reflexivity.
Qed.

(** The responses of the server are at most two deep. *)
Lemma loads_dumps (j : json) : wf_json j -> nesting j <= 2 -> loads (dumps j) = inr j.
Proof.
  intros Hwf Hdp. apply loads_dumps_within; [exact Hwf|].
  unfold decoder_depth. lia.
Qed.

End RoundTrip.

(** *** The metric handlers *)

Section Metrics.
Context {PF : PyFloat} {PI : Interpreter}.

(** The dictionary of a process has the three keys, in some order, with
    the attributes as their values. *)
Lemma info_dict_entries (order : attr_order) (i : proc_info) :
  exists m,
    info_dict order i = JObj m
    /\ Permutation (dict_keys m) ["pid"; "name"; "memory_percent"]
    /\ dict_get m "pid" = Some (JInt (pid i))
    /\ dict_get m "name" = Some (json_of_option JStr (name i))
    /\ dict_get m "memory_percent" = Some (json_of_option JFloat (memory_percent i)).
Proof.
  eexists. split; [reflexivity|]. split; [|destruct order; repeat split; reflexivity].
  apply NoDup_Permutation.
  - destruct order; repeat constructor; cbn; intuition discriminate.
  - repeat constructor; cbn; intuition discriminate.
  - intros k. destruct order; cbn; intuition.
Qed.

(** C5, the code against the claim. The response to [processes] encodes
    the first ten entries of the ranking of the processes that the provider
    yields: exactly ten when there are that many, all of them otherwise; the
    ranking is a rearrangement of the processes in descending order of
    memory percent, a percentage that was not read counting as zero; entries
    of equal percentage keep the order in which the provider gave them;
    whatever is left out ranks no higher than what is kept; and every entry
    is a dictionary with exactly the keys [pid], [name] and
    [memory_percent], in the order of the interpreter, that holds the three
    attributes. Against the claim, no process is passed over: the handler
    lists each of ten processes or fewer, and a process whose attributes
    [psutil] was denied is ranked and listed with [null] values like any
    other. *)
Theorem processes_top_ten
        (env : Env) (args : string) (self : RemoteServer) (infos : list proc_info) :
  process_iter env = inr (map readable infos) ->
  let top := firstn 10 (ranked infos) in
  get_running_processes env args self
  = (inr (dumps (JArr (map (info_dict (info_order env)) top))), self, [])
  /\ List.length top = Nat.min 10 (List.length infos)
  /\ Permutation (ranked infos) infos
  /\ StronglySorted ranks_before (ranked infos)
  /\ (forall a b, In a top -> In b (skipn 10 (ranked infos)) -> ranks_before a b)
  /\ (forall k, with_key k (ranked infos) = with_key k infos)
  /\ (forall i, exists m,
        info_dict (info_order env) i = JObj m
        /\ Permutation (dict_keys m) ["pid"; "name"; "memory_percent"]
        /\ dict_get m "pid" = Some (JInt (pid i))
        /\ dict_get m "name" = Some (json_of_option JStr (name i))
        /\ dict_get m "memory_percent"
           = Some (json_of_option JFloat (memory_percent i)))
  /\ (List.length infos <= 10 -> Permutation top infos).
Proof.
  intros Hp top. repeat split.
  - rewrite get_running_processes_eq. unfold processes_info.
    rewrite Hp, top_processes_readable. reflexivity.
  - unfold top. rewrite length_firstn, (Permutation_length (ranked_perm infos)).
    reflexivity.
  - apply ranked_perm.
  - apply ranked_sorted.
  - apply StronglySorted_app_inv. unfold top. rewrite firstn_skipn.
    apply ranked_sorted.
  - intros k. apply ranked_stable.
  - intros i. apply info_dict_entries.
  - intros Hlen. unfold top. rewrite firstn_all2; [apply ranked_perm|].
    rewrite (Permutation_length (ranked_perm infos)). exact Hlen.
Qed.

(** **** Dictionaries built by assignment *)

Lemma dict_set_keys (m : list (string * json)) (k : string) (v : json) :
  forall k', In k' (dict_keys (dict_set m k v)) <-> In k' (dict_keys m) \/ k' = k.
Proof.
  unfold dict_keys. induction m as [|[k0 v0] m IH]; intros k'; cbn [dict_set map fst In].
  - intuition.
  - destruct (String.eqb_spec k0 k) as [->|N]; cbn [map fst In].
    + intuition.
    + rewrite IH. intuition.
Qed.

Lemma dict_set_nodup (m : list (string * json)) (k : string) (v : json) :
  NoDup (dict_keys m) -> NoDup (dict_keys (dict_set m k v)).
Proof.
  unfold dict_keys. induction m as [|[k0 v0] m IH]; cbn [dict_set map fst]; intros H.
  - constructor; [intros []|constructor].
  - inversion H as [|? ? Hn Hm]; subst.
    destruct (String.eqb_spec k0 k) as [->|N]; cbn [map fst].
    + constructor; assumption.
    + constructor; [|apply IH, Hm].
      intros Hin. apply (dict_set_keys m k v k0) in Hin as [Hin|Hin];
        [exact (Hn Hin)|congruence].
Qed.

Lemma dict_set_values (P : json -> Prop) (m : list (string * json)) (k : string) (v : json) :
  P v -> Forall (fun kv => P (snd kv)) m ->
  Forall (fun kv => P (snd kv)) (dict_set m k v).
Proof.
  intros Hv. induction 1 as [|[k0 v0] m H0 Hm IH]; cbn [dict_set].
  - repeat constructor. exact Hv.
  - destruct (k0 =? k)%string; constructor; assumption.
Qed.

Lemma disk_loop_keys (env : Env) (mounts : list string) (acc : list (string * json)) :
  forall k, In k (dict_keys (disk_loop env mounts acc))
            <-> In k (dict_keys acc)
                \/ (In k mounts /\ exists usage, disk_usage env k = inr usage).
Proof.
  revert acc. induction mounts as [|mp r IH]; intros acc k; cbn [disk_loop In].
  - split; [auto|intros [H|[[] _]]; exact H].
  - destruct (disk_usage env mp) as [e|usage] eqn:E.
    + rewrite IH. split.
      * intros [H|[H1 H2]]; [now left|right; split; [now right|exact H2]].
      * intros [H|[[<-|H1] [u H2]]]; [now left|congruence|right; split; eauto].
    + rewrite IH, dict_set_keys. split.
      * intros [[H| ->]|[H1 H2]]; [now left|right; split; [now left|eauto]|].
        right. split; [now right|exact H2].
      * intros [H|[[<-|H1] H2]]; [left; now left|left; now right|right; split; assumption].
Qed.

Lemma disk_loop_nodup (env : Env) (mounts : list string) (acc : list (string * json)) :
  NoDup (dict_keys acc) -> NoDup (dict_keys (disk_loop env mounts acc)).
Proof.
  revert acc. induction mounts as [|mp r IH]; intros acc H; cbn [disk_loop]; [exact H|].
  destruct (disk_usage env mp); apply IH; [exact H|apply dict_set_nodup, H].
Qed.

Lemma disk_loop_values (P : json -> Prop) (env : Env) (mounts : list string)
      (acc : list (string * json)) :
  (forall usage, P (usage_dict usage)) ->
  Forall (fun kv => P (snd kv)) acc ->
  Forall (fun kv => P (snd kv)) (disk_loop env mounts acc).
Proof.
  intros HP. revert acc. induction mounts as [|mp r IH]; intros acc H;
    cbn [disk_loop]; [exact H|].
  destruct (disk_usage env mp); apply IH; [exact H|apply dict_set_values; auto].
Qed.

Lemma dict_get_in (m : list (string * json)) (k : string) (v : json) :
  dict_get m k = Some v -> In (k, v) m.
Proof.
  induction m as [|[k0 v0] m IH]; cbn [dict_get]; [discriminate|].
  destruct (String.eqb_spec k0 k) as [->|_].
  - intros [= ->]. now left.
  - intros H. right. exact (IH H).
Qed.

Lemma wf_usage_dict (usage : sdiskusage) : wf_json (usage_dict usage).
Proof.
  apply wf_json_obj. split.
  - repeat constructor; cbn; intuition discriminate.
  - repeat constructor.
Qed.

(** C6, as the code has it. In a provider state in which the introspection
    calls succeed and the floats are finite, decoding the encoded response
    of [cpu] gives a dictionary whose keys are exactly [cpu_percent],
    [cpu_freq], [cpu_count] and [cpu_count_logical]: the per-core
    percentages as a sequence, the frequencies as a dictionary that may be
    empty, and the two counts as integers or [null]. The same holds for
    [memory] with the keys [total], [available], [percent_used],
    [swap_total] and [swap_used], for [netstat] with [bytes_sent],
    [bytes_recv], [packets_sent] and [packets_recv], and for [diskspace]
    with one key for each mount point whose usage query succeeds, each with
    a dictionary of the keys [total], [used], [free] and [percent]. *)
Theorem structured_responses_round_trip
        (env : Env) (args : string) (self : RemoteServer)
        (percents : list float) (freq : option scpufreq)
        (physical logical : option Z)
        (memory : svmem) (swap : sswap) (net_stats : snetio)
        (mounts : list string) :
  cpu_percent env = inr percents ->
  cpu_freq env = inr freq ->
  cpu_count_physical env = inr physical ->
  cpu_count_logical env = inr logical ->
  virtual_memory env = inr memory ->
  swap_memory env = inr swap ->
  net_io_counters env = inr (Some net_stats) ->
  disk_partitions env = inr mounts ->
  Forall float_ok percents ->
  freq_ok freq ->
  (exists response m freq_dict,
     get_cpu_info env args self = (inr response, self, [])
     /\ loads response = inr (JObj m)
     /\ dict_keys m = ["cpu_percent"; "cpu_freq"; "cpu_count"; "cpu_count_logical"]
     /\ dict_get m "cpu_percent" = Some (JArr (map JFloat percents))
     /\ dict_get m "cpu_freq" = Some (JObj freq_dict)
     /\ (dict_keys freq_dict = [] \/ dict_keys freq_dict = ["current"; "min"; "max"])
     /\ dict_get m "cpu_count" = Some (json_of_option JInt physical)
     /\ dict_get m "cpu_count_logical" = Some (json_of_option JInt logical))
  /\ (exists response m,
        get_memory_info env args self = (inr response, self, [])
        /\ loads response = inr (JObj m)
        /\ dict_keys m
           = ["total"; "available"; "percent_used"; "swap_total"; "swap_used"])
  /\ (exists response m,
        get_network_stats env args self = (inr response, self, [])
        /\ loads response = inr (JObj m)
        /\ dict_keys m = ["bytes_sent"; "bytes_recv"; "packets_sent"; "packets_recv"])
  /\ (exists response m,
        get_disk_space env args self = (inr response, self, [])
        /\ loads response = inr (JObj m)
        /\ NoDup (dict_keys m)
        /\ (forall k, In k (dict_keys m)
                      <-> In k mounts /\ exists usage, disk_usage env k = inr usage)
        /\ (forall k v, dict_get m k = Some v ->
            exists um, v = JObj um
                       /\ dict_keys um = ["total"; "used"; "free"; "percent"])).
Proof.
  intros Hcp Hcf Hph Hlo Hvm Hsw Hnet Hdp Hfl Hfr. repeat split.
  - assert (Hwf : wf_json (cpu_freq_dict freq)).
    { destruct freq as [f|]; [|cbn; repeat constructor].
      apply wf_json_obj. split.
      - repeat constructor; cbn; intuition discriminate.
      - destruct Hfr as (H1 & H2 & H3).
        constructor; [exact H1|]. constructor; [exact H2|].
        constructor; [exact H3|constructor]. }
    assert (Hd : exists freq_dict,
               cpu_freq_dict freq = JObj freq_dict
               /\ (dict_keys freq_dict = []
                   \/ dict_keys freq_dict = ["current"; "min"; "max"])).
    { destruct freq; eexists; (split; [reflexivity|]); [right|left]; reflexivity. }
    destruct Hd as (freq_dict & Hd & Hkeys).
    eexists _, _, freq_dict. rewrite get_cpu_info_eq. unfold cpu_info.
    rewrite Hcp, Hcf, Hph, Hlo. split; [reflexivity|]. split.
    + apply loads_dumps.
      * apply wf_json_obj. split.
        -- repeat constructor; cbn; intuition discriminate.
        -- constructor; [apply wf_json_arr; rewrite Forall_map; exact Hfl|].
           constructor; [exact Hwf|].
           constructor; [destruct physical; exact I|].
           constructor; [destruct logical; exact I|constructor].
      * apply nesting_obj. repeat apply Forall_cons; try apply Forall_nil; cbn [snd].
        -- apply nesting_arr, Forall_map, Forall_forall. intros; cbn; lia.
        -- destruct freq; cbn; lia.
        -- destruct physical; cbn; lia.
        -- destruct logical; cbn; lia.
    + rewrite <- Hd. repeat split; try reflexivity. exact Hkeys.
  - eexists _, _. rewrite get_memory_info_eq. unfold mem_info. rewrite Hvm, Hsw.
    split; [reflexivity|]. split.
    + apply loads_dumps; [apply wf_json_obj; split|cbn; lia].
      * repeat constructor; cbn; intuition discriminate.
      * repeat constructor.
    + reflexivity.
  - eexists _, _. rewrite get_network_stats_eq. unfold net_info. rewrite Hnet.
    split; [reflexivity|]. split.
    + apply loads_dumps; [apply wf_json_obj; split|cbn; lia].
      * repeat constructor; cbn; intuition discriminate.
      * repeat constructor.
    + reflexivity.
  - eexists _, _. rewrite get_disk_space_eq. unfold disk_info. rewrite Hdp.
    split; [reflexivity|]. split; [|split; [|split]].
    + apply loads_dumps.
      * apply wf_json_obj. split.
        -- apply (disk_loop_nodup env mounts []). constructor.
        -- apply disk_loop_values; [apply wf_usage_dict|constructor].
      * apply nesting_obj.
        apply (disk_loop_values (fun v => nesting v <= 1));
          [intros usage; cbn; lia|constructor].
    + apply (disk_loop_nodup env mounts []). constructor.
    + intros k. rewrite disk_loop_keys. cbn [dict_keys map In]. intuition.
    + intros k v Hg. apply dict_get_in in Hg.
      assert (H := disk_loop_values
                     (fun v => exists um, v = JObj um
                               /\ dict_keys um = ["total"; "used"; "free"; "percent"])
                     env mounts []
                     (fun usage => ex_intro _ _ (conj eq_refl eq_refl))
                     (Forall_nil _)).
      rewrite Forall_forall in H. exact (H _ Hg).
Qed.

End Metrics.

(** *** Failures inside the handlers *)

Section Failures.
Context {PF : PyFloat}.

Lemma dict_get_set_same (m : list (string * json)) (k : string) (v : json) :
  dict_get (dict_set m k v) k = Some v.
Proof.
  induction m as [|[k0 v0] m IH]; cbn [dict_set dict_get].
  - rewrite String.eqb_refl. reflexivity.
  - destruct (String.eqb_spec k0 k) as [->|N]; cbn [dict_get].
    + rewrite String.eqb_refl. reflexivity.
    + destruct (String.eqb_spec k0 k); [congruence|exact IH].
Qed.

Lemma dict_get_set_other (m : list (string * json)) (k k' : string) (v : json) :
  k <> k' -> dict_get (dict_set m k v) k' = dict_get m k'.
Proof.
  intros N. induction m as [|[k0 v0] m IH]; cbn [dict_set dict_get].
  - destruct (String.eqb_spec k k'); [congruence|reflexivity].
  - destruct (String.eqb_spec k0 k) as [->|N0]; cbn [dict_get].
    + destruct (String.eqb_spec k k'); [congruence|reflexivity].
    + rewrite IH. reflexivity.
Qed.

(** A mount point whose usage is read has that usage in the dictionary. *)
Lemma disk_loop_get (env : Env) (mounts : list string) (acc : list (string * json))
      (k : string) (usage : sdiskusage) :
  disk_usage env k = inr usage ->
  In k mounts \/ dict_get acc k = Some (usage_dict usage) ->
  dict_get (disk_loop env mounts acc) k = Some (usage_dict usage).
Proof.
  intros Hu. revert acc. induction mounts as [|mp r IH]; intros acc H; cbn [disk_loop].
  - destruct H as [[]|H]. exact H.
  - destruct (String.eqb_spec mp k) as [->|N].
    + rewrite Hu. apply IH. right. apply dict_get_set_same.
    + destruct (disk_usage env mp) as [e|u]; apply IH.
      * destruct H as [[E|H]|H]; [congruence|now left|now right].
      * destruct H as [[E|H]|H]; [congruence|now left|].
        right. rewrite dict_get_set_other by exact N. exact H.
Qed.

(** An exception that leaves [process_command] is logged and ends the
    loop. *)
Lemma loop_body_raises (t : turn) (self self' : RemoteServer)
      (data : string) (e : exn) (evs : list event) :
  client self = SockOpen ->
  turn_recv t = RecvData data ->
  data <> "" ->
  process_command (turn_env t) data self = (inl e, self', evs) ->
  loop_body t self = (Break, self', (evs ++ [LogError (session_log e)])%list).
Proof.
  intros Hc Hr Hd Hp. unfold loop_body.
  rewrite (loop_body_received t self data Hc Hr Hd), Hp.
  unfold session_log. destruct (exn_class e); reflexivity.
Qed.

(** C3, as the code has it. A failure that a handler catches itself is
    answered and the session goes on: [listdir] turns any failure to list
    into the text of its response, and [diskspace] passes over the mount
    points whose usage query raises and answers with the usage of the
    others. An exception that leaves a handler is caught by the loop of
    [handle_client]: it is logged, nothing is sent to the peer in that turn,
    and the loop ends. That is so for the first introspection call of [cpu]
    or of [memory] that raises, for the call of [netstat] when it raises or
    finds no interface, for the iteration over the processes of
    [processes], and for the listing of the partitions of [diskspace]. *)
Theorem handler_failure_containment
        (t : turn) (self : RemoteServer) (data : string) :
  client self = SockOpen ->
  turn_recv t = RecvData data ->
  data <> "" ->
  turn_send_error t = None ->
  let env := turn_env t in
  let ends_with (e : exn) :=
    loop_body t self = (Break, self, [LogError (session_log e)]) in
  (keyword data = "listdir" ->
   exists response,
     loop_body t self = (Continue, self, [Sent response])
     /\ forall e,
          path_allowed env (allowed_dirs self)
            (abspath (cwd env) (join2 "." (strip (argument data)))) = true ->
          os_listdir env
            (abspath (cwd env) (join2 "." (strip (argument data)))) = inl e ->
          response = "Error listing directory: " ++ exn_msg e)
  /\ (keyword data = "diskspace" ->
      (forall e, disk_partitions env = inl e -> ends_with e)
      /\ (forall mounts, disk_partitions env = inr mounts ->
          exists m,
            loop_body t self = (Continue, self, [Sent (dumps (JObj m))])
            /\ NoDup (dict_keys m)
            /\ (forall k, In k (dict_keys m)
                          <-> In k mounts /\ succeeds (disk_usage env k))
            /\ (forall k usage, In k mounts -> disk_usage env k = inr usage ->
                dict_get m k = Some (usage_dict usage))))
  /\ (keyword data = "cpu" ->
      forall e,
        cpu_percent env = inl e
        \/ (succeeds (cpu_percent env) /\ cpu_freq env = inl e)
        \/ (succeeds (cpu_percent env) /\ succeeds (cpu_freq env)
            /\ cpu_count_physical env = inl e)
        \/ (succeeds (cpu_percent env) /\ succeeds (cpu_freq env)
            /\ succeeds (cpu_count_physical env) /\ cpu_count_logical env = inl e) ->
        ends_with e)
  /\ (keyword data = "memory" ->
      forall e,
        virtual_memory env = inl e
        \/ (succeeds (virtual_memory env) /\ swap_memory env = inl e) ->
        ends_with e)
  /\ (keyword data = "netstat" ->
      (forall e, net_io_counters env = inl e -> ends_with e)
      /\ (net_io_counters env = inr None ->
          ends_with (Exn OtherException
                         "'NoneType' object has no attribute 'bytes_sent'")))
  /\ (keyword data = "processes" ->
      forall e, process_iter env = inl e -> ends_with e)
  /\ (forall e self' evs,
        process_command env data self = (inl e, self', evs) ->
        loop_body t self = (Break, self', (evs ++ [LogError (session_log e)])%list)).
Proof.
  intros Hc Hr Hd Hs env ends_with.
  assert (Hraise : forall handler e,
            lookup commands (keyword data) = Some handler ->
            handler env (argument data) self = (inl e, self, []) ->
            ends_with e).
  { intros handler e Hl He. unfold ends_with.
    apply (loop_body_raises t self self data e [] Hc Hr Hd).
    rewrite process_command_eq. fold env. rewrite Hl. exact He. }
  split; [|split; [|split; [|split; [|split; [|split]]]]].
  - intros Hk.
    destruct (list_directory_returns env self (argument data)) as [r Hl].
    exists r. split.
    + apply (loop_body_answers t self data r Hc Hr Hd Hs).
      rewrite process_command_eq, Hk. exact Hl.
    + intros e Ha He. rewrite (list_directory_error _ _ _ e Ha He) in Hl.
      congruence.
  - intros Hk. split.
    + intros e He. apply (Hraise get_disk_space); [rewrite Hk; reflexivity|].
      rewrite get_disk_space_eq. unfold disk_info. rewrite He. reflexivity.
    + intros mounts Hm. exists (disk_loop env mounts []). split; [|split; [|split]].
      * apply (loop_body_answers t self data _ Hc Hr Hd Hs).
        rewrite process_command_eq, Hk.
        cbn [lookup commands String.eqb Ascii.eqb Bool.eqb].
        rewrite get_disk_space_eq. unfold disk_info. fold env. rewrite Hm.
        reflexivity.
      * apply (disk_loop_nodup env mounts []). constructor.
      * intros k. rewrite disk_loop_keys. cbn [dict_keys map In].
        unfold succeeds. intuition.
      * intros k usage Hin Hu. apply disk_loop_get; [exact Hu|now left].
  - intros Hk e He. apply (Hraise get_cpu_info); [rewrite Hk; reflexivity|].
    rewrite get_cpu_info_eq. unfold cpu_info.
    destruct He as [He|[([? H1] & He)|[([? H1] & [? H2] & He)
                                        |([? H1] & [? H2] & [? H3] & He)]]];
      rewrite ?H1, ?H2, ?H3, He; reflexivity.
  - intros Hk e He. apply (Hraise get_memory_info); [rewrite Hk; reflexivity|].
    rewrite get_memory_info_eq. unfold mem_info.
    destruct He as [He|([? H1] & He)]; rewrite ?H1, He; reflexivity.
  - intros Hk. split.
    + intros e He. apply (Hraise get_network_stats); [rewrite Hk; reflexivity|].
      rewrite get_network_stats_eq. unfold net_info. rewrite He. reflexivity.
    + intros He. apply (Hraise get_network_stats); [rewrite Hk; reflexivity|].
      rewrite get_network_stats_eq. unfold net_info. rewrite He. reflexivity.
  - intros Hk e He. apply (Hraise get_running_processes); [rewrite Hk; reflexivity|].
    rewrite get_running_processes_eq. unfold processes_info. rewrite He. reflexivity.
  - intros e self' evs Hp.
    exact (loop_body_raises t self self' data e evs Hc Hr Hd Hp).
Qed.

End Failures.

(** *** The renderer of the client *)

Section Renderer.
Context {PF : PyFloat} {PI : Interpreter} {PH : Host}.
Variable repr : json -> string.



(** A command that starts with [listdir] starts with none of the keywords
    tested before it; likewise for the four that are dumped. *)
Lemma startswith_first (command p q : string) (a b : ascii) :
  Ascii.eqb a b = false ->
  startswith command (String a p) = true ->
  startswith command (String b q) = false.
Proof.
  intros Hab. destruct command as [|c r]; [discriminate|]. cbn [startswith].
  destruct (Ascii.eqb_spec a c) as [<-|]; [|discriminate].
  rewrite Ascii.eqb_sym, Hab. reflexivity.
Qed.

Lemma iterate_strings (items : list string) :
  iterate (JArr (map JStr items)) = inr (map JStr items).
Proof. reflexivity. Qed.


End Renderer.

(** *** The theorems on the sample host *)

(** The server runs in [/srv]; beside the allowed directory [/srv/shared]
    there is a directory [/srv/shared_private]. The canonical form of the
    argument [shared_private] is [/srv/shared_private], which is neither an
    allowed root nor below one. The guard compares strings: [/srv/shared] is
    a prefix of [/srv/shared_private], the path passes, and the content of
    the directory is sent to the peer instead of the access-denied
    response. *)
Example listdir_lists_sibling_of_allowed_root :
  abspath "/srv" (join2 "." (strip "shared_private")) = "/srv/shared_private"
  /\ map (abspath "/srv") (allowed_dirs connected) = ["/srv/shared"; "/srv/downloads"]
  /\ forallb (fun root => negb (spec_within root "/srv/shared_private"))
       ["/srv/shared"; "/srv/downloads"] = true
  /\ path_allowed sample_env (allowed_dirs connected) "/srv/shared_private" = true
  /\ list_directory sample_env "shared_private" connected
     = (inr (dumps (JObj [("path", JStr "/srv/shared_private");
                          ("contents", JArr [JStr "passwords.txt"])])),
        connected, [])
  /\ handle_client [says sample_env "listdir shared_private"] connected
     = (Waiting, connected,
        [Sent (dumps (JObj [("path", JStr "/srv/shared_private");
                            ("contents", JArr [JStr "passwords.txt"])]))]).
Proof. repeat split; reflexivity. Qed.

Lemma listdir_passes_sibling_of_shared_witness :
  (forall root, In root ["./shared"; "./downloads"] ->
                spec_within (abspath "/srv" root) "/srv/shared_private" = false)
  /\ path_allowed sample_env (allowed_dirs connected) "/srv/shared_private" = true
  /\ exists response,
       list_directory sample_env "shared_private" connected
       = (inr response, connected, [])
       /\ response <> access_denied.
Proof.
  apply (listdir_passes_sibling_of_shared sample_env connected "_private");
    try reflexivity.
  - left. reflexivity.
  - discriminate.
Defined.

(** A path that leaves the working directory is denied. *)
Example listdir_parent_denied :
  list_directory sample_env "../../etc" connected = (inr access_denied, connected, []).
Proof. reflexivity. Qed.

Lemma exit_closes_before_acknowledging_witness :
  exists self',
    process_command sample_env "exit" connected
    = (inr "Server shutting down...", self',
       [ClientClosed; ListenerClosed; LogInfo "Server cleaned up and shut down"])
    /\ client self' = SockClosed
    /\ loop_body (says sample_env "exit") connected
       = (Break, self',
          [ClientClosed; ListenerClosed; LogInfo "Server cleaned up and shut down";
           LogError "Error handling client: [Errno 9] Bad file descriptor"])
    /\ handle_client [says sample_env "exit"; says sample_env "time"] connected
       = (Returned, self',
          [ClientClosed; ListenerClosed; LogInfo "Server cleaned up and shut down";
           LogError "Error handling client: [Errno 9] Bad file descriptor"])
    /\ forall response, ~ In (Sent response)
         [ClientClosed; ListenerClosed; LogInfo "Server cleaned up and shut down";
          LogError "Error handling client: [Errno 9] Bad file descriptor"].
Proof.
  apply (exit_closes_before_acknowledging
           (says sample_env "exit") [says sample_env "time"] connected "exit");
    reflexivity.
Defined.

(** C3 as stated fails: [psutil.cpu_percent] is refused while the server
    handles [cpu]; no response is sent, and the loop has returned although
    the peer has a [time] command waiting. *)
Lemma cpu_failure_ends_session :
  cpu_info denied_env = inl (Exn AccessDenied "psutil.AccessDenied")
  /\ handle_client [says denied_env "cpu"; says sample_env "time"] connected
     = (Returned, connected, [LogError "Error handling client: psutil.AccessDenied"]).
Proof. split; reflexivity. Qed.

Lemma handler_failure_containment_witness :
  (exists m,
     loop_body (says sample_env "diskspace") connected
     = (Continue, connected, [Sent (dumps (JObj m))])
     /\ (forall k, In k (dict_keys m)
                   <-> In k ["/"; "/mnt/cdrom"] /\ succeeds (disk_usage sample_env k))
     /\ dict_get m "/"
        = Some (usage_dict {| du_total := 64424509440; du_used := 21474836480;
                              du_free := 42949672960; du_percent := flt "33.3" |}))
  /\ loop_body (says denied_env "cpu") connected
     = (Break, connected, [LogError "Error handling client: psutil.AccessDenied"]).
Proof.
  split.
  - destruct (handler_failure_containment
                (says sample_env "diskspace") connected "diskspace"
                eq_refl eq_refl ltac:(discriminate) eq_refl)
      as (_ & H & _).
    destruct (proj2 (H eq_refl) _ eq_refl) as (m & H1 & _ & H2 & H3).
    exists m. split; [exact H1|]. split; [exact H2|].
    apply H3; [now left|reflexivity].
  - destruct (handler_failure_containment
                (says denied_env "cpu") connected "cpu"
                eq_refl eq_refl ltac:(discriminate) eq_refl)
      as (_ & _ & H & _).
    exact (H eq_refl _ (or_introl eq_refl)).
Defined.

(** C4 as stated fails: the argument is lower-cased, and the second space
    of the separating run stays in it. *)
Lemma echo_not_verbatim :
  process_command sample_env "echo  Hello World" connected
  = (inr "Echo:  hello world", connected, [])
  /\ "Echo:  hello world" <> "Echo: " ++ "Hello World".
Proof. split; [reflexivity|discriminate]. Qed.

Lemma echo_reply_witness :
  process_command sample_env "echo  Hello World" connected
  = (inr ("Echo: " ++ argument "echo  Hello World"), connected, [])
  /\ argument "echo  Hello World" = " hello world".
Proof.
  destruct (echo_reply sample_env connected "echo  Hello World" eq_refl)
    as (H1 & H2 & _).
  split; [exact H1|reflexivity].
Defined.

(** The ranking on the busy host. The three processes at 7.25 keep the
    order in which they were given; process 4, whose name and memory percent
    [psutil] was denied, is the last of the ten, before the two processes
    that use no memory and came after it. *)
Example ranked_busy :
  map pid (ranked busy_infos)
  = [1200; 812; 77; 950; 300; 301; 410; 640; 1; 4; 2; 9]%Z.
Proof. reflexivity. Qed.

Lemma processes_top_ten_witness :
  let top := firstn 10 (ranked busy_infos) in
  get_running_processes Scenarios.busy_env "" connected
  = (inr (dumps (JArr (map (info_dict NamePercentPid) top))), connected, [])
  /\ List.length top = 10
  /\ map pid top = [1200; 812; 77; 950; 300; 301; 410; 640; 1; 4]%Z
  /\ In unread_process top
  /\ (forall a b, In a top -> In b (skipn 10 (ranked busy_infos)) -> ranks_before a b)
  /\ exists m,
       info_dict NamePercentPid unread_process = JObj m
       /\ Permutation (dict_keys m) ["pid"; "name"; "memory_percent"]
       /\ dict_get m "pid" = Some (JInt 4)
       /\ dict_get m "name" = Some JNull
       /\ dict_get m "memory_percent" = Some JNull.
Proof.
  destruct (processes_top_ten Scenarios.busy_env "" connected busy_infos eq_refl)
    as (H1 & H2 & _ & _ & H3 & _ & H4 & _).
  split; [exact H1|]. split; [exact H2|]. split; [reflexivity|].
  split; [cbn; do 9 right; left; reflexivity|]. split; [exact H3|].
  exact (H4 unread_process).
Defined.

(** C6 as stated fails: the number of physical cores is under the key
    [cpu_count]; the decoded response has no key [cpu_count_physical]. *)
Lemma cpu_response_keys :
  exists response m,
    get_cpu_info sample_env "" connected = (inr response, connected, [])
    /\ loads response = inr (JObj m)
    /\ dict_keys m = ["cpu_percent"; "cpu_freq"; "cpu_count"; "cpu_count_logical"]
    /\ ~ In "cpu_count_physical" (dict_keys m).
Proof.
  exists (dumps (JObj [("cpu_percent", JArr [JFloat (flt "12.5"); JFloat (flt "3.0")]);
                       ("cpu_freq", JObj [("current", JFloat (flt "2400.0"));
                                          ("min", JFloat (flt "800.0"));
                                          ("max", JFloat (flt "3600.0"))]);
                       ("cpu_count", JInt 2); ("cpu_count_logical", JInt 4)])),
         [("cpu_percent", JArr [JFloat (flt "12.5"); JFloat (flt "3.0")]);
          ("cpu_freq", JObj [("current", JFloat (flt "2400.0"));
                             ("min", JFloat (flt "800.0"));
                             ("max", JFloat (flt "3600.0"))]);
          ("cpu_count", JInt 2); ("cpu_count_logical", JInt 4)].
  split; [reflexivity|]. split; [reflexivity|].
  split; [reflexivity|].
  cbn. intros H. repeat (destruct H as [H|H]; [discriminate H|]). exact H.
Qed.

Lemma float_ok_flt (s : string) :
  scan_number s = Some (s, true, "") -> float_ok (flt s).
Proof. intros H. split; [exact H|reflexivity]. Qed.

Lemma structured_responses_round_trip_witness :
  (exists response m freq_dict,
     get_cpu_info sample_env "" connected = (inr response, connected, [])
     /\ loads response = inr (JObj m)
     /\ dict_keys m = ["cpu_percent"; "cpu_freq"; "cpu_count"; "cpu_count_logical"]
     /\ dict_get m "cpu_percent" = Some (JArr (map JFloat [flt "12.5"; flt "3.0"]))
     /\ dict_get m "cpu_freq" = Some (JObj freq_dict)
     /\ (dict_keys freq_dict = [] \/ dict_keys freq_dict = ["current"; "min"; "max"])
     /\ dict_get m "cpu_count" = Some (JInt 2)
     /\ dict_get m "cpu_count_logical" = Some (JInt 4))
  /\ (exists response m,
        get_memory_info sample_env "" connected = (inr response, connected, [])
        /\ loads response = inr (JObj m)
        /\ dict_keys m = ["total"; "available"; "percent_used"; "swap_total"; "swap_used"])
  /\ (exists response m,
        get_network_stats sample_env "" connected = (inr response, connected, [])
        /\ loads response = inr (JObj m)
        /\ dict_keys m = ["bytes_sent"; "bytes_recv"; "packets_sent"; "packets_recv"]).
Proof.
  destruct (structured_responses_round_trip sample_env "" connected
              [flt "12.5"; flt "3.0"]
              (Some {| freq_current := flt "2400.0"; freq_min := flt "800.0";
                       freq_max := flt "3600.0" |})
              (Some 2%Z) (Some 4%Z)
              {| vm_total := 17179869184; vm_available := 8589934592;
                 vm_percent := flt "50.0" |}
              {| sw_total := 2147483648; sw_used := 0 |}
              {| bytes_sent := 1048576; bytes_recv := 5242880;
                 packets_sent := 100; packets_recv := 250 |}
              ["/"; "/mnt/cdrom"]
              eq_refl eq_refl eq_refl eq_refl eq_refl eq_refl eq_refl eq_refl)
    as (Hcpu & Hmem & Hnet & _).
  - repeat constructor; reflexivity.
  - repeat split; reflexivity.
  - split; [exact Hcpu|]. split; assumption.
Defined.

Lemma unknown_keyword_invalid_command_witness :
  process_command sample_env "bogus x" connected
  = (inr "Invalid command. Use 'help' to see available commands.", connected, [])
  /\ loop_body (says sample_env "bogus x") connected
     = (Continue, connected, [Sent invalid_command])
  /\ handle_client [says sample_env "bogus x"; says sample_env "time"] connected
     = (let '(st, self', evs) := handle_client [says sample_env "time"] connected in
        (st, self', Sent invalid_command :: evs)).
Proof.
  apply (unknown_keyword_invalid_command
           (says sample_env "bogus x") [says sample_env "time"] connected "bogus x");
    try reflexivity; try discriminate.
  cbn. intros H. repeat (destruct H as [H|H]; [discriminate H|]). exact H.
Defined.



(** C9 as stated fails: the entries of the allow-list are relative paths,
    none in canonical form, and the absolute paths made from them follow the
    working directory. *)
Lemma allow_list_entries_relative :
  allowed_dirs (state_after (init "127.0.0.1" 65432)) = ["./shared"; "./downloads"]
  /\ isabs "./shared" = false /\ isabs "./downloads" = false
  /\ normpath "./shared" = "shared" /\ normpath "./downloads" = "downloads"
  /\ map (abspath "/srv") ["./shared"; "./downloads"]
     = ["/srv/shared"; "/srv/downloads"]
  /\ map (abspath "/home/user") ["./shared"; "./downloads"]
     = ["/home/user/shared"; "/home/user/downloads"].
Proof. repeat split; reflexivity. Qed.

Lemma allow_list_fixed_witness :
  allowed_dirs (state_after (init "127.0.0.1" 65432)) = ["./shared"; "./downloads"]
  /\ allowed_dirs (state_after (process_command sample_env "exit" connected))
     = allowed_dirs connected
  /\ allowed_dirs (state_after
       (handle_client [says sample_env "listdir x"; says sample_env "exit"] connected))
     = allowed_dirs connected
  /\ map (abspath (cwd sample_env))
       (allowed_dirs (state_after (init "127.0.0.1" 65432)))
     = [join2 "/srv" "shared"; join2 "/srv" "downloads"]
  /\ join2 "/srv" "shared" = "/srv/shared"
  /\ join2 "/srv" "downloads" = "/srv/downloads".
Proof.
  destruct (allow_list_fixed "127.0.0.1" 65432 sample_env "exit"
              [says sample_env "listdir x"; says sample_env "exit"] connected)
    as (H1 & _ & H2 & H3 & H4).
  destruct (H4 eq_refl eq_refl) as (H5 & _).
  repeat split; assumption || reflexivity.
Defined.

Lemma blank_line_invalid_command_witness :
  keyword "   " = ""
  /\ lookup (commands (PF := decimal_float)) "" = None
  /\ process_command sample_env "   " connected = (inr invalid_command, connected, [])
  /\ loop_body (says sample_env "   ") connected
     = (Continue, connected, [Sent invalid_command])
  /\ handle_client [says sample_env "   "; says sample_env "time"] connected
     = (let '(st, self', evs) := handle_client [says sample_env "time"] connected in
        (st, self', Sent invalid_command :: evs)).
Proof.
  apply (blank_line_invalid_command
           (says sample_env "   ") [says sample_env "time"] connected "   ");
    try reflexivity; try discriminate.
  left. reflexivity.
Defined.
(** ** Part III. Further properties

    The reading of a command, the session as a whole, the start-up of the
    server, the guard of [listdir], the way of a response to the screen of
    the client, the command loop of the client and the build script. *)

Import Runs Rendering Scenarios.

(** *** Commands: how a received line is read *)

Lemma lower_char_idem (c : ascii) : lower_char (lower_char c) = lower_char c.
Proof.
  destruct c as [b0 b1 b2 b3 b4 b5 b6 b7].
  destruct b0, b1, b2, b3, b4, b5, b6, b7; reflexivity.
Qed.

Lemma lower_idem (s : string) : lower (lower s) = lower s.
Proof.
  induction s as [|c s IH]; simpl; [reflexivity|].
  rewrite lower_char_idem, IH. reflexivity.
Qed.

Lemma lower_append (a b : string) : lower (a ++ b) = lower a ++ lower b.
Proof. induction a as [|c a IH]; simpl; congruence. Qed.

Lemma length_lower (s : string) : String.length (lower s) = String.length s.
Proof. induction s as [|c s IH]; simpl; congruence. Qed.

Lemma rstrip_idem (s : string) : rstrip (rstrip s) = rstrip s.
Proof.
  induction s as [|c s IH]; [reflexivity|].
  cbn [rstrip]. destruct (rstrip s) as [|d r] eqn:E.
  - destruct (is_space c) eqn:Ec; [reflexivity|].
    cbn [rstrip]. rewrite Ec. reflexivity.
  - cbn [rstrip] in *. rewrite IH. reflexivity.
Qed.

Lemma lstrip_rstrip_lstrip (s : string) : lstrip (rstrip (lstrip s)) = rstrip (lstrip s).
Proof.
  induction s as [|c s IH]; [reflexivity|].
  cbn [lstrip]. destruct (is_space c) eqn:Ec; [exact IH|].
  cbn [rstrip]. destruct (rstrip s); rewrite ?Ec; cbn [lstrip]; rewrite Ec; reflexivity.
Qed.

Lemma strip_idem (s : string) : strip (strip s) = strip s.
Proof.
  unfold strip. rewrite lstrip_rstrip_lstrip. apply rstrip_idem.
Qed.

Lemma lstrip_pad (a s : string) : all_space a = true -> lstrip (a ++ s) = lstrip s.
Proof.
  induction a as [|c a IH]; [reflexivity|].
  cbn [all_space append lstrip]. intros H. apply andb_prop in H as [Hc Ha].
  rewrite Hc. exact (IH Ha).
Qed.

Lemma rstrip_all_space (s : string) : all_space s = true -> rstrip s = "".
Proof.
  induction s as [|c s IH]; [reflexivity|].
  cbn [all_space rstrip]. intros H. apply andb_prop in H as [Hc Hs].
  rewrite (IH Hs), Hc. reflexivity.
Qed.

Lemma rstrip_pad (s b : string) : all_space b = true -> rstrip (s ++ b) = rstrip s.
Proof.
  intros Hb. induction s as [|c s IH].
  - cbn [append]. apply rstrip_all_space, Hb.
  - cbn [append rstrip]. rewrite IH. reflexivity.
Qed.

Lemma all_space_append (a b : string) :
  all_space (a ++ b) = all_space a && all_space b.
Proof.
  induction a as [|c a IH]; [reflexivity|].
  cbn [append all_space]. rewrite IH, andb_assoc. reflexivity.
Qed.

Lemma lstrip_append (s b : string) :
  lstrip (s ++ b) = if all_space s then lstrip b else lstrip s ++ b.
Proof.
  induction s as [|c s IH]; [reflexivity|].
  cbn [append lstrip all_space]. destruct (is_space c); [exact IH|reflexivity].
Qed.

(** White space around a line does not count. *)
Lemma strip_pad (a s b : string) :
  all_space a = true -> all_space b = true -> strip (a ++ s ++ b) = strip s.
Proof.
  intros Ha Hb. unfold strip. rewrite (lstrip_pad _ _ Ha), lstrip_append.
  destruct (all_space s) eqn:Es.
  - rewrite (lstrip_all_space _ Hb), (lstrip_all_space _ Es). reflexivity.
  - apply rstrip_pad, Hb.
Qed.

Section Commands.
Context {PF : PyFloat}.

(** X1. [process_command] reads a line without regard to the case of its
    letters and to the white space around it: the line in lower case, the
    stripped line, and the line with white space put before and after it
    are processed as the line itself is. *)
Theorem process_command_normalizes (env : Env) (command : string) :
  process_command env (lower command) = process_command env command
  /\ process_command env (strip command) = process_command env command
  /\ (forall before after,
        all_space before = true -> all_space after = true ->
        process_command env (before ++ command ++ after)
        = process_command env command).
Proof.
  unfold process_command. repeat split.
  - rewrite lower_strip, lower_idem, <- lower_strip. reflexivity.
  - rewrite strip_idem. reflexivity.
  - intros before after Hb Ha. rewrite (strip_pad _ _ _ Hb Ha). reflexivity.
Qed.

Lemma cut_at_Some (sep : ascii) (s a b : string) :
  cut_at sep s = Some (a, b) -> s = a ++ String sep b /\ cut_at sep a = None.
Proof.
  revert a. induction s as [|c s IH]; intros a; [discriminate|].
  cbn [cut_at]. destruct (Ascii.eqb_spec c sep) as [->|Hc].
  - intros [= <- <-]. split; reflexivity.
  - destruct (cut_at sep s) as [[a' b']|]; [|discriminate].
    intros [= <- <-]. destruct (IH a' eq_refl) as [-> Hn]. split; [reflexivity|].
    cbn [cut_at]. apply Ascii.eqb_neq in Hc. rewrite Hc, Hn. reflexivity.
Qed.

Lemma append_inj_length (a b a' b' : string) :
  String.length a = String.length a' -> a ++ b = a' ++ b' -> a = a' /\ b = b'.
Proof.
  revert a'. induction a as [|c a IH]; intros [|c' a']; try discriminate.
  - intros _ H. split; [reflexivity|exact H].
  - cbn [String.length append]. intros [= Hl] [= -> H].
    destruct (IH _ Hl H) as [-> ->]. split; reflexivity.
Qed.

(** X2. How a received line is taken apart. The line, stripped and in lower
    case, is the keyword alone, and then the argument is empty, or it is
    the keyword, one space and the argument. The keyword holds no space,
    and neither the keyword nor the argument holds an upper-case letter. *)
Theorem command_line_parts (command : string) :
  ((lower (strip command) = keyword command /\ argument command = "")
   \/ lower (strip command) = keyword command ++ " " ++ argument command)
  /\ cut_at " " (keyword command) = None
  /\ lower (keyword command) = keyword command
  /\ lower (argument command) = argument command.
Proof.
  unfold keyword, argument, split_once.
  assert (Hl : lower (lower (strip command)) = lower (strip command))
    by apply lower_idem.
  destruct (cut_at " " (lower (strip command))) as [[a b]|] eqn:E.
  - destruct (cut_at_Some _ _ _ _ E) as [Hs Hn]. rewrite Hs in Hl.
    rewrite lower_append in Hl. cbn [lower] in Hl.
    change (lower_char " ") with " "%char in Hl.
    destruct (append_inj_length _ _ _ _ (length_lower a) Hl) as [Ha [= Hb]].
    repeat split; try assumption. right. exact Hs.
  - repeat split; try assumption. left. split; reflexivity.
Qed.

(** X3. The handlers of [sysinfo], [time], [exit], [cpu], [memory],
    [processes], [netstat] and [diskspace] do not look at their argument:
    two lines with the same one of these keywords are processed alike,
    whatever follows the keyword. *)
Theorem argument_ignored (env : Env) (command command' : string) :
  keyword command' = keyword command ->
  In (keyword command)
     ["sysinfo"; "time"; "exit"; "cpu"; "memory"; "processes"; "netstat";
      "diskspace"] ->
  process_command env command' = process_command env command.
Proof.
  intros Hk Hin. rewrite !process_command_eq, Hk.
  cbn [In] in Hin.
  repeat (destruct Hin as [<-|Hin]; [reflexivity|]). destruct Hin.
Qed.

(** What a handler of the dictionary returns when it is not [exit]: a
    result, with the server object as it was and no event. *)
Lemma handler_pure (k : string) (handler : Env -> string -> M string)
      (env : Env) (args : string) (self : RemoteServer) :
  lookup commands k = Some handler ->
  k <> "exit" ->
  exists r, handler env args self = (r, self, []).
Proof.
  unfold commands. cbn [lookup]. intros H Hk.
  repeat match type of H with
         | (if (?a =? k)%string then _ else _) = _ =>
             destruct (String.eqb_spec a k); [injection H as <-|]
         end; try discriminate H; try congruence.
  - eexists; reflexivity.
  - eexists; reflexivity.
  - eexists; reflexivity.
  - eexists; apply get_cpu_info_eq.
  - eexists; apply get_memory_info_eq.
  - eexists; apply get_running_processes_eq.
  - eexists; apply get_network_stats_eq.
  - destruct (list_directory_returns env self args) as [r Hr]. eexists; exact Hr.
  - eexists; apply get_disk_space_eq.
Qed.

Lemma process_command_pure (env : Env) (command : string) (self : RemoteServer) :
  keyword command <> "exit" ->
  exists r, process_command env command self = (r, self, []).
Proof.
  intros Hk. rewrite process_command_eq.
  destruct (lookup commands (keyword command)) as [handler|] eqn:E.
  - exact (handler_pure _ _ env _ self E Hk).
  - eexists; reflexivity.
Qed.

Lemma process_command_returns (env : Env) (command : string) (self : RemoteServer) :
  ~ In (keyword command) ["cpu"; "memory"; "processes"; "netstat"; "diskspace"] ->
  exists response self' evs,
    process_command env command self = (inr response, self', evs).
Proof.
  intros Hk. rewrite process_command_eq.
  destruct (lookup commands (keyword command)) as [handler|] eqn:E;
    [|do 3 eexists; reflexivity].
  revert E. unfold commands. cbn [lookup]. intros H.
  repeat match type of H with
         | (if (?a =? ?k)%string then _ else _) = _ =>
             destruct (String.eqb_spec a k) as [Heq|]; [injection H as <-|]
         end; try discriminate H;
    try (exfalso; apply Hk; rewrite <- Heq; cbn; tauto).
  - do 3 eexists; reflexivity.
  - do 3 eexists; reflexivity.
  - do 3 eexists; reflexivity.
  - unfold exit_connection, bind. rewrite cleanup_eq. do 3 eexists; reflexivity.
  - destruct (list_directory_returns env self (argument command)) as [r Hr].
    do 3 eexists; exact Hr.
Qed.

(** X4. What a command can do to the server. A line whose keyword is not
    [exit] leaves the server object as it was and produces no event: it
    closes no socket and writes nothing to the log, whether it returns a
    response or raises. A line whose keyword is none of [cpu], [memory],
    [processes], [netstat] and [diskspace], the handlers that ask [psutil],
    never raises: it returns a response in every environment. *)
Theorem process_command_effects (env : Env) (command : string) (self : RemoteServer) :
  (keyword command <> "exit" ->
   exists r, process_command env command self = (r, self, []))
  /\ (~ In (keyword command) ["cpu"; "memory"; "processes"; "netstat"; "diskspace"] ->
      exists response self' evs,
        process_command env command self = (inr response, self', evs)).
Proof.
  split; [apply process_command_pure|apply process_command_returns].
Qed.

(** X5. [cleanup] never raises and leaves no socket open; neither does it
    touch the other attributes. Run again on the object it left, it closes
    nothing and only writes its line to the log once more. *)
Theorem cleanup_idempotent (self : RemoteServer) :
  exists self' evs,
    cleanup self = (inr tt, self', evs)
    /\ socket self' <> SockOpen /\ client self' <> SockOpen
    /\ host self' = host self /\ port self' = port self
    /\ addr self' = addr self /\ allowed_dirs self' = allowed_dirs self
    /\ cleanup self' = (inr tt, self', [LogInfo "Server cleaned up and shut down"]).
Proof.
  do 2 eexists. split; [apply cleanup_eq|].
  cbn [socket client host port addr allowed_dirs].
  repeat split; try (destruct (socket self), (client self); discriminate).
  rewrite cleanup_eq. cbn [socket client host port addr allowed_dirs].
  destruct (socket self), (client self); reflexivity.
Qed.

End Commands.

Lemma argument_ignored_witness :
  process_command sample_env "CPU  --per-core" = process_command sample_env "cpu".
Proof.
  apply (argument_ignored sample_env "cpu" "CPU  --per-core"); [reflexivity|].
  cbn; tauto.
Defined.

Lemma process_command_normalizes_witness :
  process_command sample_env ("  " ++ "TIME" ++ String "010" "")
  = process_command sample_env "time".
Proof.
  destruct (process_command_normalizes sample_env "TIME") as (H1 & _ & H3).
  exact (eq_trans (H3 "  " (String "010" "") eq_refl eq_refl) (eq_sym H1)).
Defined.

Lemma process_command_effects_witness :
  (exists r, process_command sample_env "listdir ../etc" connected = (r, connected, []))
  /\ (exists response self' evs,
        process_command sample_env "Exit now" connected = (inr response, self', evs)).
Proof.
  destruct (process_command_effects sample_env "listdir ../etc" connected) as [H _].
  destruct (process_command_effects sample_env "Exit now" connected) as [_ H'].
  split; [apply H; discriminate|apply H'].
  cbn. intros F. repeat (destruct F as [F|F]; [discriminate F|]). exact F.
Defined.

(** *** The session as a whole *)

Lemma sent_app (a b : list event) : sent (a ++ b)%list = (sent a ++ sent b)%list.
Proof.
  induction a as [|ev a IH]; [reflexivity|].
  destruct ev; cbn [app sent]; rewrite IH; reflexivity.
Qed.

Lemma sent_map_Sent (l : list string) : sent (map Sent l) = l.
Proof. induction l as [|x l IH]; cbn [map sent]; congruence. Qed.

Lemma sock_aged_refl (s : sock) : sock_aged s s.
Proof. left. reflexivity. Qed.

Lemma sock_aged_trans (a b c : sock) : sock_aged a b -> sock_aged b c -> sock_aged a c.
Proof.
  intros [->|[-> ->]] [->|[Hb ->]]; unfold sock_aged; auto; discriminate Hb.
Qed.

Lemma sock_aged_closed (s : sock) : sock_aged s (closed_sock s).
Proof. destruct s; unfold sock_aged; cbn; auto. Qed.

Lemma only_closes_refl (self : RemoteServer) : only_closes self self.
Proof. repeat split; apply sock_aged_refl. Qed.

Lemma only_closes_trans (a b c : RemoteServer) :
  only_closes a b -> only_closes b c -> only_closes a c.
Proof.
  intros (H1 & H2 & H3 & H4 & H5 & H6) (K1 & K2 & K3 & K4 & K5 & K6).
  repeat split; try congruence; eapply sock_aged_trans; eassumption.
Qed.

Section Runs.
Context {PF : PyFloat}.

(** What [exit] does in [process_command]. *)
Lemma process_command_exit (env : Env) (command : string) (self : RemoteServer) :
  keyword command = "exit" ->
  process_command env command self
  = (inr "Server shutting down...",
     {| host := host self; port := port self; socket := closed_sock (socket self);
        client := closed_sock (client self); addr := addr self;
        allowed_dirs := allowed_dirs self |},
     (close_events (client self) ClientClosed
      ++ close_events (socket self) ListenerClosed
      ++ [LogInfo "Server cleaned up and shut down"])%list).
Proof.
  intros Hk. rewrite process_command_eq, Hk.
  cbn [lookup commands String.eqb Ascii.eqb Bool.eqb].
  unfold exit_connection, bind. rewrite cleanup_eq. cbn [ret].
  rewrite app_nil_r. reflexivity.
Qed.

Lemma process_command_cases (env : Env) (command : string) (self : RemoteServer) :
  (exists r, process_command env command self = (r, self, []))
  \/ (keyword command = "exit"
      /\ process_command env command self
         = (inr "Server shutting down...",
            {| host := host self; port := port self;
               socket := closed_sock (socket self);
               client := closed_sock (client self); addr := addr self;
               allowed_dirs := allowed_dirs self |},
            (close_events (client self) ClientClosed
             ++ close_events (socket self) ListenerClosed
             ++ [LogInfo "Server cleaned up and shut down"])%list)).
Proof.
  destruct (string_dec (keyword command) "exit") as [Hk|Hk].
  - right. split; [exact Hk|apply process_command_exit, Hk].
  - left. apply process_command_pure, Hk.
Qed.

Lemma process_command_only_closes (env : Env) (command : string) (self : RemoteServer) :
  only_closes self (state_after (process_command env command self))
  /\ sent (events_of (process_command env command self)) = [].
Proof.
  destruct (process_command_cases env command self) as [[r ->]|[_ ->]].
  - split; [apply only_closes_refl|reflexivity].
  - split.
    + repeat split; apply sock_aged_closed.
    + cbn [events_of snd]. destruct (client self), (socket self); reflexivity.
Qed.

(** One turn of the loop: the object only has sockets closed; a turn after
    which the loop goes on has sent one text, a turn that ends the loop has
    sent none. *)
Lemma loop_body_run (t : turn) (self : RemoteServer) :
  only_closes self (state_after (loop_body t self))
  /\ match fst (fst (loop_body t self)) with
     | Continue => exists response, sent (events_of (loop_body t self)) = [response]
     | Break => sent (events_of (loop_body t self)) = []
     end.
Proof.
  unfold loop_body, loop_try, recv, bind, get_self. cbv beta iota.
  destruct (client self) eqn:Hc; cbn [raise exn_class bad_descriptor];
    try (split; [apply only_closes_refl|reflexivity]).
  destruct (turn_recv t) as [data|e]; cbn [ret raise].
  - destruct (data =? "")%string; cbn [ret];
      [split; [apply only_closes_refl|reflexivity]|].
    destruct (process_command_only_closes (turn_env t) data self) as [Ho Hs].
    destruct (process_command (turn_env t) data self) as [[[e|response] self1] evs1].
    + cbn [app]. cbn [state_after events_of fst snd] in *.
      destruct (exn_class e); cbn [state_after events_of fst snd];
        (split; [exact Ho|]); rewrite sent_app, Hs; reflexivity.
    + cbn [state_after events_of fst snd] in Ho, Hs. unfold send, bind, get_self.
      cbn [app].
      destruct (client self1); cbn [raise ret exn_class bad_descriptor app];
        try (cbn [state_after events_of fst snd]; split; [exact Ho|];
             rewrite !sent_app, Hs; reflexivity).
      destruct (turn_send_error t) as [e|]; cbn [raise emit].
      * destruct (exn_class e); cbn [state_after events_of fst snd];
          (split; [exact Ho|]); rewrite !sent_app, Hs; reflexivity.
      * cbn [state_after events_of fst snd]. split; [exact Ho|].
        exists response. rewrite !sent_app, Hs. reflexivity.
  - destruct (exn_class e); split; try apply only_closes_refl; reflexivity.
Qed.

(** Turns that are answered, and the turns after them. *)
Lemma handle_client_answered
      (turns : list turn) (responses : list string) (later : list turn)
      (self : RemoteServer) :
  client self = SockOpen ->
  Forall2 (answered self) turns responses ->
  handle_client (turns ++ later)%list self
  = match handle_client later self with
    | (st, self', evs) => (st, self', (map Sent responses ++ evs)%list)
    end.
Proof.
  intros Hc H. induction H as [|t response turns responses Ht _ IH].
  - cbn [app map]. destruct (handle_client later self) as [[st s] evs]. reflexivity.
  - destruct Ht as (data & Hr & Hd & Hk & Hs & Hp).
    destruct (process_command_pure (turn_env t) data self Hk) as [r Hr'].
    rewrite Hr' in Hp. cbn [fst] in Hp. subst r.
    cbn [app].
    rewrite (handle_client_continue t _ self self [Sent response]
               (loop_body_answers t self data response Hc Hr Hd Hs Hr')).
    rewrite IH. destruct (handle_client later self) as [[st s] evs]. reflexivity.
Qed.

(** X6. A session of commands that are answered. When the client is
    connected and, turn after turn, a command other than [exit] arrives
    whose handler returns a response and the response can be sent, the
    server sends exactly these responses, in the order of the commands, and
    nothing else happens: nothing is logged, no socket is closed, the
    server object is as it was, and the loop waits for the next command. *)
Theorem session_answers_in_order
        (turns : list turn) (responses : list string) (self : RemoteServer) :
  client self = SockOpen ->
  Forall2 (answered self) turns responses ->
  handle_client turns self = (Waiting, self, map Sent responses).
Proof.
  intros Hc H. rewrite <- (app_nil_r turns).
  rewrite (handle_client_answered turns responses [] self Hc H).
  cbn [handle_client]. rewrite app_nil_r. reflexivity.
Qed.

(** X7. How a session ends without [exit], the client being connected. When
    the peer has closed the connection, [recv] gives the empty text and the
    loop is left in silence. When [recv] raises, the loop is left and a
    line is logged: "Client disconnected unexpectedly" for a
    [ConnectionResetError], the text of the exception after "Error handling
    client: " for another one. When a response cannot be sent, the same
    lines are logged for the exception of [send]. In each case nothing is
    sent and the turns that would follow are not looked at. *)
Theorem session_endings
        (t : turn) (rest : list turn) (self : RemoteServer) :
  client self = SockOpen ->
  (turn_recv t = RecvData "" ->
   handle_client (t :: rest) self = (Returned, self, []))
  /\ (forall e, turn_recv t = RecvRaises e ->
      handle_client (t :: rest) self
      = (Returned, self,
         [LogError match exn_class e with
                   | ConnectionResetError => "Client disconnected unexpectedly"
                   | _ => "Error handling client: " ++ exn_msg e
                   end]))
  /\ (forall data e,
        turn_recv t = RecvData data -> data <> "" -> keyword data <> "exit" ->
        turn_send_error t = Some e ->
        (exists response,
            fst (fst (process_command (turn_env t) data self)) = inr response) ->
        handle_client (t :: rest) self
        = (Returned, self,
           [LogError match exn_class e with
                     | ConnectionResetError => "Client disconnected unexpectedly"
                     | _ => "Error handling client: " ++ exn_msg e
                     end])).
Proof.
  intros Hc. repeat split.
  - intros Hr. apply handle_client_break.
    unfold loop_body, loop_try, recv, bind, get_self. rewrite Hc, Hr. reflexivity.
  - intros e Hr. apply handle_client_break.
    unfold loop_body, loop_try, recv, bind, get_self. rewrite Hc, Hr.
    cbn [raise]. destruct (exn_class e); reflexivity.
  - intros data e Hr Hd Hk Hs [response Hp]. apply handle_client_break.
    destruct (process_command_pure (turn_env t) data self Hk) as [r Hr'].
    rewrite Hr' in Hp. cbn [fst] in Hp. subst r.
    unfold loop_body. rewrite (loop_body_received t self data Hc Hr Hd), Hr'.
    unfold send, bind, get_self. rewrite Hc, Hs. cbn [raise app].
    destruct (exn_class e); reflexivity.
Qed.

(** A session of the turns [first] followed by [later] is the session of
    [first] and, when that one is still waiting, the session of [later]
    from the object it left. *)
Lemma handle_client_app (first later : list turn) (self : RemoteServer) :
  handle_client (first ++ later)%list self =
  match handle_client first self with
  | (Waiting, self', evs) =>
      match handle_client later self' with
      | (st, self'', evs') => (st, self'', (evs ++ evs')%list)
      end
  | (Returned, self', evs) => (Returned, self', evs)
  end.
Proof.
  revert self. induction first as [|t first IH]; intros self.
  - cbn [app handle_client]. destruct (handle_client later self) as [[st s] evs].
    reflexivity.
  - cbn [app handle_client]. destruct (loop_body t self) as [[[] self1] evs1];
      [|reflexivity].
    rewrite IH. destruct (handle_client first self1) as [[[] self2] evs2];
      [|reflexivity].
    destruct (handle_client later self2) as [[st self3] evs3].
    rewrite app_assoc. reflexivity.
Qed.

(** X9. What a session never does: it changes neither the host, the port,
    the address of the peer nor the allow-list, and it opens no socket; a
    socket attribute is afterwards what it was, or was open and is
    closed. *)
Theorem session_only_closes (turns : list turn) (self : RemoteServer) :
  only_closes self (state_after (handle_client turns self)).
Proof.
  revert self. induction turns as [|t turns IH]; intros self;
    [apply only_closes_refl|].
  cbn [handle_client]. destruct (loop_body_run t self) as [Ho _].
  destruct (loop_body t self) as [[[] self1] evs1];
    cbn [state_after fst snd] in Ho; [|exact Ho].
  specialize (IH self1).
  destruct (handle_client turns self1) as [[st self2] evs2].
  exact (only_closes_trans _ _ _ Ho IH).
Qed.

(** X10. One response for each command. In a session that is still waiting
    when its turns are used up, as many texts were sent as there were
    turns; in a session that has ended, fewer: the turn that ends the loop
    sends nothing, whatever ended it. *)
Theorem one_response_per_turn (turns : list turn) (self : RemoteServer) :
  match fst (fst (handle_client turns self)) with
  | Waiting =>
      List.length (sent (events_of (handle_client turns self))) = List.length turns
  | Returned =>
      List.length (sent (events_of (handle_client turns self))) < List.length turns
  end.
Proof.
  revert self. induction turns as [|t turns IH]; intros self; [reflexivity|].
  cbn [handle_client]. destruct (loop_body_run t self) as [_ Hs].
  destruct (loop_body t self) as [[[] self1] evs1]; cbn [fst snd events_of] in Hs.
  - destruct Hs as [response Hs]. specialize (IH self1).
    destruct (handle_client turns self1) as [[[] self2] evs2];
      cbn [fst snd events_of List.length] in *;
      rewrite sent_app, length_app, Hs; cbn [List.length]; lia.
  - cbn [fst snd events_of List.length]. rewrite Hs. cbn [List.length]. lia.
Qed.

End Runs.

Lemma session_answers_in_order_witness :
  handle_client [says sample_env "time"; says sample_env "Echo hi"] connected
  = (Waiting, connected, [Sent "Server time: 2024-05-01 12:00:00"; Sent "Echo: hi"]).
Proof.
  apply (session_answers_in_order
           [says sample_env "time"; says sample_env "Echo hi"]
           ["Server time: 2024-05-01 12:00:00"; "Echo: hi"] connected eq_refl).
  repeat constructor.
  - exists "time". repeat split; discriminate.
  - exists "Echo hi". repeat split; discriminate.
Defined.

Lemma session_endings_witness :
  handle_client [peer_closed; says sample_env "time"] connected
  = (Returned, connected, [])
  /\ handle_client [peer_reset; says sample_env "time"] connected
     = (Returned, connected, [LogError "Client disconnected unexpectedly"])
  /\ handle_client [pipe_broken "time"; says sample_env "time"] connected
     = (Returned, connected, [LogError "Error handling client: [Errno 32] Broken pipe"]).
Proof.
  split; [|split].
  - apply (session_endings peer_closed [says sample_env "time"] connected eq_refl).
    reflexivity.
  - destruct (session_endings peer_reset [says sample_env "time"] connected eq_refl)
      as (_ & H & _).
    exact (H _ eq_refl).
  - destruct (session_endings (pipe_broken "time") [says sample_env "time"] connected
                eq_refl) as (_ & _ & H).
    apply (H "time" (Exn OSError "[Errno 32] Broken pipe")); try reflexivity;
      try discriminate.
    eexists. reflexivity.
Defined.

(** *** Start-up and shut-down *)

Section StartUp.
Context {PF : PyFloat}.

Lemma attempt_eq (failure : option exn) (self : RemoteServer) :
  attempt failure self
  = (match failure with Some e => inl e | None => inr tt end, self, []).
Proof. destruct failure; reflexivity. Qed.

(** The set-up and [accept], when nothing raises. *)
Lemma listen_accept_ok (net : network) (peer : string) (self : RemoteServer) :
  setup_failure net = None ->
  net_accept net = inr peer ->
  bind (listen net) (fun _ => accept net) self
  = (inr tt,
     {| host := host self; port := port self; socket := SockOpen;
        client := SockOpen; addr := Some peer;
        allowed_dirs := allowed_dirs self |},
     [LogInfo ("Server listening on " ++ host self ++ ":" ++ str_of_Z (port self));
      LogInfo ("Connection from " ++ peer)]).
Proof.
  unfold setup_failure. intros Hs Ha.
  destruct (net_socket net) eqn:E1; [discriminate|].
  destruct (net_setsockopt net) eqn:E2; [discriminate|].
  destruct (net_bind net) eqn:E3; [discriminate|].
  destruct (net_listen net) eqn:E4; [discriminate|].
  unfold listen, accept, bind. rewrite E1, E2, E3, E4, Ha. reflexivity.
Qed.

(** The set-up and [accept], when one of the calls raises. *)
Lemma listen_accept_fails (net : network) (e : exn) (self : RemoteServer) :
  setup_failure net = Some e ->
  bind (listen net) (fun _ => accept net) self
  = (inl e,
     {| host := host self; port := port self;
        socket := match net_socket net with Some _ => socket self | None => SockOpen end;
        client := client self; addr := addr self;
        allowed_dirs := allowed_dirs self |},
     if listening net
     then [LogInfo ("Server listening on " ++ host self ++ ":" ++ str_of_Z (port self))]
     else []).
Proof.
  unfold setup_failure, listening. intros Hs.
  unfold listen, accept, bind.
  destruct (net_socket net) eqn:E1;
    [injection Hs as ->; destruct self; reflexivity|].
  destruct (net_setsockopt net) eqn:E2; [injection Hs as ->; reflexivity|].
  destruct (net_bind net) eqn:E3; [injection Hs as ->; reflexivity|].
  destruct (net_listen net) eqn:E4; [injection Hs as ->; reflexivity|].
  destruct (net_accept net) eqn:E5; [injection Hs as ->; reflexivity|discriminate].
Qed.

Lemma setup_failure_cases (net : network) :
  (exists e, setup_failure net = Some e)
  \/ (exists peer, setup_failure net = None /\ net_accept net = inr peer).
Proof.
  unfold setup_failure.
  destruct (net_socket net); [left; eexists; reflexivity|].
  destruct (net_setsockopt net); [left; eexists; reflexivity|].
  destruct (net_bind net); [left; eexists; reflexivity|].
  destruct (net_listen net); [left; eexists; reflexivity|].
  destruct (net_accept net) as [e|peer]; [left; eexists; reflexivity|].
  right. exists peer. split; reflexivity.
Qed.

Lemma closed_sock_not_open (s : sock) : closed_sock s <> SockOpen.
Proof. destruct s; discriminate. Qed.

(** X11. [start_server] releases what it holds. Whatever the network does
    and however the session goes, when [start_server] returns no socket of
    the server object is open, and the last line of the log is the line of
    [cleanup]. *)
Theorem start_server_releases_sockets
        (net : network) (turns : list turn) (self : RemoteServer) :
  fst (fst (start_server net turns self)) = Returned ->
  socket (state_after (start_server net turns self)) <> SockOpen
  /\ client (state_after (start_server net turns self)) <> SockOpen
  /\ exists evs,
       events_of (start_server net turns self)
       = (evs ++ [LogInfo "Server cleaned up and shut down"])%list.
Proof.
  unfold start_server.
  destruct (bind (listen net) (fun _ => accept net) self) as [[[e|[]] self1] evs1].
  - intros _. rewrite cleanup_eq. cbn [state_after events_of fst snd socket client].
    split; [apply closed_sock_not_open|]. split; [apply closed_sock_not_open|].
    eexists (evs1 ++ LogError _ :: close_events _ _ ++ close_events _ _)%list.
    rewrite <- !app_assoc. cbn [app]. rewrite <- !app_assoc. reflexivity.
  - destruct (handle_client turns self1) as [[[] self2] evs2]; [discriminate|].
    intros _. rewrite cleanup_eq. cbn [state_after events_of fst snd socket client].
    split; [apply closed_sock_not_open|]. split; [apply closed_sock_not_open|].
    eexists (evs1 ++ evs2 ++ close_events _ _ ++ close_events _ _)%list.
    rewrite <- !app_assoc. reflexivity.
Qed.

(** X12. A start-up that fails serves nobody. When creating the socket,
    setting its option, binding it, listening or [accept] raises, on a
    server object that holds no socket yet, [start_server] logs "Server
    error: " with the text of the exception, closes the listening socket if
    it had been created, logs the line of [cleanup] and returns. The turns
    of a session are not looked at and nothing is sent. *)
Theorem start_server_setup_failure
        (net : network) (turns : list turn) (self : RemoteServer) (e : exn) :
  socket self = NoSocket ->
  client self = NoSocket ->
  setup_failure net = Some e ->
  start_server net turns self
  = (Returned,
     {| host := host self; port := port self;
        socket := match net_socket net with Some _ => NoSocket | None => SockClosed end;
        client := NoSocket; addr := addr self;
        allowed_dirs := allowed_dirs self |},
     ((if listening net
       then [LogInfo ("Server listening on " ++ host self ++ ":"
                      ++ str_of_Z (port self))]
       else [])
      ++ LogError ("Server error: " ++ exn_msg e)
      :: match net_socket net with Some _ => [] | None => [ListenerClosed] end
      ++ [LogInfo "Server cleaned up and shut down"])%list).
Proof.
  intros Hs Hc Hf. unfold start_server.
  rewrite (listen_accept_fails net e self Hf), cleanup_eq.
  cbn [socket client host port addr allowed_dirs]. rewrite Hs, Hc.
  destruct (net_socket net); reflexivity.
Qed.

(** One turn of the loop on [exit]. *)
Lemma loop_body_exit (t : turn) (self : RemoteServer) (data : string) :
  client self = SockOpen ->
  turn_recv t = RecvData data ->
  keyword data = "exit" ->
  loop_body t self
  = (Break,
     {| host := host self; port := port self; socket := closed_sock (socket self);
        client := SockClosed; addr := addr self;
        allowed_dirs := allowed_dirs self |},
     (ClientClosed :: close_events (socket self) ListenerClosed
      ++ [LogInfo "Server cleaned up and shut down";
          LogError "Error handling client: [Errno 9] Bad file descriptor"])%list).
Proof.
  intros Hc Hr Hk.
  assert (Hd : data <> "") by (apply (keyword_nonempty _ _ Hk); discriminate).
  unfold loop_body.
  rewrite (loop_body_received t self data Hc Hr Hd), (process_command_exit _ _ _ Hk), Hc.
  destruct (socket self); reflexivity.
Qed.

(** X13. The life of the server, from the script to [exit]. With a network
    that lets the server start and a peer whose commands are answered until
    it sends [exit], the server creates its two directories, logs that it
    listens and who connected, sends the responses in order, and on [exit]
    closes both sockets before the acknowledgment could be sent: the
    [send] fails, the error is logged, and [cleanup] runs a second time in
    the [finally] clause, with nothing left to close. The server returns
    and whatever the peer would still send is not read. *)
Theorem server_life_until_exit
        (h : string) (p : Z) (net : network) (peer : string)
        (turns : list turn) (responses : list string)
        (t : turn) (data : string) (rest : list turn) :
  setup_failure net = None ->
  net_accept net = inr peer ->
  Forall2 (answered {| host := h; port := p; socket := SockOpen; client := SockOpen;
                       addr := Some peer;
                       allowed_dirs := ["./shared"; "./downloads"] |})
          turns responses ->
  turn_recv t = RecvData data ->
  keyword data = "exit" ->
  main h p net (turns ++ t :: rest)%list
  = (Returned,
     {| host := h; port := p; socket := SockClosed; client := SockClosed;
        addr := Some peer; allowed_dirs := ["./shared"; "./downloads"] |},
     ([MadeDir "./shared"; MadeDir "./downloads";
       LogInfo ("Server listening on " ++ h ++ ":" ++ str_of_Z p);
       LogInfo ("Connection from " ++ peer)]
      ++ map Sent responses
      ++ [ClientClosed; ListenerClosed;
          LogInfo "Server cleaned up and shut down";
          LogError "Error handling client: [Errno 9] Bad file descriptor";
          LogInfo "Server cleaned up and shut down"])%list).
Proof.
  intros Hs Ha Hturns Hr Hk. unfold main.
  change (init h p)
    with (@inr exn unit tt,
          {| host := h; port := p; socket := NoSocket; client := NoSocket;
             addr := None; allowed_dirs := ["./shared"; "./downloads"] |},
          [MadeDir "./shared"; MadeDir "./downloads"]).
  unfold start_server. rewrite (listen_accept_ok net peer _ Hs Ha).
  cbn [host port allowed_dirs].
  set (self := {| host := h; port := p; socket := SockOpen; client := SockOpen;
                  addr := Some peer;
                  allowed_dirs := ["./shared"; "./downloads"] |}) in *.
  assert (Hc : client self = SockOpen) by reflexivity.
  rewrite (handle_client_answered turns responses (t :: rest) self Hc Hturns).
  rewrite (handle_client_break t rest _ _ _ (loop_body_exit t self data Hc Hr Hk)).
  rewrite cleanup_eq. cbn [socket client closed_sock close_events host port addr
                            allowed_dirs app].
  rewrite <- !app_assoc. reflexivity.
Qed.

End StartUp.

Lemma start_server_releases_sockets_witness :
  socket (state_after (start_server sample_network [says sample_env "exit"] new_server))
  <> SockOpen
  /\ client (state_after (start_server sample_network [says sample_env "exit"] new_server))
     <> SockOpen
  /\ exists evs,
       events_of (start_server sample_network [says sample_env "exit"] new_server)
       = (evs ++ [LogInfo "Server cleaned up and shut down"])%list.
Proof.
  apply (start_server_releases_sockets sample_network [says sample_env "exit"] new_server).
  reflexivity.
Defined.

Lemma start_server_setup_failure_witness :
  start_server busy_network [says sample_env "time"] new_server
  = (Returned,
     {| host := "127.0.0.1"; port := 65432; socket := SockClosed; client := NoSocket;
        addr := None; allowed_dirs := ["./shared"; "./downloads"] |},
     [LogError "Server error: [Errno 98] Address already in use"; ListenerClosed;
      LogInfo "Server cleaned up and shut down"]).
Proof.
  apply (start_server_setup_failure busy_network [says sample_env "time"] new_server
           (Exn OSError "[Errno 98] Address already in use"));
    reflexivity.
Defined.

Lemma server_life_until_exit_witness :
  main "127.0.0.1" 65432 sample_network
    [says sample_env "time"; says sample_env "Echo hi"; says sample_env "EXIT";
     says sample_env "time"]
  = (Returned,
     {| host := "127.0.0.1"; port := 65432; socket := SockClosed; client := SockClosed;
        addr := Some "('127.0.0.1', 50514)";
        allowed_dirs := ["./shared"; "./downloads"] |},
     [MadeDir "./shared"; MadeDir "./downloads";
      LogInfo "Server listening on 127.0.0.1:65432";
      LogInfo "Connection from ('127.0.0.1', 50514)";
      Sent "Server time: 2024-05-01 12:00:00"; Sent "Echo: hi";
      ClientClosed; ListenerClosed;
      LogInfo "Server cleaned up and shut down";
      LogError "Error handling client: [Errno 9] Bad file descriptor";
      LogInfo "Server cleaned up and shut down"]).
Proof.
  apply (server_life_until_exit "127.0.0.1" 65432 sample_network "('127.0.0.1', 50514)"
           [says sample_env "time"; says sample_env "Echo hi"]
           ["Server time: 2024-05-01 12:00:00"; "Echo: hi"]
           (says sample_env "EXIT") "EXIT" [says sample_env "time"]);
    try reflexivity.
  repeat constructor.
  - exists "time". repeat split; discriminate.
  - exists "Echo hi". repeat split; discriminate.
Defined.

(** *** The directory guard: what decides, and the bare command *)

Lemma startswith_longer (s x : string) :
  startswith s (s ++ x) = true -> x = "".
Proof.
  rewrite <- (append_nil_r s) at 1. rewrite startswith_app_cancel.
  destruct x; [reflexivity|discriminate].
Qed.

Lemma join_app (l comps : list string) :
  comps <> [] ->
  join "/" (l ++ comps)%list
  = match l with [] => "" | _ => join "/" l ++ "/" end ++ join "/" comps.
Proof.
  intros Hc. induction l as [|c r IH]; [reflexivity|].
  destruct r as [|c' r'].
  - cbn [app]. destruct comps as [|x xs]; [congruence|].
    cbn [join]. rewrite append_assoc. reflexivity.
  - change (join "/" ((c :: c' :: r') ++ comps)%list)
      with (c ++ "/" ++ join "/" ((c' :: r') ++ comps)%list).
    rewrite IH.
    change (join "/" (c :: c' :: r')) with (c ++ "/" ++ join "/" (c' :: r')).
    rewrite !append_assoc. reflexivity.
Qed.

(** A path of clean components below the working directory: its canonical
    form is the canonical working directory, a separator unless that is the
    root, and the path. *)
Lemma abspath_dot_path (cwd : string) :
  isabs cwd = true ->
  exists sep, forall comps : list string,
    comps <> [] ->
    Forall (fun c => clean_comp c = true) comps ->
    abspath cwd (String "." (String "/" (join "/" comps)))
    = abspath cwd (String "." (String "/" "")) ++ sep ++ join "/" comps.
Proof.
  intros Habs. destruct (join2_dot_name cwd "" Habs) as [a Ha].
  exists (match rev (norm_comps true (split "/" a) []) with
          | [] => ""
          | _ => "/"
          end).
  intros comps Hne Hc. unfold abspath.
  assert (Hs : Forall (fun c => no_slash c = true) comps)
    by (eapply Forall_impl; [|exact Hc]; apply clean_comp_no_slash).
  assert (Hj := join2_absolute cwd (String "." (String "/" (join "/" comps))) Habs).
  assert (Hj0 := join2_absolute cwd (String "." (String "/" "")) Habs).
  rewrite !normpath_absolute_eq by (first [exact Hj|exact Hj0]).
  change (isabs (String "." (String "/" (join "/" comps)))) with false.
  change (isabs (String "." (String "/" ""))) with false. cbv iota.
  rewrite !Ha, (initial_slashes_dot_name a (join "/" comps) "").
  rewrite !split_app_sep.
  change (String "." (String "/" (join "/" comps))) with ("." ++ String "/" (join "/" comps)).
  change (String "." (String "/" "")) with ("." ++ String "/" "").
  rewrite (split_comp_sep "." (join "/" comps) eq_refl), (split_join comps Hne Hs).
  rewrite (split_comp_sep "." "" eq_refl).
  rewrite !norm_comps_app.
  change (norm_comps true ("." :: comps) ?acc) with (norm_comps true comps acc).
  change (norm_comps true ("." :: split "/" "") ?acc) with acc.
  rewrite (norm_comps_of_clean true comps _ Hc).
  rewrite rev_app_distr, rev_involutive, (join_app _ comps Hne), !append_assoc.
  destruct (rev (norm_comps true (split "/" a) []));
    rewrite ?append_assoc; reflexivity.
Qed.

(** The working directory and a directory [./name] in it. *)
Lemma abspath_dot_base (cwd : string) :
  isabs cwd = true ->
  exists sep, forall name : string,
    clean_comp name = true ->
    abspath cwd (String "." (String "/" name))
    = abspath cwd (String "." (String "/" "")) ++ sep ++ name.
Proof.
  intros Habs. destruct (abspath_dot_path cwd Habs) as [sep H]. exists sep.
  intros name Hn.
  exact (H [name] ltac:(discriminate) (Forall_cons _ Hn (Forall_nil _))).
Qed.

Lemma join2_dot_relative (path : string) :
  startswith path "/" = false -> join2 "." path = String "." (String "/" path).
Proof. intros H. unfold join2. rewrite H. reflexivity. Qed.

Lemma clean_comp_relative (c r : string) :
  clean_comp c = true -> startswith (c ++ r) "/" = false.
Proof.
  intros H. destruct c as [|x c]; [discriminate H|].
  apply clean_comp_no_slash in H. cbn [no_slash] in H.
  cbn [append startswith]. rewrite Ascii.eqb_sym.
  destruct (Ascii.eqb x "/"); [discriminate H|reflexivity].
Qed.

Section GuardDecides.
Context {PF : PyFloat}.

Lemma path_allowed_cwd (env env' : Env) (dirs : list string) (p : string) :
  cwd env' = cwd env -> path_allowed env' dirs p = path_allowed env dirs p.
Proof. intros H. unfold path_allowed. rewrite H. reflexivity. Qed.

Lemma list_directory_denied_iff (env : Env) (self : RemoteServer) (path : string) :
  list_directory env path self = (inr access_denied, self, [])
  <-> path_allowed env (allowed_dirs self)
        (abspath (cwd env) (join2 "." (strip path))) = false.
Proof.
  split; [|apply list_directory_denied].
  destruct (path_allowed env (allowed_dirs self) _) eqn:E; [|reflexivity].
  rewrite (list_directory_allowed env self path E).
  destruct (os_listdir env _); discriminate.
Qed.

(** X14. The guard of [listdir] decides before the file system is looked
    at. Whether a path is denied depends on the working directory and the
    allow-list alone: it is denied exactly when the canonical form of no
    allow-list entry is a prefix of its canonical form, and then it is
    denied as well on any other file system with that working directory,
    whatever exists there. *)
Theorem guard_decides_without_listing
        (env env' : Env) (self : RemoteServer) (path : string) :
  cwd env' = cwd env ->
  (list_directory env path self = (inr access_denied, self, [])
   <-> path_allowed env (allowed_dirs self)
         (abspath (cwd env) (join2 "." (strip path))) = false)
  /\ (list_directory env path self = (inr access_denied, self, [])
      <-> list_directory env' path self = (inr access_denied, self, [])).
Proof.
  intros Hcwd. split; [apply list_directory_denied_iff|].
  rewrite !list_directory_denied_iff, Hcwd, (path_allowed_cwd env env' _ _ Hcwd).
  reflexivity.
Qed.

(** X15. The bare command. [listdir] without a path, or with a path of
    white space, asks for the working directory itself, and that is always
    denied: no directory [./name] of the allow-list has a canonical form
    that is a prefix of the canonical working directory. *)
Theorem listdir_without_path_denied
        (env : Env) (self : RemoteServer) (path : string) :
  isabs (cwd env) = true ->
  allowed_dirs self = ["./shared"; "./downloads"] ->
  all_space path = true ->
  abspath (cwd env) (join2 "." (strip path)) = abspath (cwd env) "./"
  /\ list_directory env path self = (inr access_denied, self, []).
Proof.
  intros Habs Hdirs Hsp. rewrite (strip_all_space _ Hsp).
  split; [reflexivity|]. apply list_directory_denied.
  rewrite (strip_all_space _ Hsp), Hdirs.
  change (join2 "." "") with "./".
  destruct (abspath_dot_base (cwd env) Habs) as [sep Hsep].
  unfold path_allowed. cbn [existsb].
  change "./shared" with (String "." (String "/" "shared")).
  change "./downloads" with (String "." (String "/" "downloads")).
  rewrite (Hsep "shared" eq_refl), (Hsep "downloads" eq_refl).
  rewrite !orb_false_r. apply orb_false_intro.
  - destruct (startswith _ (_ ++ sep ++ "shared")) eqn:E; [|reflexivity].
    apply startswith_longer in E. destruct sep; discriminate E.
  - destruct (startswith _ (_ ++ sep ++ "downloads")) eqn:E; [|reflexivity].
    apply startswith_longer in E. destruct sep; discriminate E.
Qed.

(** X16. The guard lets through what lies below an allowed directory. For
    every absolute working directory, an allow-list entry [./root] and a
    path [root/c1/.../cn] of plain names, without white space around it,
    the canonical path is the canonical root or lies below it, it passes
    the guard, and [list_directory] answers with the listing or with the
    report of a failure to list, never with the refusal. *)
Theorem listdir_accepts_below_allowed
        (env : Env) (self : RemoteServer) (root : string) (comps : list string) :
  isabs (cwd env) = true ->
  In (String "." (String "/" root)) (allowed_dirs self) ->
  clean_comp root = true ->
  Forall (fun c => clean_comp c = true) comps ->
  strip (join "/" (root :: comps)) = join "/" (root :: comps) ->
  let requested :=
    abspath (cwd env) (join2 "." (strip (join "/" (root :: comps)))) in
  spec_within (abspath (cwd env) (String "." (String "/" root))) requested = true
  /\ path_allowed env (allowed_dirs self) requested = true
  /\ exists response,
       list_directory env (join "/" (root :: comps)) self = (inr response, self, [])
       /\ response <> access_denied.
Proof.
  intros Habs Hin Hroot Hcomps Hstrip requested.
  destruct (abspath_dot_path (cwd env) Habs) as [sep Hsep].
  assert (Hrel : startswith (join "/" (root :: comps)) "/" = false).
  { destruct comps; [rewrite <- (append_nil_r root)|]; apply clean_comp_relative, Hroot. }
  assert (Hreq : requested
                 = abspath (cwd env) "./" ++ sep ++ join "/" (root :: comps)).
  { unfold requested. rewrite Hstrip, (join2_dot_relative _ Hrel).
    apply Hsep; [discriminate|]. constructor; assumption. }
  assert (Hr : abspath (cwd env) (String "." (String "/" root))
               = abspath (cwd env) "./" ++ sep ++ root).
  { apply (Hsep [root]); [discriminate|]. constructor; [exact Hroot|constructor]. }
  assert (Hspec : spec_within (abspath (cwd env) (String "." (String "/" root)))
                              requested = true).
  { unfold spec_within. rewrite Hr, Hreq. destruct comps as [|c cs].
    - cbn [join]. rewrite String.eqb_refl. reflexivity.
    - change (join "/" (root :: c :: cs)) with (root ++ "/" ++ join "/" (c :: cs)).
      apply orb_true_intro. right.
      rewrite <- !append_assoc. apply startswith_app. }
  assert (Hallowed : path_allowed env (allowed_dirs self) requested = true)
    by exact (list_directory_accepts_spec env self _ _ Hin Hspec).
  split; [exact Hspec|]. split; [exact Hallowed|].
  eexists. split; [apply list_directory_allowed; exact Hallowed|].
  destruct (os_listdir env _); discriminate.
Qed.

End GuardDecides.

Lemma guard_decides_without_listing_witness :
  (list_directory sample_env "../etc" connected = (inr access_denied, connected, [])
   <-> path_allowed sample_env (allowed_dirs connected)
         (abspath (cwd sample_env) (join2 "." (strip "../etc"))) = false)
  /\ (list_directory sample_env "../etc" connected = (inr access_denied, connected, [])
      <-> list_directory bare_env "../etc" connected
          = (inr access_denied, connected, [])).
Proof.
  exact (guard_decides_without_listing sample_env bare_env connected "../etc" eq_refl).
Defined.

Lemma listdir_without_path_denied_witness :
  abspath (cwd sample_env) (join2 "." (strip "  ")) = abspath (cwd sample_env) "./"
  /\ list_directory sample_env "  " connected = (inr access_denied, connected, []).
Proof.
  apply (listdir_without_path_denied sample_env connected "  "); reflexivity.
Defined.

Lemma listdir_accepts_below_allowed_witness :
  spec_within "/srv/shared" "/srv/shared/data/2024" = true
  /\ path_allowed sample_env (allowed_dirs connected) "/srv/shared/data/2024" = true
  /\ exists response,
       list_directory sample_env "shared/data/2024" connected
       = (inr response, connected, [])
       /\ response <> access_denied.
Proof.
  apply (listdir_accepts_below_allowed sample_env connected "shared" ["data"; "2024"]);
    try reflexivity.
  - left. reflexivity.
  - repeat constructor.
Defined.

(** *** From the server to the screen of the client

    The renderer applied to the text the server sent: the case of a
    response that reaches the client whole, in one [recv] of at most 4096
    bytes. *)

Lemma rstrip_head (c : ascii) (r : string) :
  is_space c = false -> exists r', rstrip (String c r) = String c r'.
Proof.
  intros Hc. cbn [rstrip]. destruct (rstrip r); rewrite ?Hc; eexists; reflexivity.
Qed.

Lemma lower_char_not_space (c : ascii) :
  is_space c = false -> Ascii.eqb (lower_char c) " " = false.
Proof.
  rewrite <- is_space_lower_char. destruct (Ascii.eqb_spec (lower_char c) " ") as [->|];
    [discriminate|reflexivity].
Qed.

(** The keyword of a line that starts with a character that is no white
    space starts with that character, in lower case. *)
Lemma keyword_head (c : ascii) (r : string) :
  is_space c = false ->
  exists k, keyword (String c r) = String (lower_char c) k.
Proof.
  intros Hc. unfold keyword, split_once, strip. cbn [lstrip]. rewrite Hc.
  destruct (rstrip_head c r Hc) as [r' ->]. cbn [lower cut_at].
  rewrite (lower_char_not_space c Hc).
  destruct (cut_at " " (lower r')) as [[a b]|]; eexists; reflexivity.
Qed.

Lemma startswith_head (command : string) (c : ascii) (p : string) :
  startswith command (String c p) = true -> exists r, command = String c r.
Proof.
  destruct command as [|d r]; [discriminate|]. cbn [startswith].
  destruct (Ascii.eqb_spec c d) as [<-|]; [|discriminate]. intros _. eexists; reflexivity.
Qed.

(** A command that starts with a lower-case letter has a keyword that
    starts with that letter. *)
Lemma startswith_keyword_head (command : string) (c : ascii) (p : string) :
  startswith command (String c p) = true ->
  is_space c = false -> lower_char c = c ->
  exists k, keyword command = String c k.
Proof.
  intros Hs Hc Hl. destruct (startswith_head _ _ _ Hs) as [r ->].
  destruct (keyword_head c r Hc) as [k Hk]. exists k. rewrite Hk, Hl. reflexivity.
Qed.

Section Screen.
Context {PF : PyFloat} {PI : Interpreter} {PH : Host}.
Variable repr : json -> string.

Lemma loads_fuel (s : string) :
  2 * String.length s + 2 = S (S (2 * String.length s)).
Proof. lia. Qed.

(** A text whose first character after the white space opens neither a
    string nor a container, and is no constant and no number, does not
    decode. *)
Lemma loads_plain (s : string) (c : ascii) (r : string) :
  skip_ws s = String c r ->
  Ascii.eqb c dquote = false -> Ascii.eqb c "{" = false -> Ascii.eqb c "[" = false ->
  scan_atom (String c r) = None ->
  loads s = inl JSONDecodeError.
Proof.
  intros Hs H1 H2 H3 Ha. unfold loads. rewrite loads_fuel, Hs.
  cbn [parse_value]. rewrite H1, H2, H3, Ha. reflexivity.
Qed.

Lemma format_response_plain (command response : string) :
  loads response = inl JSONDecodeError ->
  format_response repr command response
  = ([server_response_line; Print response], None).
Proof. intros H. unfold format_response. rewrite H. reflexivity. Qed.

Lemma loads_echo (message : string) : loads ("Echo: " ++ message) = inl JSONDecodeError.
Proof. apply (loads_plain _ "E" ("cho: " ++ message)); reflexivity. Qed.

Lemma loads_time (now : string) : loads ("Server time: " ++ now) = inl JSONDecodeError.
Proof. apply (loads_plain _ "S" ("erver time: " ++ now)); reflexivity. Qed.

Lemma loads_error (msg : string) : loads ("Error listing directory: " ++ msg) = inl JSONDecodeError.
Proof. apply (loads_plain _ "E" ("rror listing directory: " ++ msg)); reflexivity. Qed.

Lemma loads_sysinfo (env : Env) (args : string) (self : RemoteServer) (response : string) :
  fst (fst (get_system_info env args self)) = inr response ->
  loads response = inl JSONDecodeError.
Proof.
  cbn [get_system_info ret fst]. intros [= <-].
  eapply (loads_plain _ "S"); reflexivity.
Qed.

(** The responses that are plain text do not decode. *)
Lemma plain_response_loads (env : Env) (command : string) (self self' : RemoteServer)
      (response : string) (evs : list event) :
  ~ In (keyword command)
       ["cpu"; "memory"; "processes"; "netstat"; "listdir"; "diskspace"] ->
  process_command env command self = (inr response, self', evs) ->
  loads response = inl JSONDecodeError.
Proof.
  intros Hk. rewrite process_command_eq.
  destruct (lookup commands (keyword command)) as [handler|] eqn:E;
    [|intros [= <- _ _]; reflexivity].
  revert E. unfold commands. cbn [lookup]. intros H.
  repeat match type of H with
         | (if (?a =? ?k)%string then _ else _) = _ =>
             destruct (String.eqb_spec a k) as [Heq|]; [injection H as <-|]
         end; try discriminate H;
    try (exfalso; apply Hk; rewrite <- Heq; cbn; tauto).
  - intros Hr. apply (loads_sysinfo env (argument command) self). rewrite Hr. reflexivity.
  - intros [= <- _ _]. apply loads_time.
  - intros [= <- _ _]. apply loads_echo.
  - unfold exit_connection, bind. rewrite cleanup_eq. intros [= <- _ _]. reflexivity.
Qed.

(** X17. Plain text reaches the screen as it was sent. The responses to
    [sysinfo], [time], [echo], [exit] and to an unknown command, the refusal
    of [listdir] and its report of a failure to list never decode as
    structured data, whatever the message echoed or the text of the
    failure; so the client prints them as they are, after its heading, for
    any command it believes it has sent, and raises nothing. *)
Theorem plain_responses_printed_verbatim
        (env : Env) (command shown : string) (self self' : RemoteServer)
        (response : string) (evs : list event) :
  process_command env command self = (inr response, self', evs) ->
  (~ In (keyword command)
        ["cpu"; "memory"; "processes"; "netstat"; "listdir"; "diskspace"]
   \/ (keyword command = "listdir"
       /\ (path_allowed env (allowed_dirs self)
             (abspath (cwd env) (join2 "." (strip (argument command)))) = false
           \/ exists e,
               os_listdir env
                 (abspath (cwd env) (join2 "." (strip (argument command))))
               = inl e))) ->
  loads response = inl JSONDecodeError
  /\ format_response repr shown response
     = ([server_response_line; Print response], None).
Proof.
  intros Hp Hk.
  assert (Hl : loads response = inl JSONDecodeError).
  { destruct Hk as [Hk|[Hk Hnone]].
    - exact (plain_response_loads env command self self' response evs Hk Hp).
    - rewrite process_command_eq, Hk in Hp.
      cbn [lookup commands String.eqb Ascii.eqb Bool.eqb] in Hp.
      destruct (path_allowed env (allowed_dirs self)
                  (abspath (cwd env) (join2 "." (strip (argument command)))))
        eqn:Ha.
      + rewrite (list_directory_allowed env self _ Ha) in Hp.
        destruct Hnone as [Hd|[e He]]; [discriminate Hd|].
        rewrite He in Hp. injection Hp as <- _ _. apply loads_error.
      + rewrite (list_directory_denied env self _ Ha) in Hp.
        injection Hp as <- _ _. reflexivity. }
  split; [exact Hl|apply format_response_plain, Hl].
Qed.

(** **** Listings *)

Lemma wf_listing (path : string) (items : list string) : wf_json (listing path items).
Proof.
  apply wf_json_obj. split.
  - repeat constructor; cbn; intuition discriminate.
  - constructor; [exact I|]. constructor; [|constructor].
    apply wf_json_arr, Forall_map, Forall_forall. intros x _. exact I.
Qed.

Lemma nesting_listing (path : string) (items : list string) :
  nesting (listing path items) <= 2.
Proof.
  apply nesting_obj. repeat apply Forall_cons; try apply Forall_nil; cbn [snd].
  - cbn. lia.
  - apply nesting_arr, Forall_map, Forall_forall. intros; cbn; lia.
Qed.

Lemma loads_listing (path : string) (items : list string) :
  loads (dumps (listing path items)) = inr (listing path items).
Proof. apply loads_dumps; [apply wf_listing|apply nesting_listing]. Qed.

Lemma format_response_listing (command path : string) (items : list string) :
  startswith command "listdir" = true ->
  format_response repr command (dumps (listing path items))
  = (server_response_line
       :: Print (String newline "Contents of " ++ path ++ ":")
       :: map (fun item => Print ("  " ++ item)) items,
     None).
Proof.
  intros Hl. unfold format_response. rewrite loads_listing.
  rewrite (startswith_first command _ "rocesses" "l" "p" eq_refl Hl).
  rewrite (startswith_first command _ "pu" "l" "c" eq_refl Hl).
  rewrite (startswith_first command _ "emory" "l" "m" eq_refl Hl).
  rewrite (startswith_first command _ "etstat" "l" "n" eq_refl Hl).
  rewrite (startswith_first command _ "iskspace" "l" "d" eq_refl Hl).
  rewrite Hl. unfold listing. cbn [orb subscript dict_get String.eqb Ascii.eqb Bool.eqb].
  rewrite iterate_strings. cbn [py_str]. rewrite map_map. reflexivity.
Qed.

(** X18. A listing, from the server to the screen. When the path passes the
    guard and the directory can be listed, the response to [listdir]
    decodes to the canonical path and the names in the order [os.listdir]
    gave them, and the client, for a command that starts with [listdir],
    prints its heading, the line "Contents of" with that canonical path,
    and one line for each name, indented by two spaces. *)
Theorem listing_shown_by_client
        (env : Env) (command : string) (self : RemoteServer) (items : list string) :
  keyword command = "listdir" ->
  startswith command "listdir" = true ->
  path_allowed env (allowed_dirs self)
    (abspath (cwd env) (join2 "." (strip (argument command)))) = true ->
  os_listdir env (abspath (cwd env) (join2 "." (strip (argument command))))
  = inr items ->
  exists response,
    process_command env command self = (inr response, self, [])
    /\ loads response
       = inr (listing (abspath (cwd env) (join2 "." (strip (argument command))))
                      items)
    /\ format_response repr command response
       = (server_response_line
            :: Print (String newline "Contents of "
                      ++ abspath (cwd env) (join2 "." (strip (argument command)))
                      ++ ":")
            :: map (fun item => Print ("  " ++ item)) items,
          None).
Proof.
  intros Hk Hs Ha Hitems. eexists. split; [|split].
  - rewrite process_command_eq, Hk.
    cbn [lookup commands String.eqb Ascii.eqb Bool.eqb].
    rewrite (list_directory_allowed env self _ Ha), Hitems. reflexivity.
  - apply loads_listing.
  - apply format_response_listing, Hs.
Qed.

(** **** The process table *)

Lemma wf_info_dict (order : attr_order) (i : proc_info) :
  (forall x, memory_percent i = Some x -> float_ok x) -> wf_json (info_dict order i).
Proof.
  intros H. apply wf_json_obj. split.
  - destruct order; repeat constructor; cbn; intuition discriminate.
  - assert (Hv : forall a, wf_json (attr_value i a)).
    { intros [| |]; cbn [attr_value wf_json]; [exact I|destruct (name i); exact I|].
      destruct (memory_percent i) as [x|]; [exact (H x eq_refl)|exact I]. }
    apply Forall_map, Forall_forall. intros a _. apply Hv.
Qed.

Lemma wf_process_list (order : attr_order) (l : list proc_info) :
  Forall (fun i => forall x, memory_percent i = Some x -> float_ok x) l ->
  wf_json (JArr (map (info_dict order) l)).
Proof.
  intros H. apply wf_json_arr, Forall_map.
  eapply Forall_impl; [|exact H]. apply wf_info_dict.
Qed.

Lemma nesting_process_list (order : attr_order) (l : list proc_info) :
  nesting (JArr (map (info_dict order) l)) <= 2.
Proof.
  apply nesting_arr, Forall_map, Forall_forall. intros i _.
  apply nesting_obj, Forall_map, Forall_forall. intros a _. cbn [snd].
  destruct a; cbn [attr_value]; [cbn; lia|destruct (name i); cbn; lia|].
  destruct (memory_percent i); cbn; lia.
Qed.

Lemma loads_process_list (order : attr_order) (l : list proc_info) :
  Forall (fun i => forall x, memory_percent i = Some x -> float_ok x) l ->
  loads (dumps (JArr (map (info_dict order) l))) = inr (JArr (map (info_dict order) l)).
Proof.
  intros H. apply loads_dumps; [apply wf_process_list, H|apply nesting_process_list].
Qed.

Lemma process_row_info_dict (order : attr_order) (i : proc_info) :
  process_row (info_dict order i)
  = match table_row i with
    | Some row => inr row
    | None =>
        inl (Exn TypeError "unsupported format string passed to NoneType.__format__")
    end.
Proof.
  destruct (info_dict_entries order i) as (m & -> & _ & Hpid & Hname & Hmp).
  unfold process_row, table_row. cbn [subscript get_default].
  rewrite Hpid, Hname, Hmp. destruct (memory_percent i); reflexivity.
Qed.

Lemma process_rows_table (order : attr_order) (l : list proc_info)
      (rows : list (list json)) :
  Forall2 (fun i row => table_row i = Some row) l rows ->
  map_exn process_row (map (info_dict order) l) = inr rows.
Proof.
  induction 1 as [|i row l rows Hi _ IH]; [reflexivity|].
  cbn [map map_exn]. rewrite process_row_info_dict, Hi, IH. reflexivity.
Qed.

Lemma process_rows_unread (order : attr_order) (l : list proc_info) :
  (exists i, In i l /\ memory_percent i = None) ->
  exists e, map_exn process_row (map (info_dict order) l) = inl e
            /\ exn_class e = TypeError.
Proof.
  induction l as [|i l IH]; intros (j & Hin & Hj); [destruct Hin|].
  cbn [map map_exn]. rewrite process_row_info_dict. unfold table_row.
  destruct (memory_percent i) as [x|] eqn:E; [|eexists; split; reflexivity].
  destruct Hin as [->|Hin]; [congruence|].
  destruct (IH (ex_intro _ j (conj Hin Hj))) as (e & -> & He).
  exists e. split; [reflexivity|exact He].
Qed.

Lemma processes_response (env : Env) (command : string) (self : RemoteServer)
      (infos : list proc_info) :
  process_iter env = inr (map readable infos) ->
  keyword command = "processes" ->
  process_command env command self
  = (inr (dumps (JArr (map (info_dict (info_order env)) (firstn 10 (ranked infos))))),
     self, []).
Proof.
  intros Hp Hk. rewrite process_command_eq, Hk.
  cbn [lookup commands String.eqb Ascii.eqb Bool.eqb].
  rewrite get_running_processes_eq. unfold processes_info.
  rewrite Hp, top_processes_readable. reflexivity.
Qed.

(** X19. The process table, from the server to the screen. When the
    processes can be read and the memory percent of each of the ten listed
    was read, the client, for a command that starts with [processes],
    prints its heading and a table with the headers PID, Name and Memory %
    and one row for each listed process, in the order of the ranking: the
    pid, the name ([null] when it was not read) and the memory percent with
    one decimal and a percent sign. *)
Theorem process_table_shown_by_client
        (env : Env) (command : string) (self : RemoteServer)
        (infos : list proc_info) (rows : list (list json)) :
  process_iter env = inr (map readable infos) ->
  keyword command = "processes" ->
  startswith command "processes" = true ->
  Forall (fun i => forall x, memory_percent i = Some x -> float_ok x)
         (firstn 10 (ranked infos)) ->
  Forall2 (fun i row => table_row i = Some row) (firstn 10 (ranked infos)) rows ->
  exists response,
    process_command env command self = (inr response, self, [])
    /\ format_response repr command response
       = ([server_response_line; PrintTable ["PID"; "Name"; "Memory %"] rows], None).
Proof.
  intros Hp Hk Hs Hf Hrows. eexists. split; [apply (processes_response _ _ _ _ Hp Hk)|].
  unfold format_response. rewrite (loads_process_list _ _ Hf), Hs.
  unfold process_rows. cbn [iterate]. rewrite (process_rows_table _ _ _ Hrows).
  reflexivity.
Qed.

(** X20. A process that could not be read breaks the table. When one of the
    ten listed processes has a memory percent that [psutil] could not read,
    the response carries [null] for it, and the client, having printed its
    heading, raises a [TypeError] that [format_response] does not catch;
    no table is printed. *)
Theorem unread_process_breaks_table
        (env : Env) (command : string) (self : RemoteServer)
        (infos : list proc_info) :
  process_iter env = inr (map readable infos) ->
  keyword command = "processes" ->
  startswith command "processes" = true ->
  Forall (fun i => forall x, memory_percent i = Some x -> float_ok x)
         (firstn 10 (ranked infos)) ->
  (exists i, In i (firstn 10 (ranked infos)) /\ memory_percent i = None) ->
  exists response e,
    process_command env command self = (inr response, self, [])
    /\ format_response repr command response = ([server_response_line], Some e)
    /\ exn_class e = TypeError.
Proof.
  intros Hp Hk Hs Hf Hnone.
  destruct (process_rows_unread (info_order env) _ Hnone) as (e & He & Hc).
  eexists _, e. split; [apply (processes_response _ _ _ _ Hp Hk)|]. split; [|exact Hc].
  unfold format_response. rewrite (loads_process_list _ _ Hf), Hs.
  unfold process_rows. cbn [iterate]. rewrite He. reflexivity.
Qed.

(** **** The metrics *)

Lemma wf_cpu_info (env : Env) (d : json) :
  cpu_info env = inr d ->
  (forall percents, cpu_percent env = inr percents -> Forall float_ok percents) ->
  (forall freq, cpu_freq env = inr freq -> freq_ok freq) ->
  wf_json d.
Proof.
  unfold cpu_info. intros H Hp Hf.
  destruct (cpu_percent env) as [|percents]; [discriminate|].
  destruct (cpu_freq env) as [|freq]; [discriminate|].
  destruct (cpu_count_physical env) as [|physical]; [discriminate|].
  destruct (cpu_count_logical env) as [|logical]; [discriminate|].
  injection H as <-. specialize (Hp _ eq_refl). specialize (Hf _ eq_refl).
  apply wf_json_obj. split.
  - repeat constructor; cbn; intuition discriminate.
  - constructor; [apply wf_json_arr; rewrite Forall_map; exact Hp|].
    constructor.
    { destruct freq as [f|]; [|cbn; repeat constructor].
      apply wf_json_obj. split.
      - repeat constructor; cbn; intuition discriminate.
      - destruct Hf as (H1 & H2 & H3).
        constructor; [exact H1|]. constructor; [exact H2|].
        constructor; [exact H3|constructor]. }
    constructor; [destruct physical; exact I|].
    constructor; [destruct logical; exact I|constructor].
Qed.

Lemma wf_mem_info (env : Env) (d : json) : mem_info env = inr d -> wf_json d.
Proof.
  unfold mem_info. destruct (virtual_memory env); [discriminate|].
  destruct (swap_memory env); [discriminate|]. intros [= <-].
  apply wf_json_obj. split.
  - repeat constructor; cbn; intuition discriminate.
  - repeat constructor.
Qed.

Lemma wf_net_info (env : Env) (d : json) : net_info env = inr d -> wf_json d.
Proof.
  unfold net_info. destruct (net_io_counters env) as [|[n|]]; try discriminate.
  intros [= <-]. apply wf_json_obj. split.
  - repeat constructor; cbn; intuition discriminate.
  - repeat constructor.
Qed.

Lemma wf_disk_info (env : Env) (d : json) : disk_info env = inr d -> wf_json d.
Proof.
  unfold disk_info. destruct (disk_partitions env) as [|mounts]; [discriminate|].
  intros [= <-]. apply wf_json_obj. split.
  - apply (disk_loop_nodup env mounts []). constructor.
  - apply disk_loop_values; [apply wf_usage_dict|constructor].
Qed.

Lemma nesting_cpu_info (env : Env) (d : json) : cpu_info env = inr d -> nesting d <= 2.
Proof.
  unfold cpu_info.
  destruct (cpu_percent env) as [|percents]; [discriminate|].
  destruct (cpu_freq env) as [|freq]; [discriminate|].
  destruct (cpu_count_physical env) as [|physical]; [discriminate|].
  destruct (cpu_count_logical env) as [|logical]; [discriminate|].
  intros [= <-]. apply nesting_obj.
  repeat apply Forall_cons; try apply Forall_nil; cbn [snd].
  - apply nesting_arr, Forall_map, Forall_forall. intros; cbn; lia.
  - destruct freq; cbn; lia.
  - destruct physical; cbn; lia.
  - destruct logical; cbn; lia.
Qed.

Lemma nesting_mem_info (env : Env) (d : json) : mem_info env = inr d -> nesting d <= 2.
Proof.
  unfold mem_info. destruct (virtual_memory env); [discriminate|].
  destruct (swap_memory env); [discriminate|]. intros [= <-]. cbn. lia.
Qed.

Lemma nesting_net_info (env : Env) (d : json) : net_info env = inr d -> nesting d <= 2.
Proof.
  unfold net_info. destruct (net_io_counters env) as [|[n|]]; try discriminate.
  intros [= <-]. cbn. lia.
Qed.

Lemma nesting_disk_info (env : Env) (d : json) : disk_info env = inr d -> nesting d <= 2.
Proof.
  unfold disk_info. destruct (disk_partitions env) as [|mounts]; [discriminate|].
  intros [= <-]. apply nesting_obj.
  apply (disk_loop_values (fun v => nesting v <= 1)); [intros usage; cbn; lia|constructor].
Qed.

(** The response to one of the four metric commands encodes a dictionary
    that decodes again. *)
Lemma metric_response (env : Env) (command : string) (self self' : RemoteServer)
      (response : string) (evs : list event) :
  In (keyword command) ["cpu"; "memory"; "netstat"; "diskspace"] ->
  (forall percents, cpu_percent env = inr percents -> Forall float_ok percents) ->
  (forall freq, cpu_freq env = inr freq -> freq_ok freq) ->
  process_command env command self = (inr response, self', evs) ->
  exists d, response = dumps d /\ wf_json d /\ nesting d <= 2.
Proof.
  intros Hk Hp Hf. rewrite process_command_eq. cbn [In] in Hk.
  destruct Hk as [<-|[<-|[<-|[<-|[]]]]];
    cbn [lookup commands String.eqb Ascii.eqb Bool.eqb].
  - rewrite get_cpu_info_eq. destruct (cpu_info env) as [|d] eqn:E; [discriminate|].
    intros [= <- _ _]. exists d. split; [reflexivity|].
    split; [exact (wf_cpu_info env d E Hp Hf)|exact (nesting_cpu_info env d E)].
  - rewrite get_memory_info_eq. destruct (mem_info env) as [|d] eqn:E; [discriminate|].
    intros [= <- _ _]. exists d. split; [reflexivity|].
    split; [exact (wf_mem_info env d E)|exact (nesting_mem_info env d E)].
  - rewrite get_network_stats_eq. destruct (net_info env) as [|d] eqn:E; [discriminate|].
    intros [= <- _ _]. exists d. split; [reflexivity|].
    split; [exact (wf_net_info env d E)|exact (nesting_net_info env d E)].
  - rewrite get_disk_space_eq. destruct (disk_info env) as [|d] eqn:E; [discriminate|].
    intros [= <- _ _]. exists d. split; [reflexivity|].
    split; [exact (wf_disk_info env d E)|exact (nesting_disk_info env d E)].
Qed.

(** The tests of the renderer, on a command whose keyword is known. *)
Lemma renderer_tests (command k : string) :
  In (keyword command)
     ["processes"; "cpu"; "memory"; "netstat"; "diskspace"; "listdir"] ->
  In k ["processes"; "cpu"; "memory"; "netstat"; "diskspace"; "listdir"] ->
  startswith command k = true -> keyword command = k.
Proof.
  intros Hc Hk Hs. cbn [In] in Hk.
  repeat (destruct Hk as [<-|Hk];
          [destruct (startswith_keyword_head _ _ _ Hs eq_refl eq_refl) as [x Hx];
           cbn [In] in Hc;
           repeat (destruct Hc as [Hc|Hc];
                   [rewrite <- Hc in Hx; first [discriminate Hx|symmetry; exact Hc]|]);
           destruct Hc|]).
  destruct Hk.
Qed.

(** X21. The metrics reach the screen as they were sent. For [cpu],
    [memory], [netstat] and [diskspace], with finite floats, the client
    prints after its heading exactly the text the server sent: when the
    command starts with the keyword in lower case the response is decoded
    and encoded again, which gives the same text, and otherwise it is
    printed as it is. *)
Theorem metrics_printed_as_sent
        (env : Env) (command : string) (self self' : RemoteServer)
        (response : string) (evs : list event) :
  In (keyword command) ["cpu"; "memory"; "netstat"; "diskspace"] ->
  (forall percents, cpu_percent env = inr percents -> Forall float_ok percents) ->
  (forall freq, cpu_freq env = inr freq -> freq_ok freq) ->
  process_command env command self = (inr response, self', evs) ->
  (exists d, loads response = inr d /\ dumps d = response)
  /\ format_response repr command response
     = ([server_response_line; Print response], None).
Proof.
  intros Hk Hp Hf Hr.
  destruct (metric_response env command self self' response evs Hk Hp Hf Hr)
    as (d & -> & Hwf & Hdp).
  split; [exists d; split; [apply loads_dumps; assumption|reflexivity]|].
  assert (Hsix : In (keyword command)
                    ["processes"; "cpu"; "memory"; "netstat"; "diskspace"; "listdir"])
    by (cbn [In] in *; tauto).
  assert (Hnp : startswith command "processes" = false).
  { destruct (startswith command "processes") eqn:E; [|reflexivity].
    apply (renderer_tests command _ Hsix) in E; [|cbn; tauto].
    rewrite E in Hk. cbn [In] in Hk. intuition discriminate. }
  assert (Hnl : startswith command "listdir" = false).
  { destruct (startswith command "listdir") eqn:E; [|reflexivity].
    apply (renderer_tests command _ Hsix) in E; [|cbn; tauto].
    rewrite E in Hk. cbn [In] in Hk. intuition discriminate. }
  unfold format_response. rewrite (loads_dumps _ Hwf Hdp), Hnp, Hnl.
  unfold encode. apply Nat.leb_le in Hdp. rewrite Hdp.
  destruct (_ || _); reflexivity.
Qed.


End Screen.

Lemma plain_responses_printed_verbatim_witness :
  loads "Echo: [1, 2]" = inl JSONDecodeError
  /\ format_response sample_repr "echo [1, 2]" "Echo: [1, 2]"
     = ([server_response_line; Print "Echo: [1, 2]"], None).
Proof.
  apply (plain_responses_printed_verbatim sample_repr sample_env "echo [1, 2]"
           "echo [1, 2]" connected connected "Echo: [1, 2]" []).
  - reflexivity.
  - left. cbn. intros H. repeat (destruct H as [H|H]; [discriminate H|]). exact H.
Defined.

Lemma listing_shown_by_client_witness :
  exists response,
    process_command sample_env "listdir shared" connected
    = (inr response, connected, [])
    /\ loads response = inr (listing "/srv/shared" ["readme.txt"; "data"])
    /\ format_response sample_repr "listdir shared" response
       = ([server_response_line; Print (String newline "Contents of /srv/shared:");
           Print "  readme.txt"; Print "  data"], None).
Proof.
  exact (listing_shown_by_client sample_repr sample_env "listdir shared" connected
           ["readme.txt"; "data"] eq_refl eq_refl eq_refl eq_refl).
Defined.

(** The processes that are listed are among those that run. *)
Lemma Forall_top {PF : PyFloat} (P : proc_info -> Prop) (infos : list proc_info) :
  Forall P infos -> Forall P (firstn 10 (ranked infos)).
Proof.
  intros H. apply Forall_forall. intros i Hi.
  assert (Hr : In i (ranked infos)).
  { rewrite <- (firstn_skipn 10 (ranked infos)). apply in_or_app. left. exact Hi. }
  apply (Permutation_in _ (ranked_perm infos)) in Hr. rename Hr into Hi'.
  rewrite Forall_forall in H. exact (H i Hi').
Qed.

Lemma process_table_shown_by_client_witness :
  exists response,
    process_command read_env "processes" connected = (inr response, connected, [])
    /\ format_response sample_repr "processes" response
       = ([server_response_line;
           PrintTable ["PID"; "Name"; "Memory %"]
             [[JInt 812; JStr "postgres"; JStr "7.2%"];
              [JInt 300; JStr "nginx"; JStr "1.5%"];
              [JInt 1; JStr "init"; JStr "0.1%"]]], None).
Proof.
  apply (process_table_shown_by_client sample_repr read_env "processes" connected
           read_infos); try reflexivity.
  - apply Forall_top.
    repeat (apply Forall_cons;
            [intros x Hx;
             first [discriminate Hx|injection Hx as <-; apply float_ok_flt; reflexivity]|]).
    apply Forall_nil.
  - repeat constructor.
Defined.

Lemma unread_process_breaks_table_witness :
  exists response e,
    process_command sample_env "processes" connected = (inr response, connected, [])
    /\ format_response sample_repr "processes" response
       = ([server_response_line], Some e)
    /\ exn_class e = TypeError.
Proof.
  apply (unread_process_breaks_table sample_repr sample_env "processes" connected
           sample_infos); try reflexivity.
  - apply Forall_top.
    repeat (apply Forall_cons;
            [intros x Hx;
             first [discriminate Hx|injection Hx as <-; apply float_ok_flt; reflexivity]|]).
    apply Forall_nil.
  - exists unread_process. split; [|reflexivity].
    cbn. do 4 right. left. reflexivity.
Defined.

Lemma metrics_printed_as_sent_witness :
  exists response,
    process_command sample_env "cpu" connected = (inr response, connected, [])
    /\ (exists d, loads response = inr d /\ dumps d = response)
    /\ format_response sample_repr "cpu" response
       = ([server_response_line; Print response], None).
Proof.
  eexists. split; [reflexivity|].
  apply (metrics_printed_as_sent sample_repr sample_env "cpu" connected connected _ []).
  - left. reflexivity.
  - intros percents [= <-]. repeat constructor; apply float_ok_flt; reflexivity.
  - intros freq [= <-]. repeat split; reflexivity.
  - reflexivity.
Defined.

(** *** The command loop of the client *)

Section ClientSide.
Import ClientLoop ClientRuns.
Context {PF : PyFloat} {PI : Interpreter} {PH : Host}.
Variable repr : json -> string.

Lemma commands_sent_app (a b : list event) :
  commands_sent (a ++ b)%list = (commands_sent a ++ commands_sent b)%list.
Proof.
  induction a as [|ev a IH]; [reflexivity|].
  destruct ev; cbn [app commands_sent]; rewrite IH; reflexivity.
Qed.

Lemma commands_sent_printed (l : list output) : commands_sent (map Printed l) = [].
Proof. induction l as [|o l IH]; [reflexivity|exact IH]. Qed.

Lemma printed_app (a b : list event) :
  printed (a ++ b)%list = (printed a ++ printed b)%list.
Proof.
  induction a as [|ev a IH]; [reflexivity|].
  destruct ev; cbn [app printed]; rewrite IH; reflexivity.
Qed.

(** What [send_command] sends is the command it was given, once at most. *)
Lemma send_command_sent (x : exchange) (command : string) (self : RemoteClient) :
  commands_sent (snd (send_command x command self)) = []
  \/ commands_sent (snd (send_command x command self)) = [command].
Proof.
  unfold send_command. destruct (socket self); [left; reflexivity| |left; reflexivity].
  destruct x as [[|e]|[|e]|r]; cbn; auto.
Qed.

(** The commands one pass of the loop sends: none, or the stripped line,
    which is not empty. *)
Lemma loop_body_sent (s : step) (self : RemoteClient) :
  commands_sent (snd (loop_body repr s self)) = []
  \/ exists line,
       user s = Typed line /\ strip line <> ""
       /\ commands_sent (snd (loop_body repr s self)) = [strip line].
Proof.
  unfold loop_body. destruct (user s) as [line|r]; [|left; reflexivity].
  destruct (String.eqb_spec (strip line) "") as [|Hne]; [left; reflexivity|].
  destruct (send_command_sent (server s) (strip line) self) as [Hs|Hs];
    destruct (send_command (server s) (strip line) self) as [[r|response] evs];
    cbn [snd] in Hs |- *.
  - left. cbn [commands_sent]. exact Hs.
  - left. destruct (show_response repr (strip line) response) as [outs [e|]];
      cbn [snd commands_sent]; rewrite commands_sent_app, Hs, commands_sent_printed;
      reflexivity.
  - right. exists line. repeat split; [exact Hne|]. cbn [commands_sent]. exact Hs.
  - right. exists line. repeat split; [exact Hne|].
    destruct (show_response repr (strip line) response) as [outs [e|]];
      cbn [snd commands_sent]; rewrite commands_sent_app, Hs, commands_sent_printed;
      reflexivity.
Qed.

Lemma loop_sent (steps : list step) (self : RemoteClient) :
  Forall (fun c => c <> "" /\ exists s line,
                     In s steps /\ user s = Typed line /\ c = strip line)
         (commands_sent (snd (loop repr steps self)))
  /\ List.length (commands_sent (snd (loop repr steps self))) <= List.length steps.
Proof.
  induction steps as [|s steps [IH IHl]]; [split; [constructor|reflexivity]|].
  assert (Hb := loop_body_sent s self). cbn [loop].
  assert (Hw : forall c, (c <> "" /\ exists s0 line,
                             In s0 steps /\ user s0 = Typed line /\ c = strip line) ->
                         c <> "" /\ exists s0 line,
                             In s0 (s :: steps) /\ user s0 = Typed line /\ c = strip line).
  { intros c (Hc & s0 & line & Hin & Hu & He). split; [exact Hc|].
    exists s0, line. repeat split; [right; exact Hin|exact Hu|exact He]. }
  assert (Hone : Forall (fun c => c <> "" /\ exists s0 line,
                           In s0 (s :: steps) /\ user s0 = Typed line /\ c = strip line)
                        (commands_sent (snd (loop_body repr s self)))
                 /\ List.length (commands_sent (snd (loop_body repr s self))) <= 1).
  { destruct Hb as [->|(line & Hu & Hne & ->)]; [split; [constructor|cbn; lia]|].
    split; [|reflexivity]. constructor; [|constructor]. split; [exact Hne|].
    exists s, line. repeat split; [left; reflexivity|exact Hu]. }
  destruct Hone as [Hf Hl].
  destruct (loop_body repr s self) as [[| |why] evs]; cbn [snd] in *.
  - destruct (loop repr steps self) as [how evs']. cbn [snd] in *.
    rewrite commands_sent_app, length_app. split; [|cbn [List.length]; lia].
    apply Forall_app. split; [exact Hf|].
    eapply Forall_impl; [|exact IH]. exact Hw.
  - split; [exact Hf|cbn [List.length]; lia].
  - split; [exact Hf|cbn [List.length]; lia].
Qed.

(** X23. What the client sends. In every run of [start_client], each text
    sent to the server is a line the user typed, stripped of the white
    space around it, and is not empty; a line of white space is never sent.
    No more commands are sent than lines were read. *)
Theorem client_sends_stripped_lines
        (net : connection) (steps : list step) (self : RemoteClient) :
  Forall (fun c => c <> "" /\ strip c = c
                   /\ exists s line, In s steps /\ user s = Typed line /\ c = strip line)
         (commands_sent (snd (start_client repr net steps self)))
  /\ List.length (commands_sent (snd (start_client repr net steps self)))
     <= List.length steps.
Proof.
  assert (Hconn : commands_sent (snd (connect net self)) = []).
  { unfold connect. destruct (conn_socket net); [reflexivity|].
    destruct (conn_connect net); reflexivity. }
  unfold start_client.
  destruct (connect net self) as [[[] self1] evs1]; cbn [snd] in Hconn |- *;
    [|rewrite Hconn; split; [constructor|cbn; lia]].
  destruct (loop_sent steps self1) as [Hf Hl].
  assert (Hf' : Forall (fun c => c <> "" /\ strip c = c
                         /\ exists s line, In s steps /\ user s = Typed line
                                           /\ c = strip line)
                       (commands_sent (snd (loop repr steps self1)))).
  { eapply Forall_impl; [|exact Hf]. intros c (Hc & s & line & Hin & Hu & ->).
    split; [exact Hc|]. split; [apply strip_idem|]. exists s, line. auto. }
  assert (Hclean : commands_sent (snd (cleanup self1)) = []).
  { unfold cleanup. destruct (socket self1); reflexivity. }
  destruct (loop repr steps self1) as [[| |[|e]] evs2]; cbn [snd] in *;
    try (destruct (cleanup self1) as [self2 evs3]; cbn [snd] in * );
    rewrite ?commands_sent_app; cbn [commands_sent show_help app];
    rewrite ?commands_sent_app, ?Hconn, ?Hclean; cbn [app commands_sent];
    rewrite ?Hclean, ?app_nil_r; split; assumption.
Qed.

(** X24. A server that cannot be reached. When the socket cannot be created
    or the connection is refused, [start_client] logs "Connection failed: "
    with the text of the exception and returns at once: the help is not
    shown, no line is read, nothing is sent, and [cleanup] is not run, so
    that a socket that was created stays open. *)
Theorem client_connection_failure
        (net : connection) (steps : list step) (self : RemoteClient) (e : exn) :
  (conn_socket net = Some e
   \/ (conn_socket net = None /\ conn_connect net = Some e)) ->
  start_client repr net steps self
  = (Returned,
     {| host := host self; port := port self;
        socket := match conn_socket net with
                  | Some _ => socket self
                  | None => Server.SockOpen
                  end |},
     [LoggedError ("Connection failed: " ++ exn_msg e)]).
Proof.
  unfold start_client, connect. intros [H|[H1 H2]].
  - rewrite H. destruct self; reflexivity.
  - rewrite H1, H2. reflexivity.
Qed.

Lemma connect_ok (net : connection) (self : RemoteClient) :
  conn_socket net = None -> conn_connect net = None ->
  connect net self
  = (true,
     {| host := host self; port := port self; socket := Server.SockOpen |},
     [LoggedInfo ("Connected to server at " ++ host self ++ ":"
                  ++ str_of_Z (port self))]).
Proof. intros H1 H2. unfold connect. rewrite H1, H2. reflexivity. Qed.



(** One pass of the loop when the server is gone. *)
Lemma loop_body_unanswered (s : step) (self : RemoteClient) :
  socket self = Server.SockOpen ->
  unanswered s ->
  exists evs, loop_body repr s self = (Continue, evs) /\ printed evs = [].
Proof.
  intros Hs (line & Hu & Hne & Hx). unfold loop_body. rewrite Hu.
  destruct (String.eqb_spec (strip line) "") as [|_]; [eexists; split; reflexivity|].
  unfold send_command. rewrite Hs.
  apply String.eqb_neq in Hne.
  destruct Hx as [->|[[e ->]|[e ->]]]; cbn [show_response String.eqb];
    rewrite Hne; eexists; split; reflexivity.
Qed.

Lemma loop_unanswered (steps : list step) (self : RemoteClient) :
  socket self = Server.SockOpen ->
  Forall unanswered steps ->
  exists evs, loop repr steps self = (Continue, evs) /\ printed evs = [].
Proof.
  intros Hs H. induction H as [|s steps Hx _ (evs' & IH & Hp')];
    [eexists; split; reflexivity|].
  destruct (loop_body_unanswered s self Hs Hx) as (evs & Hb & Hp).
  cbn [loop]. rewrite Hb, IH. eexists. split; [reflexivity|].
  rewrite printed_app, Hp, Hp'. reflexivity.
Qed.

(** X26. The client does not notice that the server is gone. Once the
    connection was made, as long as the user types commands other than
    [exit] and every exchange fails with an exception or gives the empty
    text of a closed connection, the client prints nothing after its help
    and goes on asking for commands: a failed exchange is logged and never
    ends the loop. *)
Theorem client_outlives_server
        (net : connection) (steps : list step) (self : RemoteClient) :
  conn_socket net = None -> conn_connect net = None ->
  Forall unanswered steps ->
  exists evs,
    start_client repr net steps self
    = (Prompting,
       {| host := host self; port := port self; socket := Server.SockOpen |}, evs)
    /\ printed evs = [Print help_text].
Proof.
  intros H1 H2 Hx. unfold start_client. rewrite (connect_ok net self H1 H2).
  destruct (loop_unanswered steps
              {| host := host self; port := port self; socket := Server.SockOpen |}
              eq_refl Hx) as (evs & -> & Hp).
  eexists. split; [reflexivity|].
  cbn [app printed show_help]. rewrite Hp. reflexivity.
Qed.

(** X27. The client releases its socket. Once the connection was made,
    however the loop is left, by [exit], by a [KeyboardInterrupt], by the end
    of the input or by an exception of the renderer, the socket is closed
    and the line of [cleanup] is the last of the log; as long as the loop
    is not left, the socket is open. *)
Theorem client_releases_socket
        (net : connection) (steps : list step) (self : RemoteClient) :
  conn_socket net = None -> conn_connect net = None ->
  match fst (fst (start_client repr net steps self)) with
  | Prompting =>
      socket (snd (fst (start_client repr net steps self))) = Server.SockOpen
  | _ =>
      socket (snd (fst (start_client repr net steps self))) = Server.SockClosed
      /\ exists evs,
           snd (start_client repr net steps self)
           = (evs ++ [SocketClosed; LoggedInfo "Client cleaned up and shut down"])%list
  end.
Proof.
  intros H1 H2. unfold start_client. rewrite (connect_ok net self H1 H2).
  destruct (loop repr steps _) as [[| |[|e]] evs2]; cbn [cleanup socket fst snd].
  - reflexivity.
  - split; [reflexivity|]. eexists (_ :: _ :: evs2)%list.
    cbn [app show_help]. reflexivity.
  - split; [reflexivity|].
    eexists (_ :: _ :: evs2 ++ [_])%list.
    cbn [app show_help]. rewrite <- app_assoc. reflexivity.
  - split; [reflexivity|]. eexists (_ :: _ :: evs2)%list.
    cbn [app show_help]. reflexivity.
Qed.

(** An exception that leaves the loop was raised by [input] or by the
    renderer. *)
Lemma loop_leaves (steps : list step) (self : RemoteClient) (e : exn) :
  fst (loop repr steps self) = Leave (Error e) ->
  exists s, In s steps
    /\ (user s = InputRaises (Error e)
        \/ exists line response,
             user s = Typed line /\ server s = Reply response
             /\ snd (format_response repr (strip line) response) = Some e).
Proof.
  induction steps as [|s steps IH]; [discriminate|]. cbn [loop].
  destruct (loop_body repr s self) as [[| |why] evs] eqn:Hb.
  - destruct (loop repr steps self) as [how evs']. cbn [fst] in *. intros H.
    destruct (IH H) as (s0 & Hin & Hs0). exists s0. split; [right; exact Hin|exact Hs0].
  - discriminate.
  - cbn [fst]. intros [= ->]. exists s. split; [left; reflexivity|].
    revert Hb. unfold loop_body. destruct (user s) as [line|r].
    + destruct (strip line =? "")%string; [discriminate|].
      unfold send_command. destruct (socket self); cbn [show_response];
        try (destruct (lower (strip line) =? "exit")%string; discriminate).
      destruct (server s) as [[|x]|[|x]|response]; cbn [show_response];
        try discriminate;
        try (destruct (lower (strip line) =? "exit")%string; discriminate).
      destruct (response =? "")%string;
        [destruct (lower (strip line) =? "exit")%string; discriminate|].
      destruct (format_response repr (strip line) response) as [outs [x|]] eqn:Hf;
        [|destruct (lower (strip line) =? "exit")%string; discriminate].
      intros [= -> _]. right. exists line, response. rewrite Hf. auto.
    + intros [= -> _]. left. reflexivity.
Qed.

(** X28. What can leave [start_client]. An exception leaves the method only
    when [input] raised it, as at the end of the input, or when the
    renderer raised it on a response; an exception of the connection, of
    [send] or of [recv] never does. *)
Theorem client_failures
        (net : connection) (steps : list step) (self : RemoteClient) (e : exn) :
  fst (fst (start_client repr net steps self)) = Failed e ->
  exists s, In s steps
    /\ (user s = InputRaises (Error e)
        \/ exists line response,
             user s = Typed line /\ server s = Reply response
             /\ snd (format_response repr (strip line) response) = Some e).
Proof.
  unfold start_client.
  destruct (connect net self) as [[[] self1] evs1]; [|discriminate].
  assert (H := loop_leaves steps self1 e).
  destruct (loop repr steps self1) as [[| |[|x]] evs2]; cbn [fst] in *;
    try discriminate;
    destruct (cleanup self1) as [self2 evs3]; try discriminate.
  intros [= ->]. apply H. reflexivity.
Qed.

End ClientSide.

Lemma client_connection_failure_witness :
  ClientLoop.start_client sample_repr refusing
    [{| ClientLoop.user := ClientLoop.Typed "time";
        ClientLoop.server := ClientLoop.Reply "Server time: 2024-05-01 12:00:00" |}]
    new_client
  = (ClientLoop.Returned,
     {| ClientLoop.host := "127.0.0.1"; ClientLoop.port := 65432;
        ClientLoop.socket := SockOpen |},
     [ClientLoop.LoggedError "Connection failed: [Errno 111] Connection refused"]).
Proof.
  apply (client_connection_failure sample_repr refusing _ new_client
           (Exn OSError "[Errno 111] Connection refused")).
  right. split; reflexivity.
Defined.


Lemma client_outlives_server_witness :
  exists evs,
    ClientLoop.start_client sample_repr reachable
      [{| ClientLoop.user := ClientLoop.Typed "cpu";
          ClientLoop.server := ClientLoop.Reply "" |};
       {| ClientLoop.user := ClientLoop.Typed "time";
          ClientLoop.server :=
            ClientLoop.SendRaises
              (ClientLoop.Error (Exn OSError "[Errno 32] Broken pipe")) |}]
      new_client
    = (ClientLoop.Prompting,
       {| ClientLoop.host := "127.0.0.1"; ClientLoop.port := 65432;
          ClientLoop.socket := SockOpen |}, evs)
    /\ ClientRuns.printed evs = [Print ClientLoop.help_text].
Proof.
  apply (client_outlives_server sample_repr reachable _ new_client eq_refl eq_refl).
  repeat constructor.
  - exists "cpu". repeat split; [discriminate|]. left. reflexivity.
  - exists "time". repeat split; [discriminate|]. right. left. eexists. reflexivity.
Defined.

Lemma client_releases_socket_witness :
  ClientLoop.socket
    (snd (fst (ClientLoop.start_client sample_repr reachable
                 [{| ClientLoop.user :=
                       ClientLoop.InputRaises (ClientLoop.Error end_of_input);
                     ClientLoop.server := ClientLoop.Reply "" |}]
                 new_client)))
  = SockClosed
  /\ exists evs,
       snd (ClientLoop.start_client sample_repr reachable
              [{| ClientLoop.user :=
                    ClientLoop.InputRaises (ClientLoop.Error end_of_input);
                  ClientLoop.server := ClientLoop.Reply "" |}]
              new_client)
       = (evs ++ [ClientLoop.SocketClosed;
                  ClientLoop.LoggedInfo "Client cleaned up and shut down"])%list.
Proof.
  exact (client_releases_socket sample_repr reachable
           [{| ClientLoop.user := ClientLoop.InputRaises (ClientLoop.Error end_of_input);
               ClientLoop.server := ClientLoop.Reply "" |}]
           new_client eq_refl eq_refl).
Defined.

Lemma client_failures_witness :
  exists s,
    In s [{| ClientLoop.user := ClientLoop.Typed "processes";
             ClientLoop.server := ClientLoop.Reply "5" |}]
    /\ (ClientLoop.user s
        = ClientLoop.InputRaises
            (ClientLoop.Error (Exn TypeError "'int' object is not iterable"))
        \/ exists line response,
             ClientLoop.user s = ClientLoop.Typed line
             /\ ClientLoop.server s = ClientLoop.Reply response
             /\ snd (format_response sample_repr (strip line) response)
                = Some (Exn TypeError "'int' object is not iterable")).
Proof.
  apply (client_failures sample_repr reachable
           [{| ClientLoop.user := ClientLoop.Typed "processes";
               ClientLoop.server := ClientLoop.Reply "5" |}]
           new_client (Exn TypeError "'int' object is not iterable")).
  reflexivity.
Defined.

(** *** The build script *)

Section BuildScript.
Import Build.

Lemma path_exists_false (fs : directory) (name : string) :
  path_exists fs name = false <-> forall e, In e fs -> entry_name e <> name.
Proof.
  unfold path_exists, named. split.
  - intros H e Hin Hn. apply (f_equal negb) in H. cbn in H.
    assert (Hex : existsb (fun e0 => (entry_name e0 =? name)%string) fs = true).
    { apply existsb_exists. exists e. split; [exact Hin|]. apply String.eqb_eq, Hn. }
    rewrite Hex in H. discriminate H.
  - intros H. destruct (existsb _ fs) eqn:E; [|reflexivity].
    apply existsb_exists in E as (e & Hin & Hn). apply String.eqb_eq in Hn.
    exfalso. exact (H e Hin Hn).
Qed.

(** [rmtree] on a name that exists: it raises what the entry makes it raise
    and leaves the directory as it was, or removes what has that name. *)
Lemma rmtree_exists (fs : directory) (name : string) :
  path_exists fs name = true ->
  (exists e x, In e fs /\ entry_name e = name /\ entry_rmtree e = Some x
               /\ rmtree fs name = (inl x, fs))
  \/ rmtree fs name = (inr tt, filter (fun e => negb (named name e)) fs).
Proof.
  intros H. unfold rmtree. destruct (find (named name) fs) as [e|] eqn:E.
  - apply find_some in E as [Hin Hn]. apply String.eqb_eq in Hn.
    destruct (entry_rmtree e) as [x|] eqn:Ex; [left|right; reflexivity].
    exists e, x. auto.
  - exfalso. apply existsb_exists in H as (e & Hin & Hn).
    apply (find_none _ _ E) in Hin. unfold named in *. congruence.
Qed.

Lemma clean_spec (names : list string) (fs : directory) :
  (forall e, In e (snd (clean names fs)) -> In e fs)
  /\ (forall e, In e fs -> ~ In (entry_name e) names -> In e (snd (clean names fs)))
  /\ (fst (clean names fs) = inr tt ->
      forall n, In n names -> path_exists (snd (clean names fs)) n = false)
  /\ (forall x, fst (clean names fs) = inl x ->
      exists e, In e fs /\ In (entry_name e) names /\ entry_rmtree e = Some x).
Proof.
  revert fs. induction names as [|n names IH]; intros fs.
  - cbn [clean fst snd]. repeat split; auto; [intros _ ? []|discriminate].
  - cbn [clean]. destruct (path_exists fs n) eqn:Hex.
    + destruct (rmtree_exists fs n Hex) as [(e & x & Hin & Hn & Hx & ->)| ->].
      * cbn [fst snd]. repeat split; auto; [discriminate|].
        intros y [= <-]. exists e. rewrite Hn. cbn [In]. auto.
      * destruct (IH (filter (fun e => negb (named n e)) fs)) as (I1 & I2 & I3 & I4).
        repeat split.
        -- intros e He. apply I1 in He. apply filter_In in He as [He _]. exact He.
        -- intros e He Hn. apply I2; [|cbn [In] in Hn; tauto].
           apply filter_In. split; [exact He|]. unfold named.
           destruct (String.eqb_spec (entry_name e) n) as [Heq|]; [|reflexivity].
           exfalso. apply Hn. left. symmetry. exact Heq.
        -- intros Hr m [<-|Hm]; [|exact (I3 Hr m Hm)].
           apply path_exists_false. intros e He. apply I1 in He.
           apply filter_In in He as [_ He]. unfold named in He.
           destruct (String.eqb_spec (entry_name e) n); [discriminate He|assumption].
        -- intros x Hx. destruct (I4 x Hx) as (e & He & Hn & Hrm).
           apply filter_In in He as [He _]. exists e. cbn [In]. auto.
    + destruct (IH fs) as (I1 & I2 & I3 & I4). repeat split.
      * exact I1.
      * intros e He Hn. apply I2; [exact He|cbn [In] in Hn; tauto].
      * intros Hr m [<-|Hm]; [|exact (I3 Hr m Hm)].
        apply path_exists_false. intros e He. apply I1 in He.
        exact (proj1 (path_exists_false fs n) Hex e He).
      * intros x Hx. destruct (I4 x Hx) as (e & He & Hn & Hrm).
        exists e. cbn [In]. auto.
Qed.

Lemma clean_absent (names : list string) (fs : directory) :
  (forall n, In n names -> path_exists fs n = false) ->
  clean names fs = (inr tt, fs).
Proof.
  induction names as [|n names IH]; intros H; [reflexivity|].
  cbn [clean]. rewrite (H n (or_introl eq_refl)). apply IH.
  intros m Hm. apply H. right. exact Hm.
Qed.

(** X29. What [clean_directories] leaves. It creates nothing, and it leaves
    every entry that is named neither [build] nor [dist] where it was. When
    it returns, neither name exists any more, and running it again changes
    nothing. It raises only what [rmtree] raised on an entry named [build]
    or [dist] that it could not remove. *)
Theorem clean_directories_leaves (fs : directory) :
  (forall e, In e (snd (clean_directories fs)) -> In e fs)
  /\ (forall e, In e fs -> entry_name e <> "build" -> entry_name e <> "dist" ->
                In e (snd (clean_directories fs)))
  /\ (fst (clean_directories fs) = inr tt ->
      path_exists (snd (clean_directories fs)) "build" = false
      /\ path_exists (snd (clean_directories fs)) "dist" = false
      /\ clean_directories (snd (clean_directories fs))
         = (inr tt, snd (clean_directories fs)))
  /\ (forall x, fst (clean_directories fs) = inl x ->
      exists e, In e fs /\ (entry_name e = "build" \/ entry_name e = "dist")
                /\ entry_rmtree e = Some x).
Proof.
  unfold clean_directories.
  destruct (clean_spec ["build"; "dist"] fs) as (H1 & H2 & H3 & H4).
  repeat split.
  - exact H1.
  - intros e He Hb Hd. apply H2; [exact He|]. cbn [In]. intuition congruence.
  - apply H3; [assumption|cbn; tauto].
  - apply H3; [assumption|cbn; tauto].
  - apply clean_absent. intros n Hn. apply H3; assumption.
  - intros x Hx. destruct (H4 x Hx) as (e & He & Hn & Hrm). exists e.
    cbn [In] in Hn. intuition.
Qed.

(** X30. A build starts from a clean directory or does not start. When an
    old [build] or [dist] cannot be removed, [build_executables] raises
    before it has run a command or printed a line. Otherwise it runs the
    two [pyinstaller] commands, the server first, the first of them on a
    directory in which neither [build] nor [dist] exists, and it prints its
    four closing lines whatever the exit status of the commands: a build
    that failed is reported as completed. *)
Theorem build_from_clean_directory (env : Env) (fs : directory) :
  (forall x, fst (clean_directories fs) = inl x ->
     build_executables env fs = (inl x, snd (clean_directories fs), []))
  /\ (fst (clean_directories fs) = inr tt ->
      let cleaned := snd (clean_directories fs) in
      let server_cmd :=
        "pyinstaller --onefile --name remote_server" ++ ext env ++ " server.py" in
      let client_cmd :=
        "pyinstaller --onefile --name remote_client" ++ ext env ++ " client.py" in
      let first := os_system env server_cmd cleaned in
      let second := os_system env client_cmd (snd first) in
      path_exists cleaned "build" = false
      /\ path_exists cleaned "dist" = false
      /\ build_executables env fs
         = (inr tt, snd second,
            [Ran server_cmd (fst first); Ran client_cmd (fst second);
             Printed (String "010" "Build completed!");
             Printed (String "010" "Executables can be found in the 'dist' directory:");
             Printed ("- remote_server" ++ ext env);
             Printed ("- remote_client" ++ ext env)])).
Proof.
  split.
  - intros x Hx. unfold build_executables.
    destruct (clean_directories fs) as [[y|[]] fs']; cbn [fst snd] in *;
      [congruence|discriminate].
  - intros Hr cleaned server_cmd client_cmd first second.
    destruct (clean_spec ["build"; "dist"] fs) as (_ & _ & H3 & _).
    split; [apply H3; [exact Hr|cbn; tauto]|].
    split; [apply H3; [exact Hr|cbn; tauto]|].
    unfold build_executables. subst cleaned first second.
    destruct (clean_directories fs) as [[y|[]] fs']; cbn [fst snd] in *;
      [discriminate|].
    cbn [commands run]. fold server_cmd client_cmd.
    destruct (os_system env server_cmd fs') as [st1 fs1]. cbn [snd fst].
    destruct (os_system env client_cmd fs1) as [st2 fs2]. reflexivity.
Qed.

End BuildScript.

Lemma clean_directories_leaves_witness :
  Build.path_exists (snd (Build.clean_directories old_build)) "build" = false
  /\ Build.path_exists (snd (Build.clean_directories old_build)) "dist" = false
  /\ Build.clean_directories (snd (Build.clean_directories old_build))
     = (inr tt, snd (Build.clean_directories old_build)).
Proof.
  destruct (clean_directories_leaves old_build) as (_ & _ & H & _).
  exact (H eq_refl).
Defined.

Lemma build_from_clean_directory_witness :
  Build.build_executables no_pyinstaller dist_is_file
  = (inl (Exn OSError "[Errno 20] Not a directory: 'dist'"),
     snd (Build.clean_directories dist_is_file), []).
Proof.
  destruct (build_from_clean_directory no_pyinstaller dist_is_file) as [H _].
  exact (H _ eq_refl).
Defined.

(** An old build is removed and the sources stay; a [dist] that is a file
    stops the script before anything is built; and a build that fails is
    reported as completed. *)
Example clean_old_build :
  Build.clean_directories old_build
  = (inr tt,
     [ {| Build.entry_name := "server.py";
          Build.entry_rmtree := Some (Exn OSError "[Errno 20] Not a directory: 'server.py'") |};
       {| Build.entry_name := "client.py";
          Build.entry_rmtree := Some (Exn OSError "[Errno 20] Not a directory: 'client.py'") |} ])
  /\ Build.build_executables no_pyinstaller dist_is_file
     = (inl (Exn OSError "[Errno 20] Not a directory: 'dist'"),
        [ {| Build.entry_name := "dist";
             Build.entry_rmtree := Some (Exn OSError "[Errno 20] Not a directory: 'dist'") |} ],
        [])
  /\ snd (Build.build_executables no_pyinstaller old_build)
     = [Build.Ran "pyinstaller --onefile --name remote_server server.py" 127;
        Build.Ran "pyinstaller --onefile --name remote_client client.py" 127;
        Build.Printed (String "010" "Build completed!");
        Build.Printed (String "010" "Executables can be found in the 'dist' directory:");
        Build.Printed "- remote_server"; Build.Printed "- remote_client"].
Proof. repeat split; reflexivity. Qed.

